(** * ArchiCAD IFC plug-in: the job guard, the command router and the
      WebSocket session, embedded from the C++ sources

    Sources embedded here:
    - [Src/ConversionHandler.cpp]  (the single-flight job guard),
    - [Src/IFC_To_Archicad.cpp]    (the add-on commands and the router),
    - [Src/WebSocketServer.cpp]    (sessions, command extraction, JSON escaping).

    Conventions.
    - [std::string] is [string]; a [char] read as a number is a signed
      8-bit value (the plug-in is built with MSVC, see [<Windows.h>]).
    - [size_t] positions returned by [std::string::find] are [option nat],
      [None] standing for [std::string::npos]; [npos + 1] wraps to [0].
    - The three static flags of [ConversionHandler] are shared between the
      host thread and the network thread, so code touching them is written
      in a small resumption monad [Prog] whose constructors are the single
      loads and stores; [run] executes a program alone, [interleave]
      executes two programs under a schedule.
    - Results of host API calls come from an oracle record.
    - Console output ([std::cout], [std::cerr], [DebugLog]) is not modelled. *)

From Stdlib Require Import String Ascii List ZArith Bool Arith Lia.
From Stdlib Require Import DecimalString.
Import ListNotations.

Local Open Scope string_scope.
Local Open Scope list_scope.

(* ================================================================== *)
(** * Host API results *)

Definition GSErrCode := Z.
Definition NoError : GSErrCode := 0%Z.

(** What a call that may throw does. *)
Inductive Outcome (A : Type) : Type :=
| Returns (a : A)
| ThrowsStd (what : string)          (* caught by [catch (const std::exception& e)] *)
| ThrowsOther.                       (* caught only by [catch (...)] *)

Arguments Returns {A} a.
Arguments ThrowsStd {A} what.
Arguments ThrowsOther {A}.

(** [std::to_string] on an [int]. *)
Definition to_string (z : Z) : string := NilZero.string_of_int (Z.to_int z).

Inductive ApiCall : Type :=
| ProjectOperation_Close
| ProjectOperation_Open (fileType : string) (path : string)
| ProjectOperation_Save (fileType : string) (path : string)
| ProjectOperation_NewProject.

(** What the host thread does that can be seen from outside the handler. *)
Inductive Obs : Type :=
| Progress (percent : Z) (message : string)       (* a call of [onProgress] *)
| Call (api : ApiCall) (result : Outcome GSErrCode)
| Sleep (ms : nat).

(** The oracle for one conversion: what each host call answers.  The
    statements of a conversion that are not listed here (string and
    location copies, the progress callback) are taken not to throw. *)
Record HostEnv : Type := {
  fileStatus  : Outcome GSErrCode;          (* building the location and [IO::File::GetStatus] *)
  closeBefore : Outcome GSErrCode;          (* [ACAPI_ProjectOperation_Close] before opening *)
  openProject : Outcome GSErrCode;          (* [ACAPI_ProjectOperation_Open] *)
  translators : Outcome (GSErrCode * nat);  (* [GetIFCExportTranslatorsList]: code, list size *)
  prepareSave : Outcome unit;               (* building the output location *)
  saveProject : Outcome GSErrCode;          (* [ACAPI_ProjectOperation_Save] *)
  closeAfter  : Outcome GSErrCode;          (* the close of the cleanup *)
  newProject  : Outcome GSErrCode           (* [ACAPI_ProjectOperation_NewProject] *)
}.

(* ================================================================== *)
(** * The static state of [ConversionHandler] *)

Record HandlerState : Type := {
  s_currentJobId : string;
  s_conversionInProgress : bool;
  s_shouldCancel : bool
}.

(** Static member initialization (ConversionHandler.cpp, lines 29-31). *)
Definition initial_state : HandlerState :=
  {| s_currentJobId := ""; s_conversionInProgress := false; s_shouldCancel := false |}.

Definition set_inProgress (b : bool) (s : HandlerState) : HandlerState :=
  {| s_currentJobId := s_currentJobId s; s_conversionInProgress := b;
     s_shouldCancel := s_shouldCancel s |}.

Definition set_jobId (j : string) (s : HandlerState) : HandlerState :=
  {| s_currentJobId := j; s_conversionInProgress := s_conversionInProgress s;
     s_shouldCancel := s_shouldCancel s |}.

Definition set_cancel (b : bool) (s : HandlerState) : HandlerState :=
  {| s_currentJobId := s_currentJobId s;
     s_conversionInProgress := s_conversionInProgress s; s_shouldCancel := b |}.

(** The job guard is Idle when no conversion is flagged and no id is kept. *)
Definition Idle (s : HandlerState) : Prop :=
  s_conversionInProgress s = false /\ s_currentJobId s = "".

(* ================================================================== *)
(** * Programs over the shared flags *)

Inductive Prog (R : Type) : Type :=
| Ret (r : R)
| LoadInProgress (k : bool -> Prog R)
| LoadJobId (k : string -> Prog R)
| LoadCancel (k : bool -> Prog R)
| StoreInProgress (b : bool) (k : Prog R)
| StoreJobId (j : string) (k : Prog R)
| StoreCancel (b : bool) (k : Prog R)
| Emit (o : Obs) (k : Prog R).

Arguments Ret {R} r.
Arguments LoadInProgress {R} k.
Arguments LoadJobId {R} k.
Arguments LoadCancel {R} k.
Arguments StoreInProgress {R} b k.
Arguments StoreJobId {R} j k.
Arguments StoreCancel {R} b k.
Arguments Emit {R} o k.

Fixpoint bind {A B : Type} (p : Prog A) (f : A -> Prog B) : Prog B :=
  match p with
  | Ret a => f a
  | LoadInProgress k => LoadInProgress (fun b => bind (k b) f)
  | LoadJobId k => LoadJobId (fun j => bind (k j) f)
  | LoadCancel k => LoadCancel (fun b => bind (k b) f)
  | StoreInProgress b k => StoreInProgress b (bind k f)
  | StoreJobId j k => StoreJobId j (bind k f)
  | StoreCancel b k => StoreCancel b (bind k f)
  | Emit o k => Emit o (bind k f)
  end.

Declare Scope prog_scope.
Delimit Scope prog_scope with prog.
Notation "x <- p ;; q" := (bind p (fun x => q))
  (at level 61, p at next level, right associativity) : prog_scope.
Notation "p ;; q" := (bind p (fun _ => q))
  (at level 61, right associativity) : prog_scope.

Definition emit (o : Obs) : Prog unit := Emit o (Ret tt).
Definition store_inProgress (b : bool) : Prog unit := StoreInProgress b (Ret tt).
Definition store_jobId (j : string) : Prog unit := StoreJobId j (Ret tt).
Definition store_cancel (b : bool) : Prog unit := StoreCancel b (Ret tt).
Definition load_inProgress : Prog bool := LoadInProgress Ret.
Definition load_jobId : Prog string := LoadJobId Ret.

(** One atomic step of a program: the new program, the new state and what
    was observed; [None] when the program has returned. *)
Definition step {R : Type} (p : Prog R) (s : HandlerState)
  : option (Prog R * HandlerState * list Obs) :=
  match p with
  | Ret _ => None
  | LoadInProgress k => Some (k (s_conversionInProgress s), s, [])
  | LoadJobId k => Some (k (s_currentJobId s), s, [])
  | LoadCancel k => Some (k (s_shouldCancel s), s, [])
  | StoreInProgress b k => Some (k, set_inProgress b s, [])
  | StoreJobId j k => Some (k, set_jobId j s, [])
  | StoreCancel b k => Some (k, set_cancel b s, [])
  | Emit o k => Some (k, s, [o])
  end.

(** A program running alone, to its end. *)
Fixpoint run {R : Type} (p : Prog R) (s : HandlerState)
  : R * HandlerState * list Obs :=
  match p with
  | Ret r => (r, s, [])
  | LoadInProgress k => run (k (s_conversionInProgress s)) s
  | LoadJobId k => run (k (s_currentJobId s)) s
  | LoadCancel k => run (k (s_shouldCancel s)) s
  | StoreInProgress b k => run k (set_inProgress b s)
  | StoreJobId j k => run k (set_jobId j s)
  | StoreCancel b k => run k (set_cancel b s)
  | Emit o k => let '(r, s', l) := run k s in (r, s', o :: l)
  end.

Definition result_of {R : Type} (x : R * HandlerState * list Obs) : R := fst (fst x).
Definition state_of {R : Type} (x : R * HandlerState * list Obs) : HandlerState := snd (fst x).
Definition log_of {R : Type} (x : R * HandlerState * list Obs) : list Obs := snd x.

(** Two threads over the same flags.  [true] in the schedule lets the
    first thread take one atomic step, [false] the second; a thread that
    has returned does not move.  When the schedule is used up the first
    thread runs to its end, then the second. *)
Record Joint (A B : Type) : Type := {
  res1 : A; log1 : list Obs;
  res2 : B; log2 : list Obs;
  final : HandlerState
}.
Arguments res1 {A B} j.
Arguments log1 {A B} j.
Arguments res2 {A B} j.
Arguments log2 {A B} j.
Arguments final {A B} j.

Fixpoint interleave {A B : Type} (sched : list bool) (p : Prog A) (q : Prog B)
  (s : HandlerState) (lp lq : list Obs) : Joint A B :=
  match sched with
  | [] =>
      let '(a, s1, l1) := run p s in
      let '(b, s2, l2) := run q s1 in
      {| res1 := a; log1 := lp ++ l1; res2 := b; log2 := lq ++ l2; final := s2 |}
  | true :: sched' =>
      match step p s with
      | Some (p', s', o) => interleave sched' p' q s' (lp ++ o) lq
      | None => interleave sched' p q s lp lq
      end
  | false :: sched' =>
      match step q s with
      | Some (q', s', o) => interleave sched' p q' s' lp (lq ++ o)
      | None => interleave sched' p q s lp lq
      end
  end.

(* ================================================================== *)
(** * ConversionHandler.cpp *)

Module ConversionHandler.

Local Open Scope prog_scope.
Local Open Scope Z_scope.

(** [if (onProgress) onProgress(percent, message);] where [hasCallback]
    says whether a callback was passed.  The callback the add-on commands
    pass only prints and broadcasts; it is an observation here. *)
Definition onProgress (hasCallback : bool) (percent : Z) (message : string) : Prog unit :=
  if hasCallback then emit (Progress percent message) else Ret tt.

(** The handlers at the end of the outer [try] block (lines 235-245 and
    425-435): report, then fall through to the cleanup label. *)
Definition outer_catch {A : Type} (cb : bool) (o : Outcome A) : Prog bool :=
  match o with
  | ThrowsStd what => onProgress cb 0 ("Error: " ++ what) ;; Ret false
  | _ => onProgress cb 0 "Error: Unknown exception" ;; Ret false
  end.

(** [ACAPI_ProjectOperation_Close] inside its own [try]/[catch (...)]
    (lines 99-109): the sleep is skipped when the call throws, the error
    code is only logged. *)
Definition close_before (env : HostEnv) : Prog unit :=
  emit (Call ProjectOperation_Close (closeBefore env)) ;;
  match closeBefore env with
  | Returns _ => emit (Sleep 500)
  | _ => Ret tt
  end.

(** Lines 247-267 (and 437-457): the code after the label [error:]. *)
Definition cleanup_after_conversion (env : HostEnv) : Prog unit :=
  emit (Call ProjectOperation_Close (closeAfter env)) ;;
  emit (Call ProjectOperation_NewProject (newProject env)) ;;   (* OpenBlankTemplate() *)
  store_inProgress false ;;
  store_jobId "".

(** The [try] block of [ConvertPlnToIfc] (lines 77-245); the result is the
    value of [success] on reaching the label [error:]. *)
Definition pln_try (env : HostEnv) (cb : bool) (plnPath outputPath : string) : Prog bool :=
  match fileStatus env with
  | Returns st =>
      if negb (st =? NoError) then
        onProgress cb 0 "Error: Cannot access .pln file" ;; Ret false
      else
        onProgress cb 20 "Closing current project" ;;
        close_before env ;;
        onProgress cb 30 "Opening .pln project" ;;
        emit (Call (ProjectOperation_Open "APIFType_PlanFile" plnPath) (openProject env)) ;;
        match openProject env with
        | ThrowsStd what =>
            onProgress cb 0 ("Exception opening project: " ++ what) ;; Ret false
        | ThrowsOther =>
            onProgress cb 0 "Unknown exception opening project" ;; Ret false
        | Returns err =>
            if negb (err =? NoError) then
              onProgress cb 0 ("Error opening .pln file. Code: " ++ to_string err) ;; Ret false
            else
              onProgress cb 50 "Preparing IFC export" ;;
              match translators env with
              | Returns (translatorErr, count) =>
                  if negb (translatorErr =? NoError) || Nat.eqb count 0 then
                    onProgress cb 0 "Error: No IFC translators available" ;; Ret false
                  else
                    onProgress cb 70 "Exporting to IFC" ;;
                    match prepareSave env with
                    | Returns _ =>
                        emit (Call (ProjectOperation_Save "APIFType_IfcFile" outputPath)
                                   (saveProject env)) ;;
                        match saveProject env with
                        | ThrowsStd what =>
                            onProgress cb 0 ("Exception saving IFC: " ++ what) ;; Ret false
                        | ThrowsOther =>
                            onProgress cb 0 "Unknown exception saving IFC" ;; Ret false
                        | Returns saveErr =>
                            if negb (saveErr =? NoError) then
                              onProgress cb 0 ("Error saving IFC file. Code: " ++ to_string saveErr) ;;
                              Ret false
                            else
                              onProgress cb 100 "Conversion completed successfully" ;;
                              Ret true
                        end
                    | thrown => outer_catch cb thrown
                    end
              | thrown => outer_catch cb thrown
              end
        end
  | thrown => outer_catch cb thrown
  end.

Definition ConvertPlnToIfc (env : HostEnv) (jobId plnPath outputPath : string)
  (cb : bool) : Prog bool :=
  inProgress <- load_inProgress ;;
  if inProgress then
    onProgress cb 0 "Error: Another conversion is already in progress" ;;
    Ret false
  else
    store_inProgress true ;;
    store_jobId jobId ;;
    store_cancel false ;;
    success <- pln_try env cb plnPath outputPath ;;
    cleanup_after_conversion env ;;
    Ret success.

(** The [try] block of [ConvertIfcToPln] (lines 294-435). *)
Definition ifc_try (env : HostEnv) (cb : bool) (ifcPath outputPath : string) : Prog bool :=
  match fileStatus env with
  | Returns st =>
      if negb (st =? NoError) then
        onProgress cb 0 "Error: Cannot access IFC file" ;; Ret false
      else
        onProgress cb 20 "Closing current project" ;;
        close_before env ;;
        onProgress cb 40 "Loading IFC file" ;;
        emit (Call (ProjectOperation_Open "APIFType_IfcFile" ifcPath) (openProject env)) ;;
        match openProject env with
        | ThrowsStd what =>
            onProgress cb 0 ("Exception opening IFC: " ++ what) ;; Ret false
        | ThrowsOther =>
            onProgress cb 0 "Unknown exception opening IFC" ;; Ret false
        | Returns err =>
            if negb (err =? NoError) then
              onProgress cb 0 ("Error opening IFC file. Code: " ++ to_string err) ;; Ret false
            else
              onProgress cb 70 "Saving as PLN file" ;;
              match prepareSave env with
              | Returns _ =>
                  emit (Call (ProjectOperation_Save "APIFType_PlanFile" outputPath)
                             (saveProject env)) ;;
                  match saveProject env with
                  | ThrowsStd what =>
                      onProgress cb 0 ("Exception saving PLN: " ++ what) ;; Ret false
                  | ThrowsOther =>
                      onProgress cb 0 "Unknown exception saving PLN" ;; Ret false
                  | Returns saveErr =>
                      if negb (saveErr =? NoError) then
                        onProgress cb 0 ("Error saving PLN file. Code: " ++ to_string saveErr) ;;
                        Ret false
                      else
                        onProgress cb 100 "Conversion completed successfully" ;;
                        Ret true
                  end
              | thrown => outer_catch cb thrown
              end
        end
  | thrown => outer_catch cb thrown
  end.

Definition ConvertIfcToPln (env : HostEnv) (jobId ifcPath outputPath : string)
  (cb : bool) : Prog bool :=
  inProgress <- load_inProgress ;;
  if inProgress then
    onProgress cb 0 "Error: Another conversion is already in progress" ;;
    Ret false
  else
    store_inProgress true ;;
    store_jobId jobId ;;
    store_cancel false ;;
    success <- ifc_try env cb ifcPath outputPath ;;
    cleanup_after_conversion env ;;
    Ret success.

(** Lines 462-471.  [||] evaluates its right operand only when the left
    one is false, so the job id is read only while a conversion is flagged. *)
Definition CancelConversion (jobId : string) : Prog bool :=
  inProgress <- load_inProgress ;;
  if negb inProgress then Ret false
  else
    current <- load_jobId ;;
    if negb (String.eqb current jobId) then Ret false
    else store_cancel true ;; Ret true.

(** Lines 473-476. *)
Definition IsConversionInProgress (jobId : string) : Prog bool :=
  inProgress <- load_inProgress ;;
  if inProgress then
    current <- load_jobId ;; Ret (String.eqb current jobId)
  else Ret false.

(** Lines 478-504. *)
Definition Cleanup (closeResult : Outcome GSErrCode) : Prog unit :=
  emit (Call ProjectOperation_Close closeResult) ;;
  store_inProgress false ;;
  store_jobId "" ;;
  store_cancel false.

End ConversionHandler.

(* ================================================================== *)
(** * [std::string] searching as the router uses it *)

Definition size_t := option nat.
Definition npos : size_t := None.

Fixpoint drop (n : nat) (s : string) : string :=
  match n, s with
  | O, _ => s
  | S n', String _ s' => drop n' s'
  | S _, EmptyString => EmptyString
  end.

(** Index of the first occurrence of [needle] in [s]. *)
Fixpoint find0 (needle s : string) : option nat :=
  if prefix needle s then Some O
  else match s with
       | EmptyString => None
       | String _ s' => option_map S (find0 needle s')
       end.

(** [s.find(needle, pos)]: [npos] when [pos] is past the end. *)
Definition find (s needle : string) (pos : size_t) : size_t :=
  match pos with
  | None => None
  | Some p =>
      if Nat.ltb (String.length s) p then None
      else option_map (Nat.add p) (find0 needle (drop p s))
  end.

(** [pos + 1] on [size_t]: [npos + 1] is [0]. *)
Definition size_succ (pos : size_t) : size_t :=
  match pos with
  | None => Some O
  | Some p => Some (S p)
  end.

(** [s.substr(pos, len)] for [pos <= s.size()], the only way it is called. *)
Definition substr (s : string) (pos len : nat) : string := substring pos len s.

Definition quote_char : ascii := ascii_of_nat 34.
Definition quote : string := String quote_char EmptyString.

(** The block repeated after every key search of the sources: [colonPos]
    is the first colon from the key on, [quoteStart] the first double
    quote from [colonPos] on, [quoteEnd] the first double quote from
    [quoteStart + 1] on, and when both quotes were found the value is
    [payload.substr(quoteStart + 1, quoteEnd - quoteStart - 1)].
    [None] when the condition is false (nothing is assigned). *)
Definition quoted_value_after (payload : string) (keyPos : nat) : option string :=
  let colonPos := find payload ":" (Some keyPos) in
  let quoteStart := find payload quote colonPos in
  let quoteEnd := find payload quote (size_succ quoteStart) in
  match quoteStart, quoteEnd with
  | Some qs, Some qe => Some (substr payload (qs + 1) (qe - qs - 1))
  | _, _ => None
  end.

(** A key between double quotes, the needle of every key search. *)
Definition quoted (key : string) : string := quote ++ key ++ quote.

(** [pos = find(k1); if (pos == npos) pos = find(k2);] *)
Definition find_either (payload k1 k2 : string) : size_t :=
  match find payload (quoted k1) (Some O) with
  | None => find payload (quoted k2) (Some O)
  | found => found
  end.

Definition empty (s : string) : bool := Nat.eqb (String.length s) 0.

(* ================================================================== *)
(** * WebSocketServer.cpp: escaping and the outbound messages *)

Module ArchicadWebSocketServer.

Local Open Scope Z_scope.

(** [static_cast<int>(c)] for a signed [char]. *)
Definition char_to_int (c : ascii) : Z :=
  let n := Z.of_nat (nat_of_ascii c) in
  if n <? 128 then n else n - 256.

Definition hex_digit (d : Z) : ascii :=
  if d <? 10 then ascii_of_nat (Z.to_nat (48 + d))
  else ascii_of_nat (Z.to_nat (87 + d)).

Fixpoint hex_of (digits : nat) (n : Z) (acc : string) : string :=
  match digits with
  | O => acc
  | S d =>
      let acc' := String (hex_digit (n mod 16)) acc in
      if n / 16 =? 0 then acc' else hex_of d (n / 16) acc'
  end.

Fixpoint zeros (n : nat) : string :=
  match n with
  | O => EmptyString
  | S n' => String "0" (zeros n')
  end.

(** [oss << std::hex << std::setw(4) << std::setfill('0') << v] for an
    [int]: the value is printed as the 32-bit unsigned number with the same
    bits, in lower case, and padded on the left to four characters. *)
Definition hex_setw4 (v : Z) : string :=
  let digits := hex_of 8 (v mod 2 ^ 32) EmptyString in
  (zeros (4 - String.length digits) ++ digits)%string.

Definition escape_char (c : ascii) : string :=
  let n := nat_of_ascii c in
  if Nat.eqb n 34 then "\" ++ quote            (* the double quote *)
  else if Nat.eqb n 92 then "\\"               (* the backslash *)
  else if Nat.eqb n 8 then "\b"
  else if Nat.eqb n 12 then "\f"
  else if Nat.eqb n 10 then "\n"
  else if Nat.eqb n 13 then "\r"
  else if Nat.eqb n 9 then "\t"
  else if char_to_int c <? 32 then ("\u" ++ hex_setw4 (char_to_int c))%string
  else String c EmptyString.

(** Lines 514-535. *)
Fixpoint EscapeJson (str : string) : string :=
  match str with
  | EmptyString => EmptyString
  | String c rest => (escape_char c ++ EscapeJson rest)%string
  end.

(** The three outbound messages. *)
Inductive Event : Type :=
| ProgressEvent (jobId : string) (progress : Z) (status message : string)
| ErrorEvent (jobId error : string)
| CompletedEvent (jobId outputPath : string).

Definition event_type (e : Event) : string :=
  match e with
  | ProgressEvent _ _ _ _ => "progress"
  | ErrorEvent _ _ => "error"
  | CompletedEvent _ _ => "completed"
  end.

Definition event_jobId (e : Event) : string :=
  match e with
  | ProgressEvent j _ _ _ => j
  | ErrorEvent j _ => j
  | CompletedEvent j _ => j
  end.

Definition q (s : string) : string := (quote ++ s ++ quote)%string.

(** The text [SendProgress], [SendError] and [SendCompletion] pass to
    [BroadcastMessage] (lines 460-501). *)
Definition message_text (e : Event) : string :=
  match e with
  | ProgressEvent jobId progress status message =>
      ("{" ++ q "type" ++ ":" ++ q "progress" ++ ","
        ++ q "jobId" ++ ":" ++ q (EscapeJson jobId) ++ ","
        ++ q "progress" ++ ":" ++ to_string progress ++ ","
        ++ q "status" ++ ":" ++ q (EscapeJson status) ++ ","
        ++ q "message" ++ ":" ++ q (EscapeJson message)
        ++ "}")%string
  | ErrorEvent jobId error =>
      ("{" ++ q "type" ++ ":" ++ q "error" ++ ","
        ++ q "jobId" ++ ":" ++ q (EscapeJson jobId) ++ ","
        ++ q "error" ++ ":" ++ q (EscapeJson error) ++ ","
        ++ q "status" ++ ":" ++ q "error"
        ++ "}")%string
  | CompletedEvent jobId outputPath =>
      ("{" ++ q "type" ++ ":" ++ q "completed" ++ ","
        ++ q "jobId" ++ ":" ++ q (EscapeJson jobId) ++ ","
        ++ q "status" ++ ":" ++ q "completed" ++ ","
        ++ q "message" ++ ":" ++ q "Conversion completed successfully" ++ ","
        ++ q "result" ++ ":{"
        ++ q "outputPath" ++ ":" ++ q (EscapeJson outputPath)
        ++ "}" ++ "}")%string
  end.

(** Lines 381-433.  The result is what the command callback returned, or
    [None] when it was not called. *)
Definition extract_field (jsonPayload key : string) : string :=
  match find jsonPayload (quoted key) (Some O) with
  | Some pos =>
      match quoted_value_after jsonPayload pos with
      | Some v => v
      | None => EmptyString
      end
  | None => EmptyString
  end.

Definition HandleCommand {R : Type}
  (m_commandCallback : option (string -> string -> string -> R))
  (jsonPayload : string) : option R :=
  let command := extract_field jsonPayload "command" in
  let jobId := extract_field jsonPayload "jobId" in
  match m_commandCallback with
  | Some callback =>
      if negb (empty command) then Some (callback command jobId jsonPayload)
      else None
  | None => None
  end.

(** Lines 368-379: the [catch] is for exceptions of the callback, which
    the callbacks modelled here do not raise. *)
Definition HandleMessage {R : Type}
  (m_commandCallback : option (string -> string -> string -> R))
  (message : string) : option R :=
  HandleCommand m_commandCallback message.

End ArchicadWebSocketServer.

(* ================================================================== *)
(** * WebSocketServer.cpp: one session *)

Module WebSocketSession.

(** [inFlight] holds the buffers of the [async_write] operations started
    and not yet completed, oldest first; [wire] the frames whose write has
    completed, in the order of completion; [reads] counts the outstanding
    [async_read] operations. *)
Record Session : Type := {
  m_open : bool;
  m_writeQueue : list string;
  inFlight : list string;
  wire : list string;
  reads : nat
}.

Definition with_open (b : bool) (x : Session) : Session :=
  {| m_open := b; m_writeQueue := m_writeQueue x; inFlight := inFlight x;
     wire := wire x; reads := reads x |}.

(** The session after a successful [OnAccept] (lines 68-80). *)
Definition accepted : Session :=
  {| m_open := true; m_writeQueue := []; inFlight := []; wire := []; reads := 1 |}.

(** Lines 82-89. *)
Definition DoRead (x : Session) : Session :=
  {| m_open := m_open x; m_writeQueue := m_writeQueue x; inFlight := inFlight x;
     wire := wire x; reads := S (reads x) |}.

(** Lines 146-157: the write is started on the front of the queue. *)
Definition DoWrite (x : Session) : Session :=
  match m_writeQueue x with
  | [] => x
  | front :: _ =>
      {| m_open := m_open x; m_writeQueue := m_writeQueue x;
         inFlight := inFlight x ++ [front]; wire := wire x; reads := reads x |}
  end.

(** Lines 128-144. *)
Definition Send (message : string) (x : Session) : Session :=
  if negb (m_open x) then x
  else
    let writing := negb (Nat.eqb (List.length (m_writeQueue x)) 0) in
    let x' := {| m_open := m_open x; m_writeQueue := m_writeQueue x ++ [message];
                 inFlight := inFlight x; wire := wire x; reads := reads x |} in
    if negb writing then DoWrite x' else x'.

(** Lines 159-175, as the completion handler of the oldest write in
    flight; [ec] is [true] for an error. *)
Definition OnWrite (ec : bool) (x : Session) : Session :=
  match inFlight x with
  | [] => x                                  (* no write to complete *)
  | buffer :: others =>
      if ec then
        {| m_open := false; m_writeQueue := m_writeQueue x; inFlight := others;
           wire := wire x; reads := reads x |}
      else
        let x' := {| m_open := m_open x; m_writeQueue := tl (m_writeQueue x);
                     inFlight := others; wire := wire x ++ [buffer];
                     reads := reads x |} in
        if negb (Nat.eqb (List.length (m_writeQueue x')) 0) then DoWrite x' else x'
  end.

(** Lines 177-191. *)
Definition Close (x : Session) : Session :=
  if negb (m_open x) then x else with_open false x.

Inductive ReadStatus : Type := ReadOk | ReadClosed | ReadError.

(** Lines 91-126, as the completion handler of one outstanding read.  The
    result of the message callback is returned next to the session. *)
Definition OnRead {R : Type} (ec : ReadStatus) (message : string)
  (m_messageCallback : option (string -> R)) (x : Session) : Session * option R :=
  let x0 := {| m_open := m_open x; m_writeQueue := m_writeQueue x;
               inFlight := inFlight x; wire := wire x; reads := pred (reads x) |} in
  match ec with
  | ReadClosed => (with_open false x0, None)
  | ReadError => (with_open false x0, None)
  | ReadOk =>
      let r := match m_messageCallback with
               | Some callback => Some (callback message)
               | None => None
               end in
      (DoRead x0, r)
  end.

(** What can happen to the outbound side of a session. *)
Inductive Op : Type :=
| OpSend (message : string)
| OpWriteDone (ec : bool).

Definition apply_op (x : Session) (o : Op) : Session :=
  match o with
  | OpSend m => Send m x
  | OpWriteDone ec => OnWrite ec x
  end.

Definition apply_ops (ops : list Op) (x : Session) : Session :=
  fold_left apply_op ops x.

Definition sent_messages (ops : list Op) : list string :=
  flat_map (fun o => match o with OpSend m => [m] | OpWriteDone _ => [] end) ops.

Definition error_free (ops : list Op) : bool :=
  forallb (fun o => match o with OpWriteDone true => false | _ => true end) ops.

(** Lines 193-196. *)
Definition IsOpen (x : Session) : bool := m_open x.

(** The session as its constructor leaves it (lines 30-34). *)
Definition constructed : Session :=
  {| m_open := false; m_writeQueue := []; inFlight := []; wire := []; reads := 0 |}.

(** Lines 68-80, the completion of the handshake; [ec] is [true] for an
    error. *)
Definition OnAccept (ec : bool) (x : Session) : Session :=
  if ec then x else DoRead (with_open true x).

(** Everything that can happen to a session once accepted: calls of
    [Send] and [Close] and the completions of its writes and reads. *)
Inductive Happening : Type :=
| HSend (message : string)
| HWriteDone (ec : bool)
| HClose
| HReadDone (ec : ReadStatus) (message : string).

Definition happen (x : Session) (h : Happening) : Session :=
  match h with
  | HSend m => Send m x
  | HWriteDone ec => OnWrite ec x
  | HClose => Close x
  | HReadDone ec message => fst (OnRead ec message (@None (string -> unit)) x)
  end.

Definition happen_all (hs : list Happening) (x : Session) : Session :=
  fold_left happen hs x.

Definition messages_of (hs : list Happening) : list string :=
  flat_map (fun h => match h with HSend m => [m] | _ => [] end) hs.

End WebSocketSession.

(* ================================================================== *)
(** * WebSocketServer.cpp: the sessions of the server *)

Module ServerSessions.

(** Lines 440-458 on the vector [m_sessions]: closed sessions are erased,
    then the message is sent to every session left that is open. *)
Definition BroadcastMessage (message : string)
  (m_sessions : list WebSocketSession.Session) : list WebSocketSession.Session :=
  let kept := filter WebSocketSession.IsOpen m_sessions in
  map (fun session =>
         if WebSocketSession.IsOpen session
         then WebSocketSession.Send message session
         else session) kept.

(** Lines 508-512. *)
Definition GetConnectionCount (m_sessions : list WebSocketSession.Session) : nat :=
  List.length m_sessions.

Definition broadcast_all (messages : list string)
  (m_sessions : list WebSocketSession.Session) : list WebSocketSession.Session :=
  fold_left (fun sessions m => BroadcastMessage m sessions) messages m_sessions.

End ServerSessions.

(* ================================================================== *)
(** * IFC_To_Archicad.cpp: the add-on commands and the router *)

Module Plugin.

Import ArchicadWebSocketServer.
Local Open Scope prog_scope.

(** Lines 45-57. *)
Fixpoint EscapeJsonString (str : string) : string :=
  match str with
  | EmptyString => EmptyString
  | String c rest =>
      let n := nat_of_ascii c in
      ((if Nat.eqb n 92 then "\\"
        else if Nat.eqb n 34 then "\" ++ quote
        else String c EmptyString) ++ EscapeJsonString rest)%string
  end.

(** The lambda passed as [onProgress] (lines 87-96); [server] says whether
    [g_wsServer] is set.  [ProgressWindow::UpdateProgress] only prints. *)
Definition progress_status (progress : Z) : string :=
  if (progress =? 0)%Z then "error"
  else if (progress =? 100)%Z then "completed" else "processing".

Definition progress_lambda (server : bool) (jobId : string) (o : Obs) : list Event :=
  match o with
  | Progress progress message =>
      if server then [ProgressEvent jobId progress (progress_status progress) message]
      else []
  | _ => []
  end.

(** Lines 107-111 (and 160-164). *)
Definition final_event (server success : bool) (jobId outputPath : string) : list Event :=
  if success && server then [CompletedEvent jobId outputPath]
  else if negb success && server then [ErrorEvent jobId "Conversion failed"]
  else [].

(** [ConversionCommand::Execute] (lines 64-114), run by the host on its
    main thread: the result, the handler state and the events broadcast. *)
Definition ConversionCommand_Execute (server : bool) (env : HostEnv)
  (jobId plnPath outputPath : string) (s : HandlerState)
  : bool * HandlerState * list Event :=
  let '(success, s', log) :=
    run (ConversionHandler.ConvertPlnToIfc env jobId plnPath outputPath true) s in
  (success, s',
   flat_map (progress_lambda server jobId) log
     ++ final_event server success jobId outputPath).

(** [ConvertIfcToPlnCommand::Execute] (lines 117-167). *)
Definition ConvertIfcToPlnCommand_Execute (server : bool) (env : HostEnv)
  (jobId ifcPath outputPath : string) (s : HandlerState)
  : bool * HandlerState * list Event :=
  let '(success, s', log) :=
    run (ConversionHandler.ConvertIfcToPln env jobId ifcPath outputPath true) s in
  (success, s',
   flat_map (progress_lambda server jobId) log
     ++ final_event server success jobId outputPath).

(** What the network thread does to the outside. *)
Inductive Effect : Type :=
| Broadcast (e : Event)
| HttpPost (port : Z) (requestJson : string).

Inductive HttpResult : Type :=
| HttpOk
| HttpFailed (what : string).      (* a [std::exception] caught by the inner handler *)

(** The oracle of one round trip, in the order of the inner [try] block
    (lines 532-571 and 664-696): the port, then the resolver and the
    connection, then the write of the request and the reading of the
    answer up to the end of the stream. *)
Record NetEnv : Type := {
  httpPort : GSErrCode * Z;        (* [ACAPI_Command_GetHttpConnectionPort] *)
  httpConnect : HttpResult;        (* [resolver.resolve] and [net::connect] *)
  httpExchange : HttpResult        (* [net::write] and the loop of [read_some] *)
}.

(** [if (g_wsServer) g_wsServer->SendError(jobId, error);] *)
Definition SendError (server : bool) (jobId error : string) : list Effect :=
  if server then [Broadcast (ErrorEvent jobId error)] else [].

Definition SendProgress (server : bool) (jobId : string) (progress : Z)
  (status message : string) : list Effect :=
  if server then [Broadcast (ProgressEvent jobId progress status message)] else [].

(** Lines 419-474: the paths and the direction read from the payload. *)
Definition parse_start_conversion (payload : string) : string * string * bool :=
  let '(inputPath, isPlnToIfc) :=
    match find_either payload "plnPath" "pln_path" with
    | Some plnPos =>
        match quoted_value_after payload plnPos with
        | Some v => (v, true)
        | None => (EmptyString, false)
        end
    | None => (EmptyString, false)
    end in
  let '(inputPath, isPlnToIfc) :=
    if empty inputPath then
      match find_either payload "ifcPath" "ifc_path" with
      | Some ifcPos =>
          match quoted_value_after payload ifcPos with
          | Some v => (v, false)
          | None => (inputPath, isPlnToIfc)
          end
      | None => (inputPath, isPlnToIfc)
      end
    else (inputPath, isPlnToIfc) in
  let outputPath :=
    match find_either payload "outputPath" "output_path" with
    | Some outPos =>
        match quoted_value_after payload outPos with
        | Some v => v
        | None => EmptyString
        end
    | None => EmptyString
    end in
  (inputPath, outputPath, isPlnToIfc).

(** Lines 513-526. *)
Definition requestJson (commandName jobId inputParamName escapedInputPath
  escapedOutputPath : string) : string :=
  ("{" ++ q "command" ++ ": " ++ q "API.ExecuteAddOnCommand" ++ ","
    ++ q "parameters" ++ ": {"
    ++ q "addOnCommandId" ++ ": {"
    ++ q "commandNamespace" ++ ": " ++ q "IFCPlugin" ++ ","
    ++ q "commandName" ++ ": " ++ q commandName
    ++ "},"
    ++ q "addOnCommandParameters" ++ ": {"
    ++ q "jobId" ++ ": " ++ q jobId ++ ","
    ++ q inputParamName ++ ": " ++ q escapedInputPath ++ ","
    ++ q "outputPath" ++ ": " ++ q escapedOutputPath
    ++ "}" ++ "}" ++ "}")%string.

(** Lines 646-658. *)
Definition loadRequestJson (jobId escapedIfcPath : string) : string :=
  ("{" ++ q "command" ++ ": " ++ q "API.ExecuteAddOnCommand" ++ ","
    ++ q "parameters" ++ ": {"
    ++ q "addOnCommandId" ++ ": {"
    ++ q "commandNamespace" ++ ": " ++ q "IFCPlugin" ++ ","
    ++ q "commandName" ++ ": " ++ q "LoadIfc"
    ++ "},"
    ++ q "addOnCommandParameters" ++ ": {"
    ++ q "jobId" ++ ": " ++ q jobId ++ ","
    ++ q "ifcPath" ++ ": " ++ q escapedIfcPath
    ++ "}" ++ "}" ++ "}")%string.

(** The round trip to the host (lines 491-584 and 629-710).  [HttpPost]
    is the call of [net::write] with the request: it is reached only with
    a port and a connection.  When the resolver or the connection throws,
    nothing is written and the handler of the inner [try] reports the
    exception, as it does for one thrown by the write or by the reading. *)
Definition post_to_host (server : bool) (net : NetEnv) (jobId request : string)
  (portError : string) : list Effect :=
  let '(err, port) := httpPort net in
  if negb (err =? NoError)%Z then SendError server jobId portError
  else
    match httpConnect net with
    | HttpFailed what => SendError server jobId ("HTTP request failed: " ++ what)
    | HttpOk =>
        HttpPost port request ::
        match httpExchange net with
        | HttpOk => []
        | HttpFailed what => SendError server jobId ("HTTP request failed: " ++ what)
        end
    end.

Definition start_conversion (server : bool) (net : NetEnv) (jobId payload : string)
  : list Effect :=
  let '(inputPath, outputPath, isPlnToIfc) := parse_start_conversion payload in
  if empty inputPath || empty outputPath then
    SendError server jobId "Missing input path (pln_path or ifc_path) and output_path"
  else
    let commandName := if isPlnToIfc then "ConvertPlnToIfc" else "ConvertIfcToPln" in
    let inputParamName := if isPlnToIfc then "plnPath" else "ifcPath" in
    post_to_host server net jobId
      (requestJson commandName jobId inputParamName
         (EscapeJsonString inputPath) (EscapeJsonString outputPath))
      ("Failed to get HTTP port. Error: " ++ to_string (fst (httpPort net))).

Definition load_ifc (server : bool) (net : NetEnv) (jobId payload : string)
  : list Effect :=
  let ifcPath :=
    match find payload (quoted "ifcPath") (Some O) with
    | Some ifcPos =>
        match quoted_value_after payload ifcPos with
        | Some v => v
        | None => EmptyString
        end
    | None => EmptyString
    end in
  if empty ifcPath then SendError server jobId "Missing ifcPath parameter"
  else
    post_to_host server net jobId
      (loadRequestJson jobId (EscapeJsonString ifcPath))
      "Failed to get HTTP port".

(** [HandleWebSocketCommand] (lines 404-712), run on the network thread. *)
Definition HandleWebSocketCommand (server : bool) (net : NetEnv)
  (command jobId payload : string) : Prog (list Effect) :=
  if String.eqb command "start_conversion" then
    Ret (start_conversion server net jobId payload)
  else if String.eqb command "cancel_job" then
    cancelled <- ConversionHandler.CancelConversion jobId ;;
    Ret (if cancelled then SendProgress server jobId 0 "cancelled" "Conversion cancelled"
         else [])
  else if String.eqb command "get_status" then
    if server then
      inProgress <- ConversionHandler.IsConversionInProgress jobId ;;
      Ret (SendProgress server jobId 0
             (if inProgress then "processing" else "idle") "Plugin ready")
    else Ret []
  else if String.eqb command "load_ifc" then
    Ret (load_ifc server net jobId payload)
  else Ret [].

(** One inbound frame on a session whose message callback is
    [HandleMessage] and whose command callback is [HandleWebSocketCommand]
    (the wiring of [OnAccept] and [StartWebSocketServer]). *)
Definition on_frame (server : bool) (net : NetEnv) (ec : WebSocketSession.ReadStatus)
  (message : string) (x : WebSocketSession.Session) (s : HandlerState)
  : WebSocketSession.Session * HandlerState * list Effect :=
  let '(x', r) :=
    WebSocketSession.OnRead ec message
      (Some (HandleMessage (Some (HandleWebSocketCommand server net)))) x in
  match r with
  | Some (Some p) => let '(effects, s', _) := run p s in (x', s', effects)
  | _ => (x', s, [])
  end.

(** The oracle of [LoadIfcCommand::Execute]. *)
Record LoadEnv : Type := {
  locationStatus : Outcome GSErrCode;   (* [IO::Location::Set] and [GetStatus] *)
  ifcFileStatus : Outcome GSErrCode;    (* [IO::File] and [GetStatus] *)
  loadOpen : Outcome GSErrCode          (* [ACAPI_ProjectOperation_Open] *)
}.

(** The [ObjectState] returned: the key [error] is added only for a
    non-empty message. *)
Record LoadResult : Type := {
  load_success : bool;
  load_jobId : string;
  load_error : option string
}.

(** The handlers of the [try] block of [LoadIfcCommand::Execute]
    (lines 232-238). *)
Definition load_catch {A : Type} (o : Outcome A) : bool * string * list Obs :=
  match o with
  | ThrowsStd what => (false, ("Exception: " ++ what)%string, [])
  | _ => (false, "Unknown exception", [])
  end.

(** Lines 183-238: the values of [success] and [errorMsg] at the label
    [load_error], and the host calls made. *)
Definition load_try (env : LoadEnv) (ifcPath : string) : bool * string * list Obs :=
  match locationStatus env with
  | Returns st =>
      if negb (st =? NoError)%Z then (false, "IFC file not found!", [])
      else
        match ifcFileStatus env with
        | Returns fileSt =>
            if negb (fileSt =? NoError)%Z then
              (false,
               "Cannot access IFC file. Please check if the file exists and you have permission to read it.",
               [])
            else
              let call := Call (ProjectOperation_Open "APIFType_IfcFile" ifcPath)
                               (loadOpen env) in
              match loadOpen env with
              | Returns err =>
                  if negb (err =? NoError)%Z then
                    (false, ("Error opening IFC file. Error code: " ++ to_string err)%string,
                     [call])
                  else (true, EmptyString, [call])
              | ThrowsStd what => (false, ("Exception: " ++ what)%string, [call])
              | ThrowsOther => (false, "Unknown exception", [call])
              end
        | thrown => load_catch thrown
        end
  | thrown => load_catch thrown
  end.

(** [LoadIfcCommand::Execute] (lines 170-259): the result, the events
    broadcast and the host calls. *)
Definition LoadIfcCommand_Execute (server : bool) (env : LoadEnv)
  (jobId ifcPath : string) : LoadResult * list Event * list Obs :=
  let '(success, errorMsg, calls) := load_try env ifcPath in
  let events :=
    if server then
      if success then
        [ProgressEvent jobId 100 "completed" "IFC file loaded successfully"]
      else [ErrorEvent jobId errorMsg]
    else [] in
  ({| load_success := success; load_jobId := jobId;
      load_error := if empty errorMsg then None else Some errorMsg |},
   events, calls).

End Plugin.

(* ================================================================== *)
(** * The reader's side: decoding a JSON string *)

(** The decoder of RFC 8259, section 7, for the characters between the
    two quotes of a JSON string; the escaping is checked against it.  The
    text read must be well-formed UTF-8 (RFC 8259, section 8.1, with the
    syntax of RFC 3629, section 4).  The result is the decoded text in
    UTF-8; [None] when the text is not the inside of a JSON string. *)
Module JsonString.

Local Open Scope Z_scope.

Definition hex_value (c : ascii) : option Z :=
  let n := Z.of_nat (nat_of_ascii c) in
  if (48 <=? n) && (n <=? 57) then Some (n - 48)
  else if (97 <=? n) && (n <=? 102) then Some (n - 87)
  else if (65 <=? n) && (n <=? 70) then Some (n - 55)
  else None.

Definition hex4 (a b c d : ascii) : option Z :=
  match hex_value a, hex_value b, hex_value c, hex_value d with
  | Some x, Some y, Some z, Some w => Some (((x * 16 + y) * 16 + z) * 16 + w)
  | _, _, _, _ => None
  end.

Definition byte (n : Z) : ascii := ascii_of_nat (Z.to_nat n).

Definition utf8 (cp : Z) : string :=
  if cp <? 128 then String (byte cp) EmptyString
  else if cp <? 2048 then
    String (byte (192 + cp / 64)) (String (byte (128 + cp mod 64)) EmptyString)
  else if cp <? 65536 then
    String (byte (224 + cp / 4096))
      (String (byte (128 + (cp / 64) mod 64))
         (String (byte (128 + cp mod 64)) EmptyString))
  else
    String (byte (240 + cp / 262144))
      (String (byte (128 + (cp / 4096) mod 64))
         (String (byte (128 + (cp / 64) mod 64))
            (String (byte (128 + cp mod 64)) EmptyString))).

Definition high_surrogate (cp : Z) : bool := (55296 <=? cp) && (cp <=? 56319).
Definition low_surrogate (cp : Z) : bool := (56320 <=? cp) && (cp <=? 57343).

Definition prepend (s : string) (r : option string) : option string :=
  option_map (String.append s) r.

(** Where the reader stands inside a UTF-8 sequence (RFC 3629, section 4):
    between two characters, or with one, two or three bytes [80..BF] to
    come, or just after a first byte that narrows the range of the next
    one ([E0]: [A0..BF]; [ED]: [80..9F]; [F0]: [90..BF]; [F4]: [80..8F]). *)
Inductive Pending : Type :=
| Whole | Tail1 | Tail2 | Tail3 | AfterE0 | AfterED | AfterF0 | AfterF4.

Definition between (lo n hi : nat) : bool := Nat.leb lo n && Nat.leb n hi.

Definition utf8_next (st : Pending) (c : ascii) : option Pending :=
  let n := nat_of_ascii c in
  match st with
  | Whole =>
      if Nat.ltb n 128 then Some Whole
      else if between 194 n 223 then Some Tail1
      else if Nat.eqb n 224 then Some AfterE0
      else if Nat.eqb n 237 then Some AfterED
      else if between 225 n 239 then Some Tail2
      else if Nat.eqb n 240 then Some AfterF0
      else if between 241 n 243 then Some Tail3
      else if Nat.eqb n 244 then Some AfterF4
      else None
  | Tail1 => if between 128 n 191 then Some Whole else None
  | Tail2 => if between 128 n 191 then Some Tail1 else None
  | Tail3 => if between 128 n 191 then Some Tail2 else None
  | AfterE0 => if between 160 n 191 then Some Tail1 else None
  | AfterED => if between 128 n 159 then Some Tail1 else None
  | AfterF0 => if between 144 n 191 then Some Tail2 else None
  | AfterF4 => if between 128 n 143 then Some Tail2 else None
  end.

(** The bytes of [s], read from the place [st], are well-formed UTF-8
    and end between two characters. *)
Fixpoint utf8_from (st : Pending) (s : string) : bool :=
  match s with
  | EmptyString => match st with Whole => true | _ => false end
  | String c rest =>
      match utf8_next st c with
      | Some st' => utf8_from st' rest
      | None => false
      end
  end.

Definition well_formed_utf8 (s : string) : bool := utf8_from Whole s.

(** An unescaped byte: it is copied when UTF-8 allows it at this place. *)
Definition copy (st : Pending) (c : ascii) (k : Pending -> option string)
  : option string :=
  match utf8_next st c with
  | Some st' => prepend (String c EmptyString) (k st')
  | None => None
  end.

Fixpoint decode_from (st : Pending) (s : string) : option string :=
  match s with
  | EmptyString => match st with Whole => Some EmptyString | _ => None end
  | String c rest =>
      match st with
      | Whole =>
      let n := nat_of_ascii c in
      if Nat.eqb n 34 then None                       (* a bare quote *)
      else if Nat.ltb n 32 then None                  (* a bare control character *)
      else if Nat.eqb n 92 then
        match rest with
        | EmptyString => None
        | String e rest1 =>
            let m := nat_of_ascii e in
            if Nat.eqb m 34 then prepend quote (decode_from Whole rest1)
            else if Nat.eqb m 92 then prepend "\" (decode_from Whole rest1)
            else if Nat.eqb m 47 then prepend "/" (decode_from Whole rest1)
            else if Nat.eqb m 98 then
              prepend (String (byte 8) EmptyString) (decode_from Whole rest1)
            else if Nat.eqb m 102 then
              prepend (String (byte 12) EmptyString) (decode_from Whole rest1)
            else if Nat.eqb m 110 then
              prepend (String (byte 10) EmptyString) (decode_from Whole rest1)
            else if Nat.eqb m 114 then
              prepend (String (byte 13) EmptyString) (decode_from Whole rest1)
            else if Nat.eqb m 116 then
              prepend (String (byte 9) EmptyString) (decode_from Whole rest1)
            else if Nat.eqb m 117 then
              match rest1 with
              | String h1 (String h2 (String h3 (String h4 rest2))) =>
                  match hex4 h1 h2 h3 h4 with
                  | None => None
                  | Some cp =>
                      if low_surrogate cp then None
                      else if high_surrogate cp then
                        match rest2 with
                        | String b (String u (String l1 (String l2 (String l3 (String l4 rest3))))) =>
                            if Nat.eqb (nat_of_ascii b) 92 && Nat.eqb (nat_of_ascii u) 117 then
                              match hex4 l1 l2 l3 l4 with
                              | Some lo =>
                                  if low_surrogate lo then
                                    prepend (utf8 (65536 + (cp - 55296) * 1024 + (lo - 56320)))
                                            (decode_from Whole rest3)
                                  else None
                              | None => None
                              end
                            else None
                        | _ => None
                        end
                      else prepend (utf8 cp) (decode_from Whole rest2)
                  end
              | _ => None
              end
            else None
        end
      else copy Whole c (fun st' => decode_from st' rest)
      | _ => copy st c (fun st' => decode_from st' rest)   (* inside a sequence *)
      end
  end.

Definition decode (s : string) : option string := decode_from Whole s.

End JsonString.

(* ================================================================== *)
(** * Observing a running program *)

(** The observations of a program running alone, each with the handler
    state in which it was made. *)
Fixpoint run_trace {R : Type} (p : Prog R) (s : HandlerState)
  : list (HandlerState * Obs) :=
  match p with
  | Ret _ => []
  | LoadInProgress k => run_trace (k (s_conversionInProgress s)) s
  | LoadJobId k => run_trace (k (s_currentJobId s)) s
  | LoadCancel k => run_trace (k (s_shouldCancel s)) s
  | StoreInProgress b k => run_trace k (set_inProgress b s)
  | StoreJobId j k => run_trace k (set_jobId j s)
  | StoreCancel b k => run_trace k (set_cancel b s)
  | Emit o k => (s, o) :: run_trace k s
  end.

(** The job guard shows job [j] as Running. *)
Definition Running (j : string) (s : HandlerState) : Prop :=
  s_conversionInProgress s = true /\ s_currentJobId s = j.

(** The program never reads [s_shouldCancel]. *)
Fixpoint no_cancel_load {R : Type} (p : Prog R) : Prop :=
  match p with
  | Ret _ => True
  | LoadInProgress k => forall b, no_cancel_load (k b)
  | LoadJobId k => forall j, no_cancel_load (k j)
  | LoadCancel _ => False
  | StoreInProgress _ k => no_cancel_load k
  | StoreJobId _ k => no_cancel_load k
  | StoreCancel _ k => no_cancel_load k
  | Emit _ k => no_cancel_load k
  end.

(** The program writes no flag but [s_shouldCancel]. *)
Fixpoint only_cancel_stores {R : Type} (p : Prog R) : Prop :=
  match p with
  | Ret _ => True
  | LoadInProgress k => forall b, only_cancel_stores (k b)
  | LoadJobId k => forall j, only_cancel_stores (k j)
  | LoadCancel k => forall b, only_cancel_stores (k b)
  | StoreInProgress _ _ => False
  | StoreJobId _ _ => False
  | StoreCancel _ k => only_cancel_stores k
  | Emit _ k => only_cancel_stores k
  end.

(** Two handler states that differ at most in [s_shouldCancel]. *)
Definition agree (s1 s2 : HandlerState) : Prop :=
  s_conversionInProgress s1 = s_conversionInProgress s2 /\
  s_currentJobId s1 = s_currentJobId s2.

(** The network thread asking to cancel, once per id of the list. *)
Fixpoint cancel_thread (jobIds : list string) : Prog (list bool) :=
  match jobIds with
  | [] => Ret []
  | j :: rest =>
      bind (ConversionHandler.CancelConversion j)
           (fun r => bind (cancel_thread rest) (fun rs => Ret (r :: rs)))
  end.

(** Start requests, as the host thread receives them. *)
Inductive Request : Type :=
| PlnToIfc (env : HostEnv) (jobId plnPath outputPath : string) (cb : bool)
| IfcToPln (env : HostEnv) (jobId ifcPath outputPath : string) (cb : bool).

Definition serve (r : Request) : Prog bool :=
  match r with
  | PlnToIfc env j i o cb => ConversionHandler.ConvertPlnToIfc env j i o cb
  | IfcToPln env j i o cb => ConversionHandler.ConvertIfcToPln env j i o cb
  end.

(** The host thread serving requests one after the other. *)
Fixpoint serve_all (rs : list Request) : Prog (list bool) :=
  match rs with
  | [] => Ret []
  | r :: rest =>
      bind (serve r) (fun b => bind (serve_all rest) (fun bs => Ret (b :: bs)))
  end.

Definition count_errors (jobId : string) (evs : list ArchicadWebSocketServer.Event) : nat :=
  List.length
    (filter (fun e => String.eqb (ArchicadWebSocketServer.event_type e) "error"
                      && String.eqb (ArchicadWebSocketServer.event_jobId e) jobId) evs).


(** The program touches no flag at all. *)
Fixpoint emits_only {R : Type} (p : Prog R) : Prop :=
  match p with
  | Ret _ => True
  | Emit _ k => emits_only k
  | _ => False
  end.

(** Run while [s_conversionInProgress] is set, the program writes no
    flag: its loads of that flag are answered [true]. *)
Fixpoint writes_nothing_while_busy {R : Type} (p : Prog R) : Prop :=
  match p with
  | Ret _ => True
  | LoadInProgress k => writes_nothing_while_busy (k true)
  | LoadJobId k => forall j, writes_nothing_while_busy (k j)
  | LoadCancel k => forall b, writes_nothing_while_busy (k b)
  | StoreInProgress _ _ => False
  | StoreJobId _ _ => False
  | StoreCancel _ _ => False
  | Emit _ k => writes_nothing_while_busy k
  end.

(** The handler state while job [j] is between admission and reset. *)
Definition running_state (j : string) : HandlerState :=
  {| s_currentJobId := j; s_conversionInProgress := true; s_shouldCancel := false |}.

(** The last two observations of every admitted conversion. *)
Definition cleanup_calls (env : HostEnv) : list Obs :=
  [Call ProjectOperation_Close (closeAfter env);
   Call ProjectOperation_NewProject (newProject env)].

Definition busy_report (cb : bool) : list Obs :=
  if cb then [Progress 0 "Error: Another conversion is already in progress"] else [].

Definition request_jobId (r : Request) : string :=
  match r with
  | PlnToIfc _ j _ _ _ => j
  | IfcToPln _ j _ _ _ => j
  end.

Definition request_env (r : Request) : HostEnv :=
  match r with
  | PlnToIfc env _ _ _ _ => env
  | IfcToPln env _ _ _ _ => env
  end.

(** A host on which every call succeeds, with one IFC translator. *)
Definition healthy_host : HostEnv :=
  {| fileStatus := Returns NoError; closeBefore := Returns NoError;
     openProject := Returns NoError; translators := Returns (NoError, 1);
     prepareSave := Returns tt; saveProject := Returns NoError;
     closeAfter := Returns NoError; newProject := Returns NoError |}.

(** Two start requests on two threads, from the initial state, under the
    schedule that lets each thread take its first step (the load of the
    flag) before the other goes on: both checks come before either
    store. *)
Definition racing_starts : Joint bool bool :=
  interleave [true; false]
    (serve (PlnToIfc healthy_host "J1" "a.pln" "a.ifc" true))
    (serve (IfcToPln healthy_host "J2" "b.ifc" "b.pln" true))
    initial_state [] [].

(** A host on which the input file cannot be read. *)
Definition missing_file_host : HostEnv :=
  {| fileStatus := Returns (-1)%Z; closeBefore := Returns NoError;
     openProject := Returns NoError; translators := Returns (NoError, 1);
     prepareSave := Returns tt; saveProject := Returns NoError;
     closeAfter := Returns NoError; newProject := Returns NoError |}.

(** While no write fails: the session is open, the write in flight (if
    any) is the one of the front of the queue, and there is one exactly
    when the queue is not empty. *)
Definition queue_invariant (x : WebSocketSession.Session) : Prop :=
  WebSocketSession.m_open x = true /\
  WebSocketSession.inFlight x = firstn 1 (WebSocketSession.m_writeQueue x).


(* ================================================================== *)
(** * Payloads, to state what the router reads from them *)

(** The string does not contain the character. *)
Fixpoint no_char (c : ascii) (s : string) : bool :=
  match s with
  | EmptyString => true
  | String a s' => negb (Ascii.eqb a c) && no_char c s'
  end.

Definition no_quote (s : string) : bool := no_char quote_char s.

(** A flat JSON object with string values, written without white space:
    the text a client sends for the fields [fs]. *)
Definition field_text (kv : string * string) : string :=
  quoted (fst kv) ++ ":" ++ quoted (snd kv).

Fixpoint fields_text (fs : list (string * string)) : string :=
  match fs with
  | [] => EmptyString
  | kv :: rest =>
      field_text kv ++
      match rest with
      | [] => EmptyString
      | _ :: _ => "," ++ fields_text rest
      end
  end.

Definition object_text (fs : list (string * string)) : string :=
  "{" ++ fields_text fs ++ "}".

(** The value of the first field named [k]. *)
Fixpoint lookup (k : string) (fs : list (string * string)) : option string :=
  match fs with
  | [] => None
  | (k', v) :: rest => if String.eqb k k' then Some v else lookup k rest
  end.

(** The value under the canonical name, else under the alternate one. *)
Definition lookup_either (k1 k2 : string) (fs : list (string * string)) : option string :=
  match lookup k1 fs with
  | Some v => Some v
  | None => lookup k2 fs
  end.

(** The six names the router searches for. *)
Definition key_names : list string :=
  ["plnPath"; "pln_path"; "ifcPath"; "ifc_path"; "outputPath"; "output_path"].

(** Keys and values hold no double quote, and no value is spelled like
    one of the six names. *)
Definition plain_field (kv : string * string) : Prop :=
  no_quote (fst kv) = true /\ no_quote (snd kv) = true /\ ~ In (snd kv) key_names.

Definition plain_object (fs : list (string * string)) : Prop := Forall plain_field fs.

(** The reading of a start request by field names: either name of a field
    is accepted, an absent field is the empty string, the direction is
    PLN to IFC when a PLN path is given and IFC to PLN when only an IFC
    path is given (an empty PLN path counts as not given when there is an
    IFC path). *)
Definition or_empty (o : option string) : string :=
  match o with
  | Some v => v
  | None => EmptyString
  end.

Definition fields_read (fs : list (string * string)) : string * string * bool :=
  let pln := lookup_either "plnPath" "pln_path" fs in
  let ifc := lookup_either "ifcPath" "ifc_path" fs in
  let out := or_empty (lookup_either "outputPath" "output_path" fs) in
  match pln with
  | Some v =>
      if empty v then
        match ifc with
        | Some v' => (v', out, false)
        | None => (EmptyString, out, true)
        end
      else (v, out, true)
  | None => (or_empty ifc, out, false)
  end.

(** The value the router reads for a field with two names. *)
Definition field_value (payload k1 k2 : string) : option string :=
  match find_either payload k1 k2 with
  | Some pos => quoted_value_after payload pos
  | None => None
  end.

(** What follows a field in the text of an object closed by [t]. *)
Definition tail_text (rest : list (string * string)) (t : string) : string :=
  match rest with
  | [] => t
  | _ :: _ => String "," (fields_text rest ++ t)
  end.

(** A name that can be searched for: no double quote, no colon, and not
    one of the two separators. *)
Definition searchable (k : string) : Prop :=
  no_quote k = true /\ no_char ":" k = true /\
  String.eqb k ":" = false /\ String.eqb k "," = false.

(** A field that the search for [k] passes over or stops at correctly. *)
Definition plain_for (k : string) (kv : string * string) : Prop :=
  no_quote (fst kv) = true /\ no_quote (snd kv) = true /\
  String.eqb k (snd kv) = false.

(** ** Flat objects as a client may write them *)

(** White space between the tokens of a JSON text (RFC 8259, section 2):
    space, horizontal tab, line feed, carriage return. *)
Definition white_char (c : ascii) : bool :=
  let n := nat_of_ascii c in
  Nat.eqb n 32 || Nat.eqb n 9 || Nat.eqb n 10 || Nat.eqb n 13.

Fixpoint white (s : string) : bool :=
  match s with
  | EmptyString => true
  | String c s' => white_char c && white s'
  end.

(** The value of a member: a string, given by the text between its
    quotes, or a value written without quotes (a number, [true], [false],
    [null]), given by its text. *)
Inductive Value : Type :=
| Str (text : string)
| Bare (text : string).

(** A member, with the white space around its tokens. *)
Record Member : Type := {
  m_key : string;
  m_value : Value;
  ws_key : string;        (* before the key *)
  ws_colon : string;      (* between the key and the colon *)
  ws_value : string;      (* between the colon and the value *)
  ws_end : string         (* after the value *)
}.

Definition value_text (v : Value) : string :=
  match v with
  | Str text => quoted text
  | Bare text => text
  end.

Definition member_text (m : Member) : string :=
  ws_key m ++ quoted (m_key m) ++ ws_colon m ++ ":" ++ ws_value m
    ++ value_text (m_value m) ++ ws_end m.

Fixpoint members_text (ms : list Member) : string :=
  match ms with
  | [] => EmptyString
  | m :: rest =>
      member_text m ++
      match rest with
      | [] => EmptyString
      | _ :: _ => "," ++ members_text rest
      end
  end.

(** The text of the object; [lead] is the white space after the brace. *)
Definition json_object_text (lead : string) (ms : list Member) : string :=
  "{" ++ lead ++ members_text ms ++ "}".

(** The members with a string value, as fields. *)
Fixpoint string_fields (ms : list Member) : list (string * string) :=
  match ms with
  | [] => []
  | m :: rest =>
      match m_value m with
      | Str v => (m_key m, v) :: string_fields rest
      | Bare _ => string_fields rest
      end
  end.

Definition well_spaced (m : Member) : Prop :=
  white (ws_key m) = true /\ white (ws_colon m) = true /\
  white (ws_value m) = true /\ white (ws_end m) = true.

(** White space where JSON has it and no double quote in the key or in
    the value; a string value is not spelled like one of the six names,
    and a member named by one of the six has a string value. *)
Definition plain_member (m : Member) : Prop :=
  well_spaced m /\ no_quote (m_key m) = true /\
  match m_value m with
  | Str v => no_quote v = true /\ ~ In v key_names
  | Bare text => no_quote text = true /\ ~ In (m_key m) key_names
  end.

(** The same for the search of one name [k]. *)
Definition plain_member_for (k : string) (m : Member) : Prop :=
  well_spaced m /\ no_quote (m_key m) = true /\
  match m_value m with
  | Str v => no_quote v = true /\ String.eqb k v = false
  | Bare text => no_quote text = true /\ String.eqb k (m_key m) = false
  end.

(** A name without a double quote, a colon or a comma. *)
Definition name_like (k : string) : Prop :=
  no_quote k = true /\ no_char ":" k = true /\ no_char "," k = true.

(** What follows the members [rest] in a text closed by [t]. *)
Definition members_tail (rest : list Member) (t : string) : string :=
  match rest with
  | [] => t
  | _ :: _ => String "," (members_text rest ++ t)
  end.

(** What follows the key of [m]. *)
Definition after_key (m : Member) (rest : list Member) (t : string) : string :=
  ws_colon m ++ ":" ++ ws_value m ++ value_text (m_value m) ++ ws_end m
    ++ members_tail rest t.

(** A field of a compact object as a member. *)
Definition compact (kv : string * string) : Member :=
  {| m_key := fst kv; m_value := Str (snd kv);
     ws_key := ""; ws_colon := ""; ws_value := ""; ws_end := "" |}.

(** Payloads used as examples. *)
Definition legacy_names_request : list (string * string) :=
  [("command", "start_conversion"); ("jobId", "J1");
   ("pln_path", "C:/in.pln"); ("output_path", "C:/out.ifc")].

(** A start request written with spaces and a line break, with a number
    among its values. *)
Definition spaced_request : list Member :=
  [{| m_key := "command"; m_value := Str "start_conversion";
      ws_key := ""; ws_colon := ""; ws_value := " "; ws_end := "" |};
   {| m_key := "jobId"; m_value := Str "J1";
      ws_key := " "; ws_colon := " "; ws_value := " "; ws_end := "" |};
   {| m_key := "attempt"; m_value := Bare "2";
      ws_key := " "; ws_colon := ""; ws_value := " "; ws_end := " " |};
   {| m_key := "pln_path"; m_value := Str "C:/in.pln";
      ws_key := String (ascii_of_nat 10) "  "; ws_colon := ""; ws_value := " ";
      ws_end := "" |};
   {| m_key := "output_path"; m_value := Str "C:/out.ifc";
      ws_key := String (ascii_of_nat 10) "  "; ws_colon := ""; ws_value := " ";
      ws_end := String (ascii_of_nat 10) "" |}].

Definition key_named_job_request : list (string * string) :=
  [("command", "start_conversion"); ("jobId", "plnPath");
   ("ifcPath", "C:/in.ifc"); ("outputPath", "C:/out.pln")].

(** A host whose port is known but that refuses the connection. *)
Definition refusing_host : Plugin.NetEnv :=
  {| Plugin.httpPort := (NoError, 19723%Z);
     Plugin.httpConnect := Plugin.HttpFailed "connect: Connection refused";
     Plugin.httpExchange := Plugin.HttpOk |}.

(** A host that gives its port, accepts the connection and answers. *)
Definition answering_host : Plugin.NetEnv :=
  {| Plugin.httpPort := (NoError, 19723%Z);
     Plugin.httpConnect := Plugin.HttpOk;
     Plugin.httpExchange := Plugin.HttpOk |}.

Definition is_post (e : Plugin.Effect) : bool :=
  match e with
  | Plugin.HttpPost _ _ => true
  | Plugin.Broadcast _ => false
  end.

(** Every character of the string is below 128. *)
Fixpoint seven_bit (s : string) : bool :=
  match s with
  | EmptyString => true
  | String c s' => Nat.ltb (nat_of_ascii c) 128 && seven_bit s'
  end.

(** The UTF-8 text of the word Caf-e-acute: 43 61 66 C3 A9. *)
Definition cafe : string :=
  String (ascii_of_nat 67) (String (ascii_of_nat 97) (String (ascii_of_nat 102)
    (String (ascii_of_nat 195) (String (ascii_of_nat 169) EmptyString)))).

(* ================================================================== *)
(** * Reading the log of a conversion *)

(** The call returned [NoError]. *)
Definition returned_ok (o : Outcome GSErrCode) : bool :=
  match o with
  | Returns err => (err =? NoError)%Z
  | _ => false
  end.

Definition returned {A : Type} (o : Outcome A) : bool :=
  match o with
  | Returns _ => true
  | _ => false
  end.

(** The host answers that let a PLN to IFC conversion go through. *)
Definition pln_host_ok (env : HostEnv) : bool :=
  returned_ok (fileStatus env) && returned_ok (openProject env)
  && match translators env with
     | Returns (err, count) => (err =? NoError)%Z && negb (Nat.eqb count 0)
     | _ => false
     end
  && returned (prepareSave env) && returned_ok (saveProject env).

(** The same for IFC to PLN, which asks for no translator. *)
Definition ifc_host_ok (env : HostEnv) : bool :=
  returned_ok (fileStatus env) && returned_ok (openProject env)
  && returned (prepareSave env) && returned_ok (saveProject env).

(** The percentages passed to the progress callback, in order. *)
Definition percents (log : list Obs) : list Z :=
  flat_map (fun o => match o with Progress p _ => [p] | _ => [] end) log.

(** What a request does when served alone from the initial state. *)
Definition alone (r : Request) : bool * HandlerState * list Obs :=
  run (serve r) initial_state.

(** The network thread handling commands one after the other. *)
Fixpoint network_thread (server : bool) (net : Plugin.NetEnv)
  (commands : list (string * string * string)) : Prog (list (list Plugin.Effect)) :=
  match commands with
  | [] => Ret []
  | (command, jobId, payload) :: rest =>
      bind (Plugin.HandleWebSocketCommand server net command jobId payload)
           (fun e => bind (network_thread server net rest) (fun es => Ret (e :: es)))
  end.

(** The event that ends the broadcasts of an add-on command. *)
Definition closing_event (success : bool) (jobId outputPath : string)
  : ArchicadWebSocketServer.Event :=
  if success then ArchicadWebSocketServer.CompletedEvent jobId outputPath
  else ArchicadWebSocketServer.ErrorEvent jobId "Conversion failed".

Definition progress_of (jobId : string) (e : ArchicadWebSocketServer.Event) : Prop :=
  ArchicadWebSocketServer.event_type e = "progress" /\
  ArchicadWebSocketServer.event_jobId e = jobId.

(* ================================================================== *)
(** * Classes of characters, to state what the escaping functions do *)

Definition control_char (c : ascii) : bool := Nat.ltb (nat_of_ascii c) 32.

(** The string holds no character below [0x20]. *)
Fixpoint no_control (s : string) : bool :=
  match s with
  | EmptyString => true
  | String c s' => negb (control_char c) && no_control s'
  end.

(** A character below 128 that a JSON string may hold as it is. *)
Definition plain_char (c : ascii) : bool :=
  negb (control_char c) && negb (Nat.eqb (nat_of_ascii c) 34)
  && negb (Nat.eqb (nat_of_ascii c) 92) && Nat.ltb (nat_of_ascii c) 128.

Fixpoint plain_text (s : string) : bool :=
  match s with
  | EmptyString => true
  | String c s' => plain_char c && plain_text s'
  end.

(** What holds of a session whatever happens to it: the write in flight is
    the one of the front of the queue, or there is none and the session is
    closed; the frames on the wire followed by the queue are the messages
    accepted, a beginning of [sent] that is all of it while the session is
    open. *)
Definition session_invariant (sent : list string) (x : WebSocketSession.Session) : Prop :=
  (WebSocketSession.inFlight x = firstn 1 (WebSocketSession.m_writeQueue x) \/
   (WebSocketSession.inFlight x = [] /\ WebSocketSession.m_open x = false)) /\
  (exists dropped,
      (WebSocketSession.wire x ++ WebSocketSession.m_writeQueue x) ++ dropped = sent /\
      (WebSocketSession.m_open x = true -> dropped = [])) /\
  WebSocketSession.reads x <= 1 /\
  (WebSocketSession.reads x = 0 -> WebSocketSession.m_open x = false).

(* ================================================================== *)
(** * ProgressWindow.cpp *)

(** The window is a stub that writes to the console; the lines written
    are what it shows. *)
Module ProgressWindow.

Record Window : Type := {
  s_dialogId : Z;
  s_isShown : bool
}.

Inductive Line : Type :=
| AlreadyShown
| Title (title initialMessage : string)
| ProgressLine (progress : Z) (message : string)
| JobIdLine (jobId : string)
| Closing.

Definition Show (title initialMessage : string) (w : Window) : Window * list Line :=
  if s_isShown w then (w, [AlreadyShown])
  else ({| s_dialogId := s_dialogId w; s_isShown := true |}, [Title title initialMessage]).

Definition Close (w : Window) : Window * list Line :=
  if negb (s_isShown w) then (w, [])
  else ({| s_dialogId := 0%Z; s_isShown := false |}, [Closing]).

Definition UpdateProgress (progress : Z) (message : string) (w : Window)
  : Window * list Line :=
  if negb (s_isShown w) then (w, [])
  else
    let progress := if (progress <? 0)%Z then 0%Z else progress in
    let progress := if (progress >? 100)%Z then 100%Z else progress in
    if (progress >=? 100)%Z then
      let '(w', l) := Close w in (w', ProgressLine progress message :: l)
    else (w, [ProgressLine progress message]).

Definition SetJobId (jobId : string) (w : Window) : Window * list Line :=
  if negb (s_isShown w) then (w, []) else (w, [JobIdLine jobId]).

Definition IsShown (w : Window) : bool := s_isShown w.

(** The calls of the progress callback of an add-on command, in the order
    of the observations of the conversion. *)
Fixpoint updates (log : list Obs) (w : Window) : Window * list Line :=
  match log with
  | [] => (w, [])
  | Progress progress message :: rest =>
      let '(w1, l1) := UpdateProgress progress message w in
      let '(w2, l2) := updates rest w1 in
      (w2, l1 ++ l2)
  | _ :: rest => updates rest w
  end.

(** What an add-on command does with the window (IFC_To_Archicad.cpp,
    lines 79-80, 89 and 100): show, set the id, update at each callback,
    close. *)
Definition command_window (title jobId : string) (log : list Obs) (w : Window)
  : Window * list Line :=
  let '(w1, l1) := Show title "Starting conversion..." w in
  let '(w2, l2) := SetJobId jobId w1 in
  let '(w3, l3) := updates log w2 in
  let '(w4, l4) := Close w3 in
  (w4, l1 ++ l2 ++ l3 ++ l4).

Definition in_range (l : Line) : Prop :=
  match l with
  | ProgressLine p _ => (0 <= p <= 100)%Z
  | _ => True
  end.

End ProgressWindow.
(* ================================================================== *)
(** * Properties of the job guard *)

Section ProgLemmas.

Context {A B : Type}.

Lemma run_bind (p : Prog A) (f : A -> Prog B) (s : HandlerState) :
  run (bind p f) s =
  let '(a, s1, l1) := run p s in
  let '(b, s2, l2) := run (f a) s1 in
  (b, s2, l1 ++ l2).
Proof.
  revert s; induction p as [a|k IH|k IH|k IH|b k IH|j k IH|b k IH|o k IH];
    intros s; simpl; auto.
  - destruct (run (f a) s) as [[b s2] l2]; reflexivity.
  - rewrite IH. destruct (run k s) as [[a s1] l1].
    destruct (run (f a) s1) as [[b s2] l2]. reflexivity.
Qed.

Lemma run_trace_bind (p : Prog A) (f : A -> Prog B) (s : HandlerState) :
  run_trace (bind p f) s =
  run_trace p s ++ run_trace (f (result_of (run p s))) (state_of (run p s)).
Proof.
  revert s; induction p as [a|k IH|k IH|k IH|b k IH|j k IH|b k IH|o k IH];
    intros s; simpl; auto.
  rewrite IH. destruct (run k s) as [[a s1] l1]. reflexivity.
Qed.

Lemma no_cancel_load_bind (p : Prog A) (f : A -> Prog B) :
  no_cancel_load p -> (forall a, no_cancel_load (f a)) -> no_cancel_load (bind p f).
Proof.
  induction p; simpl; intros Hp Hf; auto; try contradiction.
Qed.

Lemma only_cancel_stores_bind (p : Prog A) (f : A -> Prog B) :
  only_cancel_stores p -> (forall a, only_cancel_stores (f a)) ->
  only_cancel_stores (bind p f).
Proof.
  induction p; simpl; intros Hp Hf; auto; try contradiction.
Qed.

End ProgLemmas.

Lemma run_trace_log {R : Type} (p : Prog R) (s : HandlerState) :
  map snd (run_trace p s) = log_of (run p s).
Proof.
  revert s; induction p as [a|k IH|k IH|k IH|b k IH|j k IH|b k IH|o k IH];
    intros s; simpl; auto.
  rewrite IH. destruct (run k s) as [[r s'] l]. reflexivity.
Qed.

Lemma run_step {R : Type} (p p' : Prog R) (s s' : HandlerState) (o : list Obs) :
  step p s = Some (p', s', o) ->
  run p s = let '(r, sf, l) := run p' s' in (r, sf, o ++ l).
Proof.
  destruct p; simpl; intros H; inversion H; subst; clear H;
    try (destruct (run _ _) as [[r sf] l]; reflexivity).
Qed.

Lemma agree_refl (s : HandlerState) : agree s s.
Proof. split; reflexivity. Qed.

Lemma agree_trans (s1 s2 s3 : HandlerState) : agree s1 s2 -> agree s2 s3 -> agree s1 s3.
Proof. intros [H1 H2] [H3 H4]; split; congruence. Qed.

Lemma agree_sym (s1 s2 : HandlerState) : agree s1 s2 -> agree s2 s1.
Proof. intros [H1 H2]; split; congruence. Qed.

(** A program that never reads the cancel flag takes the same steps from
    two states that differ only in that flag. *)
Lemma step_agree {R : Type} (p p' : Prog R) (s1 s2 s1' : HandlerState) (o : list Obs) :
  no_cancel_load p -> agree s1 s2 -> step p s1 = Some (p', s1', o) ->
  exists s2', step p s2 = Some (p', s2', o) /\ agree s1' s2' /\ no_cancel_load p'.
Proof.
  intros Hp [Hi Hj] Hs.
  destruct p; simpl in *; try contradiction; inversion Hs; subst; clear Hs.
  - rewrite Hi. eexists; split; [reflexivity|]. split; [split; assumption|apply Hp].
  - rewrite Hj. eexists; split; [reflexivity|]. split; [split; assumption|apply Hp].
  - eexists; split; [reflexivity|]. split; [split; simpl; auto|assumption].
  - eexists; split; [reflexivity|]. split; [split; simpl; auto|assumption].
  - eexists; split; [reflexivity|]. split; [split; simpl; auto|assumption].
  - eexists; split; [reflexivity|]. split; [split; simpl; auto|assumption].
Qed.

Lemma run_agree {R : Type} (p : Prog R) (s1 s2 : HandlerState) :
  no_cancel_load p -> agree s1 s2 ->
  result_of (run p s1) = result_of (run p s2) /\
  log_of (run p s1) = log_of (run p s2) /\
  agree (state_of (run p s1)) (state_of (run p s2)).
Proof.
  revert s1 s2; induction p as [a|k IH|k IH|k IH|b k IH|j k IH|b k IH|o k IH];
    intros s1 s2 Hp Hag; simpl in *.
  - repeat split; apply Hag.
  - destruct Hag as [Hi Hj]. rewrite Hi. apply IH; [apply Hp|split; assumption].
  - destruct Hag as [Hi Hj]. rewrite Hj. apply IH; [apply Hp|split; assumption].
  - contradiction.
  - apply IH; [assumption|]. destruct Hag; split; simpl; auto.
  - apply IH; [assumption|]. destruct Hag; split; simpl; auto.
  - apply IH; [assumption|]. destruct Hag; split; simpl; auto.
  - destruct (IH s1 s2 Hp Hag) as (Hr & Hl & Hs).
    destruct (run k s1) as [[r1 t1] l1], (run k s2) as [[r2 t2] l2].
    unfold result_of, log_of, state_of in *; simpl in *.
    repeat split; try apply Hs; congruence.
Qed.

Lemma step_only_cancel {R : Type} (q q' : Prog R) (s s' : HandlerState) (o : list Obs) :
  only_cancel_stores q -> step q s = Some (q', s', o) ->
  agree s s' /\ only_cancel_stores q'.
Proof.
  intros Hq Hs.
  destruct q; simpl in *; try contradiction; inversion Hs; subst; clear Hs;
    (split; [split; reflexivity|auto]).
Qed.

Lemma run_only_cancel {R : Type} (q : Prog R) (s : HandlerState) :
  only_cancel_stores q -> agree s (state_of (run q s)).
Proof.
  revert s; induction q as [a|k IH|k IH|k IH|b k IH|j k IH|b k IH|o k IH];
    intros s Hq; simpl in *; try contradiction.
  - apply agree_refl.
  - apply IH, Hq.
  - apply IH, Hq.
  - apply IH, Hq.
  - eapply agree_trans; [|apply IH, Hq]. split; reflexivity.
  - specialize (IH s Hq). destruct (run k s) as [[r t] l]. exact IH.
Qed.

(** The first thread of an interleaving is not disturbed by a second
    thread that only stores the cancel flag, as long as the first never
    loads that flag. *)
Lemma interleave_undisturbed {A B : Type} (sched : list bool) :
  forall (p : Prog A) (q : Prog B) (s s0 : HandlerState) (lp lq : list Obs),
    no_cancel_load p -> only_cancel_stores q -> agree s s0 ->
    res1 (interleave sched p q s lp lq) = result_of (run p s0) /\
    log1 (interleave sched p q s lp lq) = lp ++ log_of (run p s0) /\
    agree (final (interleave sched p q s lp lq)) (state_of (run p s0)).
Proof.
  induction sched as [|[|] sched IH]; intros p q s s0 lp lq Hp Hq Hag; simpl.
  - destruct (run_agree p s s0 Hp Hag) as (Hr & Hl & Hs).
    pose proof (run_only_cancel q (state_of (run p s)) Hq) as Hq'.
    destruct (run p s) as [[a s1] l1].
    unfold result_of, log_of, state_of in *; simpl in *.
    destruct (run q s1) as [[b s2] l2]; simpl in *.
    repeat split; try congruence.
    + eapply agree_trans; [apply agree_sym, Hq'|exact Hs].
    + destruct Hq' as [_ Hj]. destruct Hs as [_ Hs]. congruence.
  - destruct (step p s) as [[[p' s'] o]|] eqn:Hst; [|apply IH; assumption].
    destruct (step_agree p p' s s0 s' o Hp Hag Hst) as (s0' & Hst0 & Hag' & Hp').
    destruct (IH p' q s' s0' (lp ++ o) lq Hp' Hq Hag') as (Hr & Hl & Hs).
    rewrite (run_step p p' s0 s0' o Hst0).
    destruct (run p' s0') as [[r sf] l].
    unfold result_of, log_of, state_of in *; simpl in *.
    rewrite Hr, Hl, <- app_assoc. repeat split; apply Hs.
  - destruct (step q s) as [[[q' s'] o]|] eqn:Hst; [|apply IH; assumption].
    destruct (step_only_cancel q q' s s' o Hq Hst) as [Hag' Hq'].
    apply IH; try assumption.
    eapply agree_trans; [apply agree_sym, Hag'|exact Hag].
Qed.

Lemma emits_only_state {R : Type} (p : Prog R) (s : HandlerState) :
  emits_only p -> state_of (run p s) = s.
Proof.
  induction p as [a|k IH|k IH|k IH|b k IH|j k IH|b k IH|o k IH];
    simpl; intros Hp; try contradiction; auto.
  specialize (IH Hp). destruct (run k s) as [[r t] l]. exact IH.
Qed.

Lemma emits_only_trace {R : Type} (p : Prog R) (s : HandlerState) :
  emits_only p -> run_trace p s = map (fun o => (s, o)) (log_of (run p s)).
Proof.
  induction p as [a|k IH|k IH|k IH|b k IH|j k IH|b k IH|o k IH];
    simpl; intros Hp; try contradiction; auto.
  rewrite (IH Hp). destruct (run k s) as [[r t] l]. reflexivity.
Qed.

Lemma emits_only_any_state {R : Type} (p : Prog R) (s1 s2 : HandlerState) :
  emits_only p ->
  result_of (run p s1) = result_of (run p s2) /\ log_of (run p s1) = log_of (run p s2).
Proof.
  induction p as [a|k IH|k IH|k IH|b k IH|j k IH|b k IH|o k IH];
    simpl; intros Hp; try contradiction; auto.
  destruct (IH Hp) as [Hr Hl].
  destruct (run k s1) as [[r1 t1] l1], (run k s2) as [[r2 t2] l2].
  unfold result_of, log_of in *; simpl in *. split; congruence.
Qed.

Lemma emits_only_no_cancel_load {R : Type} (p : Prog R) :
  emits_only p -> no_cancel_load p.
Proof.
  induction p as [a|k IH|k IH|k IH|b k IH|j k IH|b k IH|o k IH];
    simpl; intros Hp; try contradiction; auto.
Qed.

Ltac split_cases :=
  repeat (simpl;
          lazymatch goal with
          | |- context [match ?x with _ => _ end] => destruct x
          end);
  simpl; auto.

Lemma pln_try_emits_only (env : HostEnv) (cb : bool) (plnPath outputPath : string) :
  emits_only (ConversionHandler.pln_try env cb plnPath outputPath).
Proof.
  unfold ConversionHandler.pln_try, ConversionHandler.outer_catch,
    ConversionHandler.close_before, ConversionHandler.onProgress, emit.
  split_cases.
Qed.

Lemma ifc_try_emits_only (env : HostEnv) (cb : bool) (ifcPath outputPath : string) :
  emits_only (ConversionHandler.ifc_try env cb ifcPath outputPath).
Proof.
  unfold ConversionHandler.ifc_try, ConversionHandler.outer_catch,
    ConversionHandler.close_before, ConversionHandler.onProgress, emit.
  split_cases.
Qed.

(** What a conversion does once past the check of the flag, for any body
    that touches no flag: the shape shared by [ConvertPlnToIfc] and
    [ConvertIfcToPln]. *)
Section AfterTheCheck.

Variable env : HostEnv.
Variable jobId : string.
Variable body : Prog bool.
Hypothesis body_emits_only : emits_only body.

Let after_check : Prog bool :=
  bind (store_inProgress true) (fun _ =>
  bind (store_jobId jobId) (fun _ =>
  bind (store_cancel false) (fun _ =>
  bind body (fun success =>
  bind (ConversionHandler.cleanup_after_conversion env) (fun _ =>
  Ret success))))).

Lemma after_check_run (s : HandlerState) :
  run after_check s =
  (result_of (run body s), initial_state, log_of (run body s) ++ cleanup_calls env).
Proof.
  unfold after_check. simpl.
  rewrite run_bind.
  pose proof (emits_only_state body (set_cancel false (set_jobId jobId (set_inProgress true s)))
                body_emits_only) as Hs.
  destruct (emits_only_any_state body
              (set_cancel false (set_jobId jobId (set_inProgress true s))) s
              body_emits_only) as [Hr Hl].
  destruct (run body (set_cancel false (set_jobId jobId (set_inProgress true s))))
    as [[r t] l].
  unfold result_of, log_of, state_of in *; simpl in *. subst.
  reflexivity.
Qed.

Lemma after_check_trace (s : HandlerState) :
  run_trace after_check s =
  map (fun o => (running_state jobId, o)) (log_of (run body s) ++ cleanup_calls env).
Proof.
  unfold after_check. simpl.
  rewrite run_trace_bind.
  rewrite (emits_only_trace body _ body_emits_only).
  rewrite (emits_only_state body _ body_emits_only).
  destruct (emits_only_any_state body
              (set_cancel false (set_jobId jobId (set_inProgress true s))) s
              body_emits_only) as [_ Hl].
  rewrite Hl, map_app. reflexivity.
Qed.

End AfterTheCheck.

Lemma ConvertPlnToIfc_from_idle (env : HostEnv) (jobId plnPath outputPath : string)
  (cb : bool) (s : HandlerState) :
  s_conversionInProgress s = false ->
  run (ConversionHandler.ConvertPlnToIfc env jobId plnPath outputPath cb) s =
  (result_of (run (ConversionHandler.pln_try env cb plnPath outputPath) s),
   initial_state,
   log_of (run (ConversionHandler.pln_try env cb plnPath outputPath) s)
     ++ cleanup_calls env).
Proof.
  intros H. unfold ConversionHandler.ConvertPlnToIfc. simpl. rewrite H.
  apply (after_check_run env jobId _ (pln_try_emits_only env cb plnPath outputPath)).
Qed.

Lemma ConvertIfcToPln_from_idle (env : HostEnv) (jobId ifcPath outputPath : string)
  (cb : bool) (s : HandlerState) :
  s_conversionInProgress s = false ->
  run (ConversionHandler.ConvertIfcToPln env jobId ifcPath outputPath cb) s =
  (result_of (run (ConversionHandler.ifc_try env cb ifcPath outputPath) s),
   initial_state,
   log_of (run (ConversionHandler.ifc_try env cb ifcPath outputPath) s)
     ++ cleanup_calls env).
Proof.
  intros H. unfold ConversionHandler.ConvertIfcToPln. simpl. rewrite H.
  apply (after_check_run env jobId _ (ifc_try_emits_only env cb ifcPath outputPath)).
Qed.

Lemma ConvertPlnToIfc_trace (env : HostEnv) (jobId plnPath outputPath : string)
  (cb : bool) (s : HandlerState) :
  s_conversionInProgress s = false ->
  run_trace (ConversionHandler.ConvertPlnToIfc env jobId plnPath outputPath cb) s =
  map (fun o => (running_state jobId, o))
      (log_of (run (ConversionHandler.pln_try env cb plnPath outputPath) s)
         ++ cleanup_calls env).
Proof.
  intros H. unfold ConversionHandler.ConvertPlnToIfc. simpl. rewrite H.
  apply (after_check_trace env jobId _ (pln_try_emits_only env cb plnPath outputPath)).
Qed.

Lemma ConvertIfcToPln_trace (env : HostEnv) (jobId ifcPath outputPath : string)
  (cb : bool) (s : HandlerState) :
  s_conversionInProgress s = false ->
  run_trace (ConversionHandler.ConvertIfcToPln env jobId ifcPath outputPath cb) s =
  map (fun o => (running_state jobId, o))
      (log_of (run (ConversionHandler.ifc_try env cb ifcPath outputPath) s)
         ++ cleanup_calls env).
Proof.
  intros H. unfold ConversionHandler.ConvertIfcToPln. simpl. rewrite H.
  apply (after_check_trace env jobId _ (ifc_try_emits_only env cb ifcPath outputPath)).
Qed.

Lemma ConvertPlnToIfc_busy (env : HostEnv) (jobId plnPath outputPath : string)
  (cb : bool) (s : HandlerState) :
  s_conversionInProgress s = true ->
  run (ConversionHandler.ConvertPlnToIfc env jobId plnPath outputPath cb) s =
  (false, s, busy_report cb).
Proof.
  intros H. unfold ConversionHandler.ConvertPlnToIfc. simpl. rewrite H.
  destruct cb; reflexivity.
Qed.

Lemma ConvertIfcToPln_busy (env : HostEnv) (jobId ifcPath outputPath : string)
  (cb : bool) (s : HandlerState) :
  s_conversionInProgress s = true ->
  run (ConversionHandler.ConvertIfcToPln env jobId ifcPath outputPath cb) s =
  (false, s, busy_report cb).
Proof.
  intros H. unfold ConversionHandler.ConvertIfcToPln. simpl. rewrite H.
  destruct cb; reflexivity.
Qed.

Lemma serve_busy (r : Request) (s : HandlerState) :
  s_conversionInProgress s = true ->
  result_of (run (serve r) s) = false /\ state_of (run (serve r) s) = s.
Proof.
  intros H. destruct r; unfold serve.
  - rewrite ConvertPlnToIfc_busy by assumption. split; reflexivity.
  - rewrite ConvertIfcToPln_busy by assumption. split; reflexivity.
Qed.

Lemma serve_all_busy (rs : list Request) (s : HandlerState) :
  s_conversionInProgress s = true ->
  result_of (run (serve_all rs) s) = repeat false (List.length rs) /\
  state_of (run (serve_all rs) s) = s.
Proof.
  intros H. induction rs as [|r rs IH]; simpl.
  - split; reflexivity.
  - rewrite run_bind.
    destruct (serve_busy r s H) as [Hr Hs].
    destruct (run (serve r) s) as [[b s1] l1].
    unfold result_of, state_of in *; simpl in *. subst.
    rewrite run_bind.
    destruct IH as [IHr IHs].
    destruct (run (serve_all rs) s) as [[bs s2] l2].
    unfold result_of, state_of in *; simpl in *. subst.
    split; reflexivity.
Qed.

Lemma serve_trace (r : Request) (s : HandlerState) :
  s_conversionInProgress s = false ->
  exists l, run_trace (serve r) s =
            map (fun o => (running_state (request_jobId r), o))
                (l ++ cleanup_calls (request_env r)).
Proof.
  intros H. destruct r; unfold serve, request_jobId, request_env.
  - eexists. apply ConvertPlnToIfc_trace; assumption.
  - eexists. apply ConvertIfcToPln_trace; assumption.
Qed.

Lemma serve_trace_running (r : Request) (s : HandlerState) :
  s_conversionInProgress s = false ->
  Forall (fun x => fst x = running_state (request_jobId r)) (run_trace (serve r) s).
Proof.
  intros H. destruct (serve_trace r s H) as [l Hl]. rewrite Hl.
  apply Forall_forall. intros x Hx. apply in_map_iff in Hx.
  destruct Hx as (o & Ho & _). subst x. reflexivity.
Qed.

(** ** Concurrent requests while the flag is set *)

Lemma writes_nothing_bind {A B : Type} (p : Prog A) (f : A -> Prog B) :
  writes_nothing_while_busy p -> (forall a, writes_nothing_while_busy (f a)) ->
  writes_nothing_while_busy (bind p f).
Proof.
  induction p; simpl; intros Hp Hf; auto; try contradiction.
Qed.

Lemma writes_nothing_step {R : Type} (p p' : Prog R) (s s' : HandlerState)
  (o : list Obs) :
  s_conversionInProgress s = true -> writes_nothing_while_busy p ->
  step p s = Some (p', s', o) ->
  s' = s /\ writes_nothing_while_busy p'.
Proof.
  intros Hs Hp Hst.
  destruct p; simpl in *; try contradiction; inversion Hst; subst; clear Hst;
    (split; [reflexivity|]); auto.
  rewrite Hs. exact Hp.
Qed.

Lemma writes_nothing_run {R : Type} (p : Prog R) (s : HandlerState) :
  s_conversionInProgress s = true -> writes_nothing_while_busy p ->
  state_of (run p s) = s.
Proof.
  intros Hs. induction p as [a|k IH|k IH|k IH|b k IH|j k IH|b k IH|o k IH];
    simpl; intros Hp; try contradiction; auto.
  - rewrite Hs. apply IH. exact Hp.
  - specialize (IH Hp). destruct (run k s) as [[r t] l]. exact IH.
Qed.

(** Two threads that write no flag while the flag is set do not see each
    other: under every schedule each gives the result and makes the
    observations of its run alone, and the state is left as it was. *)
Lemma interleave_while_busy {A B : Type} (sched : list bool) :
  forall (p : Prog A) (q : Prog B) (s : HandlerState) (lp lq : list Obs),
    s_conversionInProgress s = true ->
    writes_nothing_while_busy p -> writes_nothing_while_busy q ->
    res1 (interleave sched p q s lp lq) = result_of (run p s) /\
    log1 (interleave sched p q s lp lq) = lp ++ log_of (run p s) /\
    res2 (interleave sched p q s lp lq) = result_of (run q s) /\
    log2 (interleave sched p q s lp lq) = lq ++ log_of (run q s) /\
    final (interleave sched p q s lp lq) = s.
Proof.
  induction sched as [|[|] sched IH]; intros p q s lp lq Hs Hp Hq; simpl.
  - pose proof (writes_nothing_run p s Hs Hp) as Hps.
    pose proof (writes_nothing_run q s Hs Hq) as Hqs.
    destruct (run p s) as [[a s1] l1].
    unfold state_of in Hps; simpl in Hps. subst s1.
    destruct (run q s) as [[b s2] l2].
    unfold state_of in Hqs; simpl in Hqs. subst s2.
    repeat split.
  - destruct (step p s) as [[[p' s'] o]|] eqn:Hst; [|apply IH; assumption].
    destruct (writes_nothing_step p p' s s' o Hs Hp Hst) as [-> Hp'].
    destruct (IH p' q s (lp ++ o) lq Hs Hp' Hq) as (H1 & H2 & H3 & H4 & H5).
    rewrite (run_step p p' s s o Hst).
    destruct (run p' s) as [[r sf] l].
    unfold result_of, log_of in *; simpl in *.
    rewrite H1, H2, H3, H4, H5, <- app_assoc. repeat split.
  - destruct (step q s) as [[[q' s'] o]|] eqn:Hst; [|apply IH; assumption].
    destruct (writes_nothing_step q q' s s' o Hs Hq Hst) as [-> Hq'].
    destruct (IH p q' s lp (lq ++ o) Hs Hp Hq') as (H1 & H2 & H3 & H4 & H5).
    rewrite (run_step q q' s s o Hst).
    destruct (run q' s) as [[r sf] l].
    unfold result_of, log_of in *; simpl in *.
    rewrite H1, H2, H3, H4, H5, <- app_assoc. repeat split.
Qed.

Lemma serve_writes_nothing (r : Request) : writes_nothing_while_busy (serve r).
Proof.
  destruct r as [env j i o cb|env j i o cb]; destruct cb; simpl; exact I.
Qed.

Lemma serve_all_writes_nothing (rs : list Request) :
  writes_nothing_while_busy (serve_all rs).
Proof.
  induction rs as [|r rs IH]; simpl; [exact I|].
  apply writes_nothing_bind; [apply serve_writes_nothing|].
  intros b. apply writes_nothing_bind; [exact IH|]. intros bs. exact I.
Qed.




(** C2.  Cleanup on every exit.  An admitted conversion, in either
    direction and whatever the host answers (success, any error code, any
    exception), ends its observations with the close of the project
    followed by the opening of the blank template, and returns with
    [s_conversionInProgress] false and [s_currentJobId] empty. *)
Theorem cleanup_on_every_exit :
  forall env jobId inputPath outputPath cb s,
    s_conversionInProgress s = false ->
    (Idle (state_of (run (ConversionHandler.ConvertPlnToIfc env jobId inputPath outputPath cb) s)) /\
     exists before,
       log_of (run (ConversionHandler.ConvertPlnToIfc env jobId inputPath outputPath cb) s)
       = before ++ cleanup_calls env) /\
    (Idle (state_of (run (ConversionHandler.ConvertIfcToPln env jobId inputPath outputPath cb) s)) /\
     exists before,
       log_of (run (ConversionHandler.ConvertIfcToPln env jobId inputPath outputPath cb) s)
       = before ++ cleanup_calls env).
Proof.
  intros env jobId inputPath outputPath cb s H. split.
  - rewrite (ConvertPlnToIfc_from_idle env jobId inputPath outputPath cb s H).
    split; [split; reflexivity|]. eexists. reflexivity.
  - rewrite (ConvertIfcToPln_from_idle env jobId inputPath outputPath cb s H).
    split; [split; reflexivity|]. eexists. reflexivity.
Qed.

Lemma cleanup_on_every_exit_witness :
  Idle (state_of (run (ConversionHandler.ConvertPlnToIfc missing_file_host
                         "J1" "a.pln" "a.ifc" true) initial_state)).
Proof.
  apply (cleanup_on_every_exit missing_file_host "J1" "a.pln" "a.ifc" true initial_state).
  reflexivity.
Defined.

Lemma CancelConversion_run (jobId : string) (s : HandlerState) :
  run (ConversionHandler.CancelConversion jobId) s =
  if s_conversionInProgress s && String.eqb (s_currentJobId s) jobId
  then (true, set_cancel true s, [])
  else (false, s, []).
Proof.
  unfold ConversionHandler.CancelConversion. simpl.
  destruct (s_conversionInProgress s); simpl; [|reflexivity].
  destruct (String.eqb (s_currentJobId s) jobId); reflexivity.
Qed.

Lemma IsConversionInProgress_run (jobId : string) (s : HandlerState) :
  run (ConversionHandler.IsConversionInProgress jobId) s =
  (s_conversionInProgress s && String.eqb (s_currentJobId s) jobId, s, []).
Proof.
  unfold ConversionHandler.IsConversionInProgress. simpl.
  destruct (s_conversionInProgress s); reflexivity.
Qed.

(** C5.  [CancelConversion(jobId)] returns [true] exactly when a conversion
    is in progress and [jobId] is the id of that conversion; it then sets
    [s_shouldCancel] and nothing else.  Otherwise it returns [false] and
    changes nothing; in particular after an admitted conversion has
    returned, whatever its outcome, cancelling any id returns [false]. *)
Theorem CancelConversion_semantics :
  (forall jobId s,
      result_of (run (ConversionHandler.CancelConversion jobId) s) = true <->
      Running jobId s) /\
  (forall jobId s,
      result_of (run (ConversionHandler.CancelConversion jobId) s) = true ->
      state_of (run (ConversionHandler.CancelConversion jobId) s) = set_cancel true s) /\
  (forall jobId s,
      result_of (run (ConversionHandler.CancelConversion jobId) s) = false ->
      state_of (run (ConversionHandler.CancelConversion jobId) s) = s) /\
  (forall r jobId s,
      s_conversionInProgress s = false ->
      let after := state_of (run (serve r) s) in
      run (ConversionHandler.CancelConversion jobId) after = (false, after, [])).
Proof.
  split; [|split; [|split]].
  - intros jobId s. rewrite CancelConversion_run. unfold Running.
    destruct (s_conversionInProgress s); simpl.
    + destruct (String.eqb_spec (s_currentJobId s) jobId); simpl; split;
        intros; try tauto; try discriminate.
    + split; [discriminate|]. intros [H _]. discriminate.
  - intros jobId s. rewrite CancelConversion_run.
    destruct (s_conversionInProgress s && String.eqb (s_currentJobId s) jobId);
      simpl; [reflexivity|discriminate].
  - intros jobId s. rewrite CancelConversion_run.
    destruct (s_conversionInProgress s && String.eqb (s_currentJobId s) jobId);
      simpl; [discriminate|reflexivity].
  - intros r jobId s H after. subst after.
    rewrite CancelConversion_run.
    destruct r; unfold serve.
    + rewrite ConvertPlnToIfc_from_idle by assumption. reflexivity.
    + rewrite ConvertIfcToPln_from_idle by assumption. reflexivity.
Qed.

Lemma CancelConversion_semantics_witness :
  state_of (run (ConversionHandler.CancelConversion "J1") (running_state "J1"))
  = set_cancel true (running_state "J1").
Proof.
  apply (proj1 (proj2 CancelConversion_semantics) "J1" (running_state "J1")).
  reflexivity.
Defined.

Lemma serve_no_cancel_load (r : Request) : no_cancel_load (serve r).
Proof.
  destruct r; unfold serve, ConversionHandler.ConvertPlnToIfc,
    ConversionHandler.ConvertIfcToPln; simpl; intros [|].
  - destruct cb; simpl; exact I.
  - apply no_cancel_load_bind.
    + apply emits_only_no_cancel_load, pln_try_emits_only.
    + intros a. simpl. exact I.
  - destruct cb; simpl; exact I.
  - apply no_cancel_load_bind.
    + apply emits_only_no_cancel_load, ifc_try_emits_only.
    + intros a. simpl. exact I.
Qed.

Lemma CancelConversion_only_cancel_stores (jobId : string) :
  only_cancel_stores (ConversionHandler.CancelConversion jobId).
Proof.
  unfold ConversionHandler.CancelConversion. simpl.
  intros [|]; simpl; [|exact I].
  intros current. destruct (String.eqb current jobId); simpl; exact I.
Qed.

Lemma cancel_thread_only_cancel_stores (jobIds : list string) :
  only_cancel_stores (cancel_thread jobIds).
Proof.
  induction jobIds as [|j rest IH]; cbn [cancel_thread]; [exact I|].
  apply only_cancel_stores_bind; [apply CancelConversion_only_cancel_stores|].
  intros r. apply only_cancel_stores_bind; [exact IH|].
  intros rs. exact I.
Qed.

(** C9.  Cancellation does not change what a conversion does.  Neither
    conversion ever reads [s_shouldCancel]; and when the network thread
    calls [CancelConversion], any number of times with any ids and
    interleaved in any way with the steps of a conversion, the conversion
    returns the same result and makes the same progress callbacks and host
    calls as when it runs alone, and the final state differs from the one
    of the undisturbed run at most in [s_shouldCancel]. *)
Theorem cancellation_changes_only_the_flag :
  forall (r : Request) (jobIds : list string) (sched : list bool) (s : HandlerState),
    no_cancel_load (serve r) /\
    res1 (interleave sched (serve r) (cancel_thread jobIds) s [] [])
      = result_of (run (serve r) s) /\
    log1 (interleave sched (serve r) (cancel_thread jobIds) s [] [])
      = log_of (run (serve r) s) /\
    agree (final (interleave sched (serve r) (cancel_thread jobIds) s [] []))
          (state_of (run (serve r) s)).
Proof.
  intros r jobIds sched s. split; [apply serve_no_cancel_load|].
  apply (interleave_undisturbed sched (serve r) (cancel_thread jobIds) s s [] []).
  - apply serve_no_cancel_load.
  - apply cancel_thread_only_cancel_stores.
  - apply agree_refl.
Qed.

(** C10.  The empty job id is accepted and addressable.  A conversion
    started with the empty string as its id while no conversion is in
    progress is admitted: it makes observations, and at each of them the
    guard shows the empty id as Running, [IsConversionInProgress("")]
    returns [true], and [CancelConversion("")] returns [true] and sets
    [s_shouldCancel]. *)
Theorem empty_jobId_is_addressable :
  forall (r : Request) (s : HandlerState),
    request_jobId r = "" ->
    s_conversionInProgress s = false ->
    run_trace (serve r) s <> [] /\
    Forall (fun x =>
              Running "" (fst x) /\
              result_of (run (ConversionHandler.IsConversionInProgress "") (fst x)) = true /\
              run (ConversionHandler.CancelConversion "") (fst x)
                = (true, set_cancel true (fst x), []))
           (run_trace (serve r) s).
Proof.
  intros r s Hj H. split.
  - destruct (serve_trace r s H) as [l Hl]. rewrite Hl, map_app.
    intros Hnil. apply app_eq_nil in Hnil. destruct Hnil as [_ Hnil].
    discriminate Hnil.
  - eapply Forall_impl; [|apply serve_trace_running; exact H].
    intros x Hx. rewrite Hx, Hj.
    rewrite IsConversionInProgress_run, CancelConversion_run.
    repeat split.
Qed.

Lemma empty_jobId_is_addressable_witness :
  run_trace (serve (PlnToIfc healthy_host "" "a.pln" "a.ifc" true)) initial_state <> [].
Proof.
  apply (empty_jobId_is_addressable
           (PlnToIfc healthy_host "" "a.pln" "a.ifc" true) initial_state);
    reflexivity.
Defined.

(* ================================================================== *)
(** * The add-on commands *)

Import ArchicadWebSocketServer.

Lemma progress_lambda_type (server : bool) (jobId : string) (log : list Obs) :
  Forall (fun e => event_type e = "progress")
         (flat_map (Plugin.progress_lambda server jobId) log).
Proof.
  induction log as [|o log IH]; simpl; [constructor|].
  apply Forall_app. split; [|exact IH].
  destruct o; simpl; try constructor.
  destruct server; constructor; [reflexivity|constructor].
Qed.

Lemma count_errors_app (jobId : string) (l1 l2 : list Event) :
  count_errors jobId (l1 ++ l2) = count_errors jobId l1 + count_errors jobId l2.
Proof. unfold count_errors. rewrite filter_app, length_app. reflexivity. Qed.

Lemma count_errors_progress (jobId : string) (l : list Event) :
  Forall (fun e => event_type e = "progress") l -> count_errors jobId l = 0.
Proof.
  unfold count_errors. induction 1 as [|e l He Hl IH]; simpl; [reflexivity|].
  rewrite He. simpl. exact IH.
Qed.

Lemma failed_run_events (jobId outputPath : string) (log : list Obs) :
  let evs := flat_map (Plugin.progress_lambda true jobId) log
               ++ Plugin.final_event true false jobId outputPath in
  count_errors jobId evs = 1 /\
  (forall e, In e evs -> event_type e = "error" -> event_jobId e = jobId).
Proof.
  simpl. split.
  - rewrite count_errors_app, count_errors_progress by apply progress_lambda_type.
    unfold count_errors. simpl. rewrite String.eqb_refl. reflexivity.
  - intros e He Ht. apply in_app_or in He. destruct He as [He|He].
    + pose proof (progress_lambda_type true jobId log) as Hall.
      rewrite Forall_forall in Hall. rewrite (Hall e He) in Ht. discriminate.
    + simpl in He. destruct He as [He|[]]. subst e. reflexivity.
Qed.

(** C3, as the code has it.  When an add-on command fails while the
    server exists, exactly one event of type [error] is broadcast for its
    job id, and no event of type [error] for another id.  If the conversion
    had been admitted the job guard is Idle afterwards; if the start was
    refused because a conversion was in progress, the handler state is the
    one found, so the running job stays Running. *)
Theorem failed_command_reports_one_error :
  forall env jobId inputPath outputPath s,
    (let '(success, s', evs) :=
       Plugin.ConversionCommand_Execute true env jobId inputPath outputPath s in
     success = false ->
     count_errors jobId evs = 1 /\
     (forall e, In e evs -> event_type e = "error" -> event_jobId e = jobId) /\
     (s_conversionInProgress s = false -> Idle s') /\
     (s_conversionInProgress s = true -> s' = s)) /\
    (let '(success, s', evs) :=
       Plugin.ConvertIfcToPlnCommand_Execute true env jobId inputPath outputPath s in
     success = false ->
     count_errors jobId evs = 1 /\
     (forall e, In e evs -> event_type e = "error" -> event_jobId e = jobId) /\
     (s_conversionInProgress s = false -> Idle s') /\
     (s_conversionInProgress s = true -> s' = s)).
Proof.
  intros env jobId inputPath outputPath s. split.
  - unfold Plugin.ConversionCommand_Execute.
    destruct (s_conversionInProgress s) eqn:H.
    + rewrite ConvertPlnToIfc_busy by assumption. intros _.
      destruct (failed_run_events jobId outputPath (busy_report true)) as [Hc He].
      repeat split; try assumption; try discriminate.
    + rewrite ConvertPlnToIfc_from_idle by assumption.
      destruct (result_of (run (ConversionHandler.pln_try env true inputPath outputPath) s));
        [discriminate|]. intros _.
      destruct (failed_run_events jobId outputPath
                  (log_of (run (ConversionHandler.pln_try env true inputPath outputPath) s)
                     ++ cleanup_calls env)) as [Hc He].
      repeat split; try assumption; try discriminate.
  - unfold Plugin.ConvertIfcToPlnCommand_Execute.
    destruct (s_conversionInProgress s) eqn:H.
    + rewrite ConvertIfcToPln_busy by assumption. intros _.
      destruct (failed_run_events jobId outputPath (busy_report true)) as [Hc He].
      repeat split; try assumption; try discriminate.
    + rewrite ConvertIfcToPln_from_idle by assumption.
      destruct (result_of (run (ConversionHandler.ifc_try env true inputPath outputPath) s));
        [discriminate|]. intros _.
      destruct (failed_run_events jobId outputPath
                  (log_of (run (ConversionHandler.ifc_try env true inputPath outputPath) s)
                     ++ cleanup_calls env)) as [Hc He].
      repeat split; try assumption; try discriminate.
Qed.

Lemma failed_command_reports_one_error_witness :
  count_errors "J1"
    (snd (Plugin.ConversionCommand_Execute true missing_file_host "J1" "a.pln" "a.ifc"
            initial_state)) = 1.
Proof.
  apply (proj1 (failed_command_reports_one_error missing_file_host "J1" "a.pln" "a.ifc"
                  initial_state)).
  reflexivity.
Defined.

(** C3, as stated, fails: job J1 is running and a second start for J1
    is refused; one error event for J1 is broadcast, but afterwards the
    guard is not Idle and [IsConversionInProgress("J1")] still returns
    [true]. *)
Lemma refused_start_leaves_job_running :
  ~ (let '(success, s', evs) :=
       Plugin.ConversionCommand_Execute true healthy_host "J1" "a.pln" "a.ifc"
         (running_state "J1") in
     success = false ->
     count_errors "J1" evs = 1 /\
     (Idle s' \/
      result_of (run (ConversionHandler.IsConversionInProgress "J1") s') = false)).
Proof.
  simpl. intros H. destruct (H eq_refl) as [_ [[Hi _]|Hp]]; discriminate.
Qed.

(* ================================================================== *)
(** * The outbound queue of a session *)

Section OutboundQueue.

Import WebSocketSession.

Lemma Send_open (message : string) (x : Session) :
  m_open x = true ->
  m_writeQueue (Send message x) = m_writeQueue x ++ [message] /\
  wire (Send message x) = wire x /\
  m_open (Send message x) = true /\
  inFlight (Send message x) =
    match m_writeQueue x with
    | [] => inFlight x ++ [message]      (* the queue was empty: a write starts *)
    | _ :: _ => inFlight x               (* a write is under way: only queued *)
    end.
Proof.
  intros Ho. unfold Send. rewrite Ho. simpl.
  destruct (m_writeQueue x) as [|a queue]; simpl; repeat split; auto.
Qed.

Lemma OnWrite_done (x : Session) (buffer : string) (others : list string) :
  inFlight x = buffer :: others ->
  m_writeQueue (OnWrite false x) = tl (m_writeQueue x) /\
  wire (OnWrite false x) = wire x ++ [buffer] /\
  m_open (OnWrite false x) = m_open x /\
  inFlight (OnWrite false x) = others ++ firstn 1 (tl (m_writeQueue x)).
Proof.
  intros Hf. unfold OnWrite. rewrite Hf. simpl.
  destruct (tl (m_writeQueue x)) as [|a queue] eqn:Ht; simpl.
  - repeat split; auto. rewrite app_nil_r. reflexivity.
  - repeat split; auto.
Qed.

Lemma apply_op_invariant (x : Session) (o : Op) :
  queue_invariant x ->
  error_free [o] = true ->
  queue_invariant (apply_op x o) /\
  wire (apply_op x o) ++ m_writeQueue (apply_op x o)
    = wire x ++ m_writeQueue x ++ sent_messages [o].
Proof.
  intros [Ho Hf] He. destruct o as [message|ec]; simpl.
  - destruct (Send_open message x Ho) as (Hq & Hw & Ho' & Hf').
    rewrite Hq, Hw. split; [|reflexivity].
    split; [exact Ho'|]. rewrite Hf', Hq, Hf.
    destruct (m_writeQueue x); reflexivity.
  - destruct ec; [discriminate He|].
    rewrite app_nil_r.
    destruct (m_writeQueue x) as [|a queue] eqn:Hq.
    + unfold OnWrite. rewrite Hf. simpl. rewrite Hq.
      split; [split; [exact Ho|rewrite Hf, Hq; reflexivity]|reflexivity].
    + simpl in Hf.
      destruct (OnWrite_done x a [] Hf) as (Hq' & Hw & Ho' & Hf').
      rewrite Hq in Hq', Hf'. simpl in Hq', Hf'.
      rewrite Hw. split.
      * split; [rewrite Ho'; exact Ho|]. rewrite Hf', Hq'. reflexivity.
      * rewrite Hq', <- app_assoc. reflexivity.
Qed.

Lemma error_free_cons (o : Op) (ops : list Op) :
  error_free (o :: ops) = true -> error_free [o] = true /\ error_free ops = true.
Proof.
  unfold error_free. simpl. intros H. apply andb_true_iff in H.
  destruct H as [H1 H2]. rewrite H1. split; [reflexivity|exact H2].
Qed.

Lemma apply_ops_invariant (ops : list Op) :
  forall x,
    queue_invariant x ->
    error_free ops = true ->
    queue_invariant (apply_ops ops x) /\
    wire (apply_ops ops x) ++ m_writeQueue (apply_ops ops x)
      = wire x ++ m_writeQueue x ++ sent_messages ops.
Proof.
  induction ops as [|o ops IH]; intros x Hinv He.
  - simpl. rewrite app_nil_r. split; [exact Hinv|reflexivity].
  - destruct (error_free_cons o ops He) as [He1 He2].
    destruct (apply_op_invariant x o Hinv He1) as [Hinv1 Hw1].
    destruct (IH (apply_op x o) Hinv1 He2) as [Hinv2 Hw2].
    change (apply_ops (o :: ops) x) with (apply_ops ops (apply_op x o)).
    split; [exact Hinv2|]. rewrite Hw2.
    rewrite app_assoc, Hw1.
    assert (Hs : sent_messages (o :: ops) = sent_messages [o] ++ sent_messages ops)
      by (unfold sent_messages; simpl; rewrite app_nil_r; reflexivity).
    rewrite Hs, <- !app_assoc. reflexivity.
Qed.

(** Completing the writes one after the other empties the queue. *)
Lemma drain (n : nat) :
  forall x,
    queue_invariant x ->
    List.length (m_writeQueue x) = n ->
    m_writeQueue (apply_ops (repeat (OpWriteDone false) n) x) = [] /\
    wire (apply_ops (repeat (OpWriteDone false) n) x) = wire x ++ m_writeQueue x.
Proof.
  induction n as [|n IH]; intros x Hinv Hlen.
  - simpl. destruct (m_writeQueue x); [|discriminate Hlen].
    rewrite app_nil_r. split; reflexivity.
  - destruct (apply_op_invariant x (OpWriteDone false) Hinv eq_refl) as [Hinv1 Hw1].
    destruct (m_writeQueue x) as [|a queue] eqn:Hq; [discriminate Hlen|].
    destruct Hinv as [Ho Hf]. rewrite Hq in Hf. simpl in Hf.
    destruct (OnWrite_done x a [] Hf) as (Hq' & Hw & _ & _).
    rewrite Hq in Hq'. simpl in Hq'.
    assert (Hlen' : List.length (m_writeQueue (apply_op x (OpWriteDone false))) = n).
    { simpl. rewrite Hq'. simpl in Hlen. congruence. }
    destruct (IH _ Hinv1 Hlen') as [Hd1 Hd2].
    change (apply_ops (repeat (OpWriteDone false) (S n)) x)
      with (apply_ops (repeat (OpWriteDone false) n) (apply_op x (OpWriteDone false))).
    split; [exact Hd1|]. rewrite Hd2. simpl. rewrite Hw, Hq'.
    rewrite <- app_assoc. reflexivity.
Qed.

End OutboundQueue.

(** C8.  Outbound frames leave a session in the order of the calls of
    [Send].  On an open session [Send] appends to the queue and starts a
    write only when the queue was empty; a completed write removes the
    front of the queue, puts its frame on the wire and starts the next
    write only when the queue is not empty.  Hence, for every sequence of
    sends and write completions without a write error on an accepted
    session: at most one write is in flight, and it is the one of the front
    of the queue; the frames on the wire followed by the queue are the
    messages sent, in the order sent; and once the pending writes have
    completed the wire holds exactly the messages sent, in that order. *)
Theorem outbound_frames_keep_send_order :
  (forall message x,
      WebSocketSession.m_open x = true ->
      WebSocketSession.m_writeQueue (WebSocketSession.Send message x)
        = WebSocketSession.m_writeQueue x ++ [message] /\
      WebSocketSession.inFlight (WebSocketSession.Send message x)
        = match WebSocketSession.m_writeQueue x with
          | [] => WebSocketSession.inFlight x ++ [message]
          | _ :: _ => WebSocketSession.inFlight x
          end) /\
  (forall x buffer others,
      WebSocketSession.inFlight x = buffer :: others ->
      WebSocketSession.m_writeQueue (WebSocketSession.OnWrite false x)
        = tl (WebSocketSession.m_writeQueue x) /\
      WebSocketSession.wire (WebSocketSession.OnWrite false x)
        = WebSocketSession.wire x ++ [buffer] /\
      WebSocketSession.inFlight (WebSocketSession.OnWrite false x)
        = others ++ firstn 1 (tl (WebSocketSession.m_writeQueue x))) /\
  (forall ops,
      WebSocketSession.error_free ops = true ->
      let x := WebSocketSession.apply_ops ops WebSocketSession.accepted in
      WebSocketSession.inFlight x = firstn 1 (WebSocketSession.m_writeQueue x) /\
      WebSocketSession.wire x ++ WebSocketSession.m_writeQueue x
        = WebSocketSession.sent_messages ops /\
      WebSocketSession.wire
        (WebSocketSession.apply_ops
           (repeat (WebSocketSession.OpWriteDone false)
                   (List.length (WebSocketSession.m_writeQueue x))) x)
        = WebSocketSession.sent_messages ops).
Proof.
  split; [|split].
  - intros message x Ho.
    destruct (Send_open message x Ho) as (Hq & _ & _ & Hf). split; assumption.
  - intros x buffer others Hf.
    destruct (OnWrite_done x buffer others Hf) as (Hq & Hw & _ & Hf').
    repeat split; assumption.
  - intros ops He x.
    assert (Hacc : queue_invariant WebSocketSession.accepted) by (split; reflexivity).
    destruct (apply_ops_invariant ops _ Hacc He) as [Hinv Hw].
    fold x in Hinv, Hw. simpl in Hw.
    split; [apply Hinv|]. split; [exact Hw|].
    destruct (drain _ x Hinv eq_refl) as [_ Hd]. rewrite Hd. exact Hw.
Qed.

Lemma outbound_frames_keep_send_order_witness :
  WebSocketSession.wire
    (WebSocketSession.apply_ops
       [WebSocketSession.OpSend "E1"; WebSocketSession.OpSend "E2";
        WebSocketSession.OpWriteDone false; WebSocketSession.OpSend "E3";
        WebSocketSession.OpWriteDone false; WebSocketSession.OpWriteDone false]
       WebSocketSession.accepted)
  = ["E1"; "E2"; "E3"].
Proof.
  pose proof (proj2 (proj2 outbound_frames_keep_send_order)
                [WebSocketSession.OpSend "E1"; WebSocketSession.OpSend "E2";
                 WebSocketSession.OpWriteDone false; WebSocketSession.OpSend "E3";
                 WebSocketSession.OpWriteDone false; WebSocketSession.OpWriteDone false]
                eq_refl) as H.
  exact (proj2 (proj2 H)).
Defined.

(* ================================================================== *)
(** * Inbound frames *)

Lemma empty_true (s : string) : empty s = true <-> s = EmptyString.
Proof.
  unfold empty. destruct s; simpl; split; intros H; try reflexivity; discriminate.
Qed.

(** C7.  A frame from which no command can be extracted is dropped and
    the session keeps reading.  When the text of the quoted key [command]
    does not occur in a frame, or more generally when the extracted
    command is empty, [HandleCommand] does not call the command callback,
    whatever that callback is; with the plug-in's callback nothing is
    broadcast, nothing is posted to the host and the job guard is left
    alone; and [OnRead] leaves the session open as it was, its queue, its
    writes and its wire untouched, with a new read outstanding in place of
    the one that completed. *)
Theorem frame_without_command_is_dropped :
  (forall payload,
      find payload (quoted "command") (Some O) = None ->
      extract_field payload "command" = EmptyString) /\
  (forall (R : Type) (callback : option (string -> string -> string -> R)) payload,
      extract_field payload "command" = EmptyString ->
      HandleCommand callback payload = None) /\
  (forall server net payload x s,
      extract_field payload "command" = EmptyString ->
      let '(x', s', effects) :=
        Plugin.on_frame server net WebSocketSession.ReadOk payload x s in
      effects = [] /\ s' = s /\
      WebSocketSession.m_open x' = WebSocketSession.m_open x /\
      WebSocketSession.m_writeQueue x' = WebSocketSession.m_writeQueue x /\
      WebSocketSession.inFlight x' = WebSocketSession.inFlight x /\
      WebSocketSession.wire x' = WebSocketSession.wire x /\
      WebSocketSession.reads x' = S (pred (WebSocketSession.reads x))).
Proof.
  split; [|split].
  - intros payload H. unfold extract_field. rewrite H. reflexivity.
  - intros R callback payload H. unfold HandleCommand. rewrite H.
    destruct callback; reflexivity.
  - intros server net payload x s H.
    unfold Plugin.on_frame, WebSocketSession.OnRead, HandleMessage, HandleCommand.
    rewrite H. simpl. repeat split.
Qed.

Lemma frame_without_command_is_dropped_witness :
  extract_field ("{" ++ q "jobId" ++ ":" ++ q "J1" ++ "}") "command" = EmptyString.
Proof.
  apply (proj1 frame_without_command_is_dropped). reflexivity.
Defined.

(* ================================================================== *)
(** * Searching in texts *)

Section Texts.

Local Open Scope string_scope.

Lemma sapp_assoc (a b c : string) : (a ++ b) ++ c = a ++ b ++ c.
Proof. induction a as [|x a IH]; simpl; [reflexivity|]. rewrite IH. reflexivity. Qed.

Lemma slength_app (a b : string) :
  String.length (a ++ b) = String.length a + String.length b.
Proof. induction a as [|x a IH]; simpl; [reflexivity|]. rewrite IH. reflexivity. Qed.

Lemma drop_app (a b : string) : drop (String.length a) (a ++ b) = b.
Proof. induction a as [|x a IH]; simpl; [destruct b; reflexivity|exact IH]. Qed.

Lemma drop_0 (s : string) : drop 0 s = s.
Proof. destruct s; reflexivity. Qed.

Lemma prefix_app (a b : string) : prefix a (a ++ b) = true.
Proof.
  induction a as [|x a IH]; simpl; [destruct b; reflexivity|].
  destruct (ascii_dec x x) as [_|n]; [exact IH|contradiction n; reflexivity].
Qed.

Lemma prefix_empty (b : string) : prefix EmptyString b = true.
Proof. destruct b; reflexivity. Qed.

Lemma substring_all (v b : string) : substring 0 (String.length v) (v ++ b) = v.
Proof.
  induction v as [|x v IH]; simpl; [destruct b; reflexivity|].
  rewrite IH. reflexivity.
Qed.

Lemma substring_app (a v b : string) :
  substring (String.length a) (String.length v) (a ++ v ++ b) = v.
Proof. induction a as [|x a IH]; simpl; [apply substring_all|exact IH]. Qed.

Lemma option_map_add_0 (o : option nat) : option_map (Nat.add 0) o = o.
Proof. destruct o; reflexivity. Qed.

Lemma option_map_S_add (n : nat) (o : option nat) :
  option_map S (option_map (Nat.add n) o) = option_map (Nat.add (S n)) o.
Proof. destruct o; reflexivity. Qed.

Lemma option_map_add_add (n m : nat) (o : option nat) :
  option_map (Nat.add n) (option_map (Nat.add m) o) = option_map (Nat.add (n + m)) o.
Proof. destruct o; simpl; [rewrite Nat.add_assoc|]; reflexivity. Qed.

Lemma find_from_start (s needle : string) : find s needle (Some 0) = find0 needle s.
Proof. unfold find. simpl. apply option_map_add_0. Qed.

(** Searching from the end of a known beginning. *)
Lemma find_split (a b needle : string) :
  find (a ++ b) needle (Some (String.length a))
  = option_map (Nat.add (String.length a)) (find0 needle b).
Proof.
  unfold find. rewrite slength_app, drop_app.
  destruct (Nat.ltb_spec (String.length a + String.length b) (String.length a)) as [H|H];
    [lia|reflexivity].
Qed.

Lemma ascii_eqb_dec (a b : ascii) :
  (if ascii_dec a b then true else false) = Ascii.eqb a b.
Proof.
  destruct (ascii_dec a b) as [e|n].
  - subst. symmetry. apply Ascii.eqb_refl.
  - symmetry. apply Ascii.eqb_neq. exact n.
Qed.

Lemma prefix_cons (a b : ascii) (s t : string) :
  prefix (String a s) (String b t) = Ascii.eqb a b && prefix s t.
Proof.
  simpl. rewrite <- ascii_eqb_dec. destruct (ascii_dec a b); reflexivity.
Qed.

(** The first occurrence of a character after a text without it. *)
Lemma find0_char (c : ascii) (m rest : string) :
  no_char c m = true ->
  find0 (String c EmptyString) (m ++ String c rest) = Some (String.length m).
Proof.
  induction m as [|a m IH]; intros H.
  - simpl. destruct (ascii_dec c c) as [_|n]; [|contradiction n; reflexivity].
    destruct rest; reflexivity.
  - simpl in H. apply andb_true_iff in H. destruct H as [Ha Hm].
    change (find0 (String c "") (String a m ++ String c rest))
      with (if prefix (String c "") (String a (m ++ String c rest)) then Some 0
            else option_map S (find0 (String c "") (m ++ String c rest))).
    rewrite prefix_cons.
    rewrite Ascii.eqb_sym. apply negb_true_iff in Ha. rewrite Ha. simpl.
    rewrite (IH Hm). reflexivity.
Qed.

Lemma no_char_app (c : ascii) (a b : string) :
  no_char c (a ++ b) = no_char c a && no_char c b.
Proof.
  induction a as [|x a IH]; simpl; [reflexivity|].
  rewrite IH. apply andb_assoc.
Qed.

End Texts.

Section Extraction.

Local Open Scope string_scope.

Lemma find_at (P a b needle : string) (n : nat) :
  P = a ++ b -> n = String.length a ->
  find P needle (Some n) = option_map (Nat.add n) (find0 needle b).
Proof. intros -> ->. apply find_split. Qed.

Lemma substr_at (P a v b : string) (n m : nat) :
  P = a ++ v ++ b -> n = String.length a -> m = String.length v ->
  substr P n m = v.
Proof. intros -> -> ->. apply substring_app. Qed.

Lemma length_quoted (k : string) : String.length (quoted k) = S (S (String.length k)).
Proof. unfold quoted, quote. simpl. rewrite slength_app. simpl. lia. Qed.

Lemma no_colon_quoted (k : string) :
  no_char ":" k = true -> no_char ":" (quoted k) = true.
Proof.
  intros H. unfold quoted, quote. simpl. rewrite no_char_app, H. reflexivity.
Qed.

(** The block that follows every key search, on a field written as
    [quoted k ++ ":" ++ quoted v]: with no colon in the key and no double
    quote in the value, it reads the value. *)
Lemma quoted_value_after_field (pre k v rest : string) :
  no_char ":" k = true ->
  no_quote v = true ->
  quoted_value_after
    (pre ++ quoted k ++ String ":" (String quote_char (v ++ String quote_char rest)))
    (String.length pre) = Some v.
Proof.
  intros Hk Hv.
  set (P := pre ++ quoted k ++ String ":" (String quote_char (v ++ String quote_char rest))).
  unfold quoted_value_after.
  (* the colon *)
  assert (Hcolon : find P ":" (Some (String.length pre))
                   = Some (String.length pre + String.length (quoted k))).
  { rewrite (find_at P pre _ ":" _ eq_refl eq_refl).
    rewrite (find0_char ":" (quoted k) _ (no_colon_quoted k Hk)). reflexivity. }
  rewrite Hcolon.
  (* the opening quote *)
  assert (Hqs : find P quote (Some (String.length pre + String.length (quoted k)))
                = Some (String.length pre + String.length (quoted k) + 1)).
  { rewrite (find_at P (pre ++ quoted k)
               (String ":" (String quote_char (v ++ String quote_char rest))) quote _).
    - change (String ":" (String quote_char (v ++ String quote_char rest)))
        with (":" ++ String quote_char (v ++ String quote_char rest)).
      unfold quote.
      rewrite (find0_char quote_char ":" _ eq_refl). reflexivity.
    - unfold P. rewrite sapp_assoc. reflexivity.
    - rewrite slength_app. reflexivity. }
  rewrite Hqs.
  (* the closing quote *)
  assert (Hqe : find P quote
                  (size_succ (Some (String.length pre + String.length (quoted k) + 1)))
                = Some (String.length pre + String.length (quoted k) + 2
                        + String.length v)).
  { cbn [size_succ].
    rewrite (find_at P (pre ++ quoted k ++ String ":" (String quote_char ""))
               (v ++ String quote_char rest) quote
               (S (String.length pre + String.length (quoted k) + 1))).
    - unfold quote. rewrite (find0_char quote_char v rest Hv). simpl. f_equal. lia.
    - unfold P. rewrite !sapp_assoc. reflexivity.
    - rewrite !slength_app. simpl. lia. }
  rewrite Hqe.
  f_equal.
  apply (substr_at P (pre ++ quoted k ++ String ":" (String quote_char ""))
           v (String quote_char rest)).
  - unfold P. rewrite !sapp_assoc. reflexivity.
  - rewrite !slength_app. simpl. lia.
  - lia.
Qed.

End Extraction.

Section KeySearch.

Local Open Scope string_scope.

Lemma quoted_cons (k : string) : quoted k = String quote_char (k ++ quote).
Proof. reflexivity. Qed.

Lemma no_quote_cons (a : ascii) (s : string) :
  no_quote (String a s) = true -> Ascii.eqb quote_char a = false /\ no_quote s = true.
Proof.
  unfold no_quote. intros H. cbn [no_char] in H.
  apply andb_true_iff in H. destruct H as [Ha Hs].
  split; [|exact Hs]. rewrite Ascii.eqb_sym. apply negb_true_iff. exact Ha.
Qed.

(** A text without a double quote does not begin with a quoted name. *)
Lemma prefix_no_quote (k s : string) :
  no_quote s = true -> prefix (k ++ quote) s = false.
Proof.
  revert s. induction k as [|b k IH]; intros s Hs.
  - destruct s as [|a s]; [reflexivity|].
    destruct (no_quote_cons a s Hs) as [Ha _].
    change (EmptyString ++ quote) with (String quote_char EmptyString).
    rewrite prefix_cons, Ha. reflexivity.
  - destruct s as [|a s]; [reflexivity|].
    destruct (no_quote_cons a s Hs) as [_ Hs'].
    change (String b k ++ quote) with (String b (k ++ quote)).
    rewrite prefix_cons, (IH s Hs'). apply andb_false_r.
Qed.

(** After an opening quote, a quoted name is found exactly when the text
    up to the next double quote is that name. *)
Lemma prefix_key (k s rest : string) :
  no_quote k = true -> no_quote s = true ->
  prefix (k ++ quote) (s ++ String quote_char rest) = String.eqb k s.
Proof.
  revert s. induction k as [|b k IH]; intros s Hk Hs.
  - destruct s as [|a s].
    + change (prefix (String quote_char EmptyString) (String quote_char rest) = true).
      rewrite prefix_cons, Ascii.eqb_refl, prefix_empty. reflexivity.
    + destruct (no_quote_cons a s Hs) as [Ha _].
      change (prefix (String quote_char EmptyString)
                (String a (s ++ String quote_char rest)) = false).
      rewrite prefix_cons, Ha. reflexivity.
  - destruct (no_quote_cons b k Hk) as [Hb Hk'].
    destruct s as [|a s].
    + change (prefix (String b (k ++ quote)) (String quote_char rest) = false).
      rewrite prefix_cons, Ascii.eqb_sym, Hb. reflexivity.
    + destruct (no_quote_cons a s Hs) as [_ Hs'].
      change (prefix (String b (k ++ quote)) (String a (s ++ String quote_char rest))
              = (if Ascii.eqb b a then String.eqb k s else false)).
      rewrite prefix_cons, (IH s Hk' Hs').
      destruct (Ascii.eqb b a); reflexivity.
Qed.

Lemma find0_unfold (needle : string) (a : ascii) (s : string) :
  find0 needle (String a s) =
  if prefix needle (String a s) then Some 0 else option_map S (find0 needle s).
Proof. reflexivity. Qed.

(** No quoted name occurs in a text without a double quote. *)
Lemma find0_quoted_none (k s : string) :
  no_quote s = true -> find0 (quoted k) s = None.
Proof.
  induction s as [|a s IH]; intros Hs; [reflexivity|].
  destruct (no_quote_cons a s Hs) as [Ha Hs'].
  rewrite find0_unfold, quoted_cons, prefix_cons, Ha. simpl.
  rewrite <- quoted_cons, (IH Hs'). reflexivity.
Qed.

(** A beginning without a double quote is skipped. *)
Lemma find0_quoted_plain (k s0 rest : string) :
  no_quote s0 = true ->
  find0 (quoted k) (s0 ++ rest)
  = option_map (Nat.add (String.length s0)) (find0 (quoted k) rest).
Proof.
  induction s0 as [|a s0 IH]; intros Hs.
  - simpl. symmetry. apply option_map_add_0.
  - destruct (no_quote_cons a s0 Hs) as [Ha Hs'].
    change (String a s0 ++ rest) with (String a (s0 ++ rest)).
    rewrite find0_unfold, quoted_cons, prefix_cons, Ha. simpl andb. cbv iota.
    rewrite <- quoted_cons, (IH Hs'). apply option_map_S_add.
Qed.

(** At an opening quote: either the name is there, or the search goes on
    from the closing quote. *)
Lemma find0_quoted_segment (k s rest : string) :
  no_quote k = true -> no_quote s = true ->
  find0 (quoted k) (String quote_char (s ++ String quote_char rest))
  = if String.eqb k s then Some 0
    else option_map (Nat.add (S (String.length s)))
                    (find0 (quoted k) (String quote_char rest)).
Proof.
  intros Hk Hs.
  rewrite find0_unfold, quoted_cons, prefix_cons, Ascii.eqb_refl.
  rewrite (prefix_key k s rest Hk Hs). simpl andb.
  destruct (String.eqb k s); [reflexivity|].
  rewrite <- quoted_cons, (find0_quoted_plain k s _ Hs).
  apply option_map_S_add.
Qed.

(** After the last double quote of a text nothing is found. *)
Lemma find0_quoted_last (k s : string) :
  no_quote s = true -> find0 (quoted k) (String quote_char s) = None.
Proof.
  intros Hs.
  rewrite find0_unfold, quoted_cons, prefix_cons, (prefix_no_quote k s Hs).
  rewrite andb_false_r, <- quoted_cons, (find0_quoted_none k s Hs). reflexivity.
Qed.

Lemma fields_text_cons (k v : string) (rest : list (string * string)) (t : string) :
  fields_text ((k, v) :: rest) ++ t
  = quoted k ++ String ":" (String quote_char (v ++ String quote_char (tail_text rest t))).
Proof.
  unfold tail_text. cbn [fields_text]. unfold field_text, quoted, quote. cbn [fst snd].
  destruct rest as [|kv rest]; rewrite !sapp_assoc; simpl; rewrite ?sapp_assoc; reflexivity.
Qed.

Lemma tail_text_quote (k : string) (rest : list (string * string)) (t : string) :
  searchable k -> no_quote t = true ->
  find0 (quoted k) (String quote_char (tail_text rest t))
  = match rest with
    | [] => None
    | _ :: _ => option_map (Nat.add 2) (find0 (quoted k) (fields_text rest ++ t))
    end.
Proof.
  intros (Hk & _ & _ & Hcomma) Ht. destruct rest as [|[k2 v2] rest]; unfold tail_text.
  - apply find0_quoted_last. exact Ht.
  - rewrite fields_text_cons.
    set (X := String ":" (String quote_char (v2 ++ String quote_char (tail_text rest t)))).
    change (String "," (quoted k2 ++ X))
      with ("," ++ String quote_char ((k2 ++ quote) ++ X)).
    rewrite (find0_quoted_segment k "," _ Hk eq_refl), Hcomma. reflexivity.
Qed.

Lemma quoted_app (k Y : string) :
  quoted k ++ Y = String quote_char (k ++ String quote_char Y).
Proof. unfold quoted, quote. simpl. rewrite sapp_assoc. reflexivity. Qed.

(** Skipping a field whose key and value are not the name searched. *)
Lemma find0_skip_field (k k1 v1 : string) (rest : list (string * string)) (t : string) :
  searchable k -> no_quote t = true ->
  no_quote k1 = true -> no_quote v1 = true ->
  String.eqb k k1 = false -> String.eqb k v1 = false ->
  find0 (quoted k) (fields_text ((k1, v1) :: rest) ++ t)
  = match rest with
    | [] => None
    | _ :: _ =>
        option_map (Nat.add (String.length (field_text (k1, v1)) + 1))
                   (find0 (quoted k) (fields_text rest ++ t))
    end.
Proof.
  intros Hk Ht Hk1 Hv1 Hne1 Hne2.
  pose proof Hk as (Hkq & _ & Hcolon & _).
  rewrite fields_text_cons, quoted_app.
  rewrite (find0_quoted_segment k k1 _ Hkq Hk1), Hne1.
  change (String ":" (String quote_char (v1 ++ String quote_char (tail_text rest t))))
    with (":" ++ String quote_char (v1 ++ String quote_char (tail_text rest t))).
  rewrite (find0_quoted_segment k ":" _ Hkq eq_refl), Hcolon.
  rewrite (find0_quoted_segment k v1 _ Hkq Hv1), Hne2.
  rewrite (tail_text_quote k rest t Hk Ht).
  destruct rest as [|kv rest]; [reflexivity|].
  rewrite !option_map_add_add. f_equal. f_equal.
  unfold field_text. cbn [fst snd]. rewrite !slength_app, !length_quoted. simpl. lia.
Qed.

End KeySearch.

Section ObjectSearch.

Local Open Scope string_scope.

Variable k : string.
Hypothesis k_searchable : searchable k.

Lemma find_fields_none (t : string) (fs : list (string * string)) :
  no_quote t = true ->
  Forall (plain_for k) fs ->
  lookup k fs = None ->
  find0 (quoted k) (fields_text fs ++ t) = None.
Proof.
  intros Ht Hall. induction Hall as [|[k1 v1] rest (Hk1 & Hv1 & Hne) Hrest IH];
    intros Hl.
  - simpl. apply find0_quoted_none. exact Ht.
  - cbn [lookup] in Hl. cbn [fst snd] in Hk1, Hv1, Hne.
    destruct (String.eqb k k1) eqn:He; [discriminate Hl|].
    rewrite (find0_skip_field k k1 v1 rest t k_searchable Ht Hk1 Hv1 He Hne).
    destruct rest as [|kv rest]; [reflexivity|].
    rewrite (IH Hl). reflexivity.
Qed.

Lemma find_fields_some (t : string) (fs : list (string * string)) (v : string) :
  no_quote t = true ->
  Forall (plain_for k) fs ->
  lookup k fs = Some v ->
  exists pre R,
    fields_text fs ++ t
      = pre ++ quoted k ++ String ":" (String quote_char (v ++ String quote_char R)) /\
    find0 (quoted k) (fields_text fs ++ t) = Some (String.length pre).
Proof.
  intros Ht Hall. induction Hall as [|[k1 v1] rest (Hk1 & Hv1 & Hne) Hrest IH];
    intros Hl.
  - discriminate Hl.
  - cbn [lookup] in Hl. cbn [fst snd] in Hk1, Hv1, Hne.
    destruct (String.eqb k k1) eqn:He.
    + apply String.eqb_eq in He. subst k1. injection Hl as ->.
      exists EmptyString, (tail_text rest t). split.
      * rewrite fields_text_cons. reflexivity.
      * rewrite fields_text_cons, quoted_app.
        destruct k_searchable as (Hkq & _).
        rewrite (find0_quoted_segment k k _ Hkq Hkq), String.eqb_refl. reflexivity.
    + rewrite (find0_skip_field k k1 v1 rest t k_searchable Ht Hk1 Hv1 He Hne).
      destruct rest as [|kv rest]; [discriminate Hl|].
      destruct (IH Hl) as (pre & R & Htext & Hfind).
      exists (field_text (k1, v1) ++ "," ++ pre), R. split.
      * change (fields_text ((k1, v1) :: kv :: rest))
          with (field_text (k1, v1) ++ "," ++ fields_text (kv :: rest)).
        rewrite !sapp_assoc, Htext. reflexivity.
      * rewrite Hfind. cbn [option_map]. f_equal.
        rewrite !slength_app. cbn [String.length]. lia.
Qed.

Lemma find0_brace (X : string) :
  find0 (quoted k) (String "{" X) = option_map S (find0 (quoted k) X).
Proof.
  change (String "{" X) with ("{" ++ X).
  rewrite (find0_quoted_plain k "{" X eq_refl). reflexivity.
Qed.

Lemma object_find_none (fs : list (string * string)) :
  Forall (plain_for k) fs ->
  lookup k fs = None ->
  find (object_text fs) (quoted k) (Some 0) = None.
Proof.
  intros Hall Hl. rewrite find_from_start. unfold object_text.
  change ("{" ++ fields_text fs ++ "}") with (String "{" (fields_text fs ++ "}")).
  rewrite find0_brace, (find_fields_none "}" fs eq_refl Hall Hl). reflexivity.
Qed.

Lemma object_find_some (fs : list (string * string)) (v : string) :
  Forall (plain_for k) fs ->
  no_quote v = true ->
  lookup k fs = Some v ->
  exists pos,
    find (object_text fs) (quoted k) (Some 0) = Some pos /\
    quoted_value_after (object_text fs) pos = Some v.
Proof.
  intros Hall Hv Hl.
  destruct (find_fields_some "}" fs v eq_refl Hall Hl) as (pre & R & Htext & Hfind).
  exists (String.length ("{" ++ pre)). split.
  - rewrite find_from_start. unfold object_text.
    change ("{" ++ fields_text fs ++ "}") with (String "{" (fields_text fs ++ "}")).
    rewrite find0_brace, Hfind. reflexivity.
  - unfold object_text. rewrite Htext.
    destruct k_searchable as (_ & Hcolon & _).
    rewrite <- (quoted_value_after_field ("{" ++ pre) k v R Hcolon Hv).
    rewrite sapp_assoc. reflexivity.
Qed.

End ObjectSearch.

Lemma lookup_value_plain (k : string) (fs : list (string * string)) (v : string) :
  plain_object fs -> lookup k fs = Some v -> no_quote v = true.
Proof.
  intros Hall. induction Hall as [|[k1 v1] rest (_ & Hv1 & _) _ IH]; intros Hl.
  - discriminate Hl.
  - cbn [lookup] in Hl. destruct (String.eqb k k1); [|exact (IH Hl)].
    injection Hl as <-. exact Hv1.
Qed.

Lemma key_names_searchable (k : string) : In k key_names -> searchable k.
Proof.
  intros H. unfold key_names in H. simpl in H.
  repeat (destruct H as [<-|H]; [repeat split; reflexivity|]).
  contradiction.
Qed.

Lemma plain_object_for (k : string) (fs : list (string * string)) :
  In k key_names -> plain_object fs -> Forall (plain_for k) fs.
Proof.
  intros Hk Hall. eapply Forall_impl; [|exact Hall].
  intros [k1 v1] (H1 & H2 & H3). repeat split; try assumption.
  apply String.eqb_neq. intros ->. apply H3. exact Hk.
Qed.

(** On the text of a plain object the router reads, for a field with two
    names, the value under the first name if there is one, else the value
    under the second. *)
Lemma field_value_object (k1 k2 : string) (fs : list (string * string)) :
  In k1 key_names -> In k2 key_names -> plain_object fs ->
  field_value (object_text fs) k1 k2 = lookup_either k1 k2 fs.
Proof.
  intros H1 H2 Hall. unfold field_value, find_either, lookup_either.
  destruct (lookup k1 fs) as [v|] eqn:Hl1.
  - destruct (object_find_some k1 (key_names_searchable k1 H1) fs v
                (plain_object_for k1 fs H1 Hall)
                (lookup_value_plain k1 fs v Hall Hl1) Hl1) as (pos & Hf & Hq).
    rewrite Hf. exact Hq.
  - rewrite (object_find_none k1 (key_names_searchable k1 H1) fs
               (plain_object_for k1 fs H1 Hall) Hl1).
    destruct (lookup k2 fs) as [v|] eqn:Hl2.
    + destruct (object_find_some k2 (key_names_searchable k2 H2) fs v
                  (plain_object_for k2 fs H2 Hall)
                  (lookup_value_plain k2 fs v Hall Hl2) Hl2) as (pos & Hf & Hq).
      rewrite Hf. exact Hq.
    + rewrite (object_find_none k2 (key_names_searchable k2 H2) fs
                 (plain_object_for k2 fs H2 Hall) Hl2).
      reflexivity.
Qed.

(** The router's reading of a payload, through [field_value]. *)
Lemma parse_start_conversion_fields (payload : string) :
  Plugin.parse_start_conversion payload =
  let out := or_empty (field_value payload "outputPath" "output_path") in
  match field_value payload "plnPath" "pln_path" with
  | Some v =>
      if empty v then
        match field_value payload "ifcPath" "ifc_path" with
        | Some v' => (v', out, false)
        | None => (EmptyString, out, true)
        end
      else (v, out, true)
  | None => (or_empty (field_value payload "ifcPath" "ifc_path"), out, false)
  end.
Proof.
  unfold Plugin.parse_start_conversion, field_value, or_empty.
  destruct (find_either payload "plnPath" "pln_path") as [p|];
    [destruct (quoted_value_after payload p) as [v|]|].
  - destruct (empty v) eqn:He.
    + apply empty_true in He. subst v.
      destruct (find_either payload "ifcPath" "ifc_path") as [p'|];
        [destruct (quoted_value_after payload p') as [v'|]|];
        destruct (find_either payload "outputPath" "output_path") as [p''|];
        try destruct (quoted_value_after payload p''); reflexivity.
    + destruct (find_either payload "outputPath" "output_path") as [p''|];
        try destruct (quoted_value_after payload p''); reflexivity.
  - cbn [empty String.length Nat.eqb].
    destruct (find_either payload "ifcPath" "ifc_path") as [p'|];
      [destruct (quoted_value_after payload p') as [v'|]|];
      destruct (find_either payload "outputPath" "output_path") as [p''|];
      try destruct (quoted_value_after payload p''); reflexivity.
  - cbn [empty String.length Nat.eqb].
    destruct (find_either payload "ifcPath" "ifc_path") as [p'|];
      [destruct (quoted_value_after payload p') as [v'|]|];
      destruct (find_either payload "outputPath" "output_path") as [p''|];
      try destruct (quoted_value_after payload p''); reflexivity.
Qed.

Lemma parse_object (fs : list (string * string)) :
  plain_object fs ->
  Plugin.parse_start_conversion (object_text fs) = fields_read fs.
Proof.
  intros Hall. rewrite parse_start_conversion_fields. unfold fields_read.
  rewrite !field_value_object by (try exact Hall; unfold key_names; simpl; tauto).
  reflexivity.
Qed.

(** ** Objects written with white space and unquoted values *)

Section SpacedObjects.

Local Open Scope string_scope.

Lemma white_no_char (c : ascii) (w : string) :
  white_char c = false -> white w = true -> no_char c w = true.
Proof.
  intros Hc. induction w as [|a w IH]; intros Hw; [reflexivity|].
  cbn [white] in Hw. apply andb_true_iff in Hw. destruct Hw as [Ha Hw].
  cbn [no_char]. rewrite (IH Hw), andb_true_r.
  destruct (Ascii.eqb a c) eqn:E; [|reflexivity].
  apply Ascii.eqb_eq in E. subst a. rewrite Hc in Ha. discriminate Ha.
Qed.

Lemma white_no_quote (w : string) : white w = true -> no_quote w = true.
Proof. apply white_no_char. reflexivity. Qed.

Lemma white_no_colon (w : string) : white w = true -> no_char ":" w = true.
Proof. apply white_no_char. reflexivity. Qed.

(** A name is not a text that holds a character the name does not. *)
Lemma eqb_holds_char (c : ascii) (k a b : string) :
  no_char c k = true -> String.eqb k (a ++ String c b) = false.
Proof.
  intros Hk. apply String.eqb_neq. intros ->.
  rewrite no_char_app in Hk. cbn [no_char] in Hk.
  rewrite Ascii.eqb_refl in Hk. cbn [negb andb] in Hk.
  rewrite andb_false_r in Hk. discriminate Hk.
Qed.

Lemma no_quote_app (a b : string) :
  no_quote a = true -> no_quote b = true -> no_quote (a ++ b) = true.
Proof. unfold no_quote. intros Ha Hb. rewrite no_char_app, Ha, Hb. reflexivity. Qed.

(** Passing over a piece between two double quotes that is not the name. *)
Lemma find0_pass (k s rest : string) :
  no_quote k = true -> no_quote s = true -> String.eqb k s = false ->
  find0 (quoted k) (String quote_char (s ++ String quote_char rest))
  = option_map (Nat.add (S (String.length s)))
               (find0 (quoted k) (String quote_char rest)).
Proof.
  intros Hk Hs Hne. rewrite (find0_quoted_segment k s rest Hk Hs), Hne. reflexivity.
Qed.

Lemma members_text_cons (m : Member) (rest : list Member) (t : string) :
  members_text (m :: rest) ++ t
  = ws_key m ++ String quote_char (m_key m ++ String quote_char (after_key m rest t)).
Proof.
  unfold after_key, members_tail. cbn [members_text]. unfold member_text, quoted, quote.
  destruct rest as [|m' rest]; rewrite !sapp_assoc; cbn [append]; rewrite ?sapp_assoc;
    reflexivity.
Qed.

Lemma length_member_text (m : Member) :
  String.length (member_text m)
  = String.length (ws_key m) + S (S (String.length (m_key m)))
    + String.length (ws_colon m) + 1 + String.length (ws_value m)
    + String.length (value_text (m_value m)) + String.length (ws_end m).
Proof.
  unfold member_text. rewrite !slength_app, length_quoted. cbn [String.length]. lia.
Qed.

(** The search at the first key of the members. *)
Lemma find0_members_key (k : string) (m : Member) (rest : list Member) (t : string) :
  white (ws_key m) = true ->
  find0 (quoted k) (members_text (m :: rest) ++ t)
  = option_map (Nat.add (String.length (ws_key m)))
      (find0 (quoted k)
         (String quote_char (m_key m ++ String quote_char (after_key m rest t)))).
Proof.
  intros Hw. rewrite members_text_cons.
  apply find0_quoted_plain, white_no_quote, Hw.
Qed.

(** Passing over a member whose key and value are not the name. *)
Lemma find0_skip_member (k : string) (m : Member) (rest : list Member) (t : string) :
  name_like k -> no_quote t = true ->
  plain_member_for k m -> String.eqb k (m_key m) = false ->
  Forall (plain_member_for k) rest ->
  find0 (quoted k) (members_text (m :: rest) ++ t)
  = match rest with
    | [] => None
    | _ :: _ =>
        option_map (Nat.add (String.length (member_text m) + 1))
                   (find0 (quoted k) (members_text rest ++ t))
    end.
Proof.
  intros (Hkq & Hcolon & Hcomma) Ht ((Hwk & Hwc & Hwv & Hwe) & Hkey & Hval) Hne Hrest.
  rewrite (find0_members_key k m rest t Hwk).
  rewrite (find0_pass k (m_key m) _ Hkq Hkey Hne).
  rewrite length_member_text.
  unfold after_key.
  destruct (m_value m) as [v|b]; cbn [value_text]; destruct Hval as [Hv Hnv].
  - (* a string value *)
    assert (E1 : ws_colon m ++ ":" ++ ws_value m ++ quoted v ++ ws_end m ++ members_tail rest t
                 = (ws_colon m ++ String ":" (ws_value m))
                     ++ String quote_char (v ++ String quote_char (ws_end m ++ members_tail rest t))).
    { unfold quoted, quote. rewrite !sapp_assoc. cbn [append]. rewrite ?sapp_assoc. reflexivity. }
    rewrite E1.
    rewrite (find0_pass k (ws_colon m ++ String ":" (ws_value m)) _ Hkq).
    2:{ apply no_quote_app; [apply white_no_quote, Hwc|].
        change (String ":" (ws_value m)) with (":" ++ ws_value m).
        apply no_quote_app; [reflexivity|apply white_no_quote, Hwv]. }
    2:{ apply eqb_holds_char, Hcolon. }
    rewrite (find0_pass k v _ Hkq Hv Hnv).
    destruct rest as [|m' rest]; cbn [members_tail].
    + rewrite (find0_quoted_last k (ws_end m ++ t)); [reflexivity|].
      apply no_quote_app; [apply white_no_quote, Hwe|exact Ht].
    + inversion Hrest as [|? ? ((Hwk' & _) & _) _]; subst.
      rewrite (find0_members_key k m' rest t Hwk'), members_text_cons.
      assert (E2 : ws_end m ++ String "," (ws_key m' ++ String quote_char
                     (m_key m' ++ String quote_char (after_key m' rest t)))
                   = (ws_end m ++ String "," (ws_key m'))
                       ++ String quote_char (m_key m' ++ String quote_char (after_key m' rest t))).
      { rewrite !sapp_assoc. reflexivity. }
      rewrite E2.
      rewrite (find0_pass k (ws_end m ++ String "," (ws_key m')) _ Hkq).
      2:{ apply no_quote_app; [apply white_no_quote, Hwe|].
          change (String "," (ws_key m')) with ("," ++ ws_key m').
          apply no_quote_app; [reflexivity|apply white_no_quote, Hwk']. }
      2:{ apply eqb_holds_char, Hcomma. }
      rewrite !option_map_add_add. f_equal.
      repeat (rewrite ?slength_app, ?length_quoted; cbn [String.length]). f_equal. lia.
  - (* a value without quotes *)
    destruct rest as [|m' rest]; cbn [members_tail].
    + rewrite (find0_quoted_last k); [reflexivity|].
      apply no_quote_app; [apply white_no_quote, Hwc|].
      apply no_quote_app; [reflexivity|].
      apply no_quote_app; [apply white_no_quote, Hwv|].
      apply no_quote_app; [exact Hv|].
      apply no_quote_app; [apply white_no_quote, Hwe|exact Ht].
    + inversion Hrest as [|? ? ((Hwk' & _) & _) _]; subst.
      rewrite (find0_members_key k m' rest t Hwk'), members_text_cons.
      assert (E2 : ws_colon m ++ ":" ++ ws_value m ++ b ++ ws_end m
                     ++ String "," (ws_key m' ++ String quote_char
                          (m_key m' ++ String quote_char (after_key m' rest t)))
                   = (ws_colon m ++ String ":" (ws_value m ++ b ++ ws_end m
                                                  ++ String "," (ws_key m')))
                       ++ String quote_char (m_key m' ++ String quote_char (after_key m' rest t))).
      { rewrite !sapp_assoc. cbn [append]. rewrite ?sapp_assoc. reflexivity. }
      rewrite E2.
      rewrite (find0_pass k _ _ Hkq).
      2:{ apply no_quote_app; [apply white_no_quote, Hwc|].
          change (no_quote (":" ++ ws_value m ++ b ++ ws_end m ++ "," ++ ws_key m') = true).
          apply no_quote_app; [reflexivity|].
          apply no_quote_app; [apply white_no_quote, Hwv|].
          apply no_quote_app; [exact Hv|].
          apply no_quote_app; [apply white_no_quote, Hwe|].
          apply no_quote_app; [reflexivity|apply white_no_quote, Hwk']. }
      2:{ apply eqb_holds_char, Hcolon. }
      rewrite !option_map_add_add. f_equal.
      repeat (rewrite ?slength_app, ?length_quoted; cbn [String.length]). f_equal. lia.
Qed.

(** The block that follows every key search, on a member written with
    white space around the colon: it reads the value. *)
Lemma quoted_value_after_spaced (pre k wc wv v rest : string) :
  no_char ":" k = true -> white wc = true -> white wv = true -> no_quote v = true ->
  quoted_value_after
    (pre ++ quoted k ++ wc
       ++ String ":" (wv ++ String quote_char (v ++ String quote_char rest)))
    (String.length pre) = Some v.
Proof.
  intros Hk Hwc Hwv Hv.
  set (P := pre ++ quoted k ++ wc
              ++ String ":" (wv ++ String quote_char (v ++ String quote_char rest))).
  set (n1 := String.length pre + String.length (quoted k ++ wc)).
  set (n2 := n1 + 1 + String.length wv).
  unfold quoted_value_after.
  assert (Hcolon : find P ":" (Some (String.length pre)) = Some n1).
  { rewrite (find_at P pre
               ((quoted k ++ wc)
                  ++ String ":" (wv ++ String quote_char (v ++ String quote_char rest)))
               ":" _).
    - rewrite (find0_char ":" (quoted k ++ wc)); [reflexivity|].
      rewrite no_char_app, (no_colon_quoted k Hk), (white_no_colon wc Hwc). reflexivity.
    - unfold P. rewrite !sapp_assoc. reflexivity.
    - reflexivity. }
  rewrite Hcolon.
  assert (Hqs : find P quote (Some n1) = Some n2).
  { rewrite (find_at P (pre ++ quoted k ++ wc)
               (String ":" wv ++ String quote_char (v ++ String quote_char rest)) quote n1).
    - unfold quote. rewrite (find0_char quote_char (String ":" wv)).
      + cbn [option_map String.length]. unfold n2. f_equal. lia.
      + change (no_quote (":" ++ wv) = true).
        apply no_quote_app; [reflexivity|apply white_no_quote, Hwv].
    - unfold P. rewrite !sapp_assoc. reflexivity.
    - unfold n1. rewrite !slength_app. lia. }
  rewrite Hqs.
  assert (Hqe : find P quote (size_succ (Some n2)) = Some (S n2 + String.length v)).
  { cbn [size_succ].
    rewrite (find_at P (pre ++ quoted k ++ wc ++ String ":" (wv ++ quote))
               (v ++ String quote_char rest) quote (S n2)).
    - unfold quote. rewrite (find0_char quote_char v rest Hv). reflexivity.
    - unfold P, quote. rewrite !sapp_assoc. cbn [append]. rewrite !sapp_assoc. reflexivity.
    - unfold n2, n1, quote. rewrite !slength_app. cbn [String.length].
      rewrite !slength_app. cbn [String.length]. lia. }
  rewrite Hqe.
  f_equal.
  apply (substr_at P (pre ++ quoted k ++ wc ++ String ":" (wv ++ quote))
           v (String quote_char rest)).
  - unfold P, quote. rewrite !sapp_assoc. cbn [append]. rewrite !sapp_assoc. reflexivity.
  - unfold n2, n1, quote. rewrite !slength_app. cbn [String.length].
    rewrite !slength_app. cbn [String.length]. lia.
  - lia.
Qed.

Variable k : string.
Hypothesis k_name_like : name_like k.

Lemma option_map_add_none (n : nat) (o : option nat) :
  o = None -> option_map (Nat.add n) o = None.
Proof. intros ->. reflexivity. Qed.

Lemma find_members_none (t : string) (ms : list Member) :
  no_quote t = true ->
  Forall (plain_member_for k) ms ->
  lookup k (string_fields ms) = None ->
  find0 (quoted k) (members_text ms ++ t) = None.
Proof.
  intros Ht Hall. induction Hall as [|m rest Hm Hrest IH]; intros Hl.
  - simpl. apply find0_quoted_none. exact Ht.
  - assert (Hne : String.eqb k (m_key m) = false /\ lookup k (string_fields rest) = None).
    { cbn [string_fields] in Hl. destruct Hm as (_ & _ & Hval).
      destruct (m_value m) as [v|b].
      - cbn [lookup] in Hl. destruct (String.eqb k (m_key m)); [discriminate Hl|].
        split; [reflexivity|exact Hl].
      - split; [apply Hval|exact Hl]. }
    destruct Hne as [Hne Hl'].
    rewrite (find0_skip_member k m rest t k_name_like Ht Hm Hne Hrest).
    destruct rest as [|m' rest]; [reflexivity|].
    rewrite (IH Hl'). reflexivity.
Qed.

Lemma find_members_some (t : string) (ms : list Member) (v : string) :
  no_quote t = true ->
  Forall (plain_member_for k) ms ->
  lookup k (string_fields ms) = Some v ->
  exists pre wc wv R,
    members_text ms ++ t
      = pre ++ quoted k ++ wc
          ++ String ":" (wv ++ String quote_char (v ++ String quote_char R)) /\
    white wc = true /\ white wv = true /\
    find0 (quoted k) (members_text ms ++ t) = Some (String.length pre).
Proof.
  intros Ht Hall. induction Hall as [|m rest Hm Hrest IH]; intros Hl.
  - discriminate Hl.
  - destruct (String.eqb k (m_key m)) eqn:He.
    + apply String.eqb_eq in He.
      pose proof Hm as ((Hwk & Hwc & Hwv & Hwe) & Hkey & Hval).
      cbn [string_fields] in Hl.
      destruct (m_value m) as [v'|b] eqn:Hmv.
      * cbn [lookup] in Hl. rewrite He, String.eqb_refl in Hl. injection Hl as ->.
        exists (ws_key m), (ws_colon m), (ws_value m), (ws_end m ++ members_tail rest t).
        split; [|split; [exact Hwc|split; [exact Hwv|]]].
        -- rewrite members_text_cons. unfold after_key. rewrite Hmv, <- He.
           unfold value_text, quoted, quote. rewrite !sapp_assoc. cbn [append].
           rewrite ?sapp_assoc. reflexivity.
        -- rewrite (find0_members_key k m rest t Hwk), <- He.
           destruct k_name_like as (Hkq & _).
           rewrite (find0_quoted_segment k k _ Hkq Hkq), String.eqb_refl.
           cbn [option_map]. f_equal. lia.
      * destruct Hval as [_ Hnk]. rewrite He, String.eqb_refl in Hnk. discriminate Hnk.
    + assert (Hl' : lookup k (string_fields rest) = Some v).
      { cbn [string_fields] in Hl. destruct (m_value m) as [v'|b]; [|exact Hl].
        cbn [lookup] in Hl. rewrite He in Hl. exact Hl. }
      rewrite (find0_skip_member k m rest t k_name_like Ht Hm He Hrest).
      destruct rest as [|m' rest]; [discriminate Hl'|].
      destruct (IH Hl') as (pre & wc & wv & R & Htext & Hwc & Hwv & Hfind).
      exists (member_text m ++ "," ++ pre), wc, wv, R.
      split; [|split; [exact Hwc|split; [exact Hwv|]]].
      * change (members_text (m :: m' :: rest))
          with (member_text m ++ "," ++ members_text (m' :: rest)).
        rewrite !sapp_assoc, Htext. reflexivity.
      * rewrite Hfind. cbn [option_map]. f_equal.
        rewrite !slength_app. cbn [String.length]. lia.
Qed.

Lemma object_text_members (lead : string) (ms : list Member) :
  json_object_text lead ms = ("{" ++ lead) ++ members_text ms ++ "}".
Proof. unfold json_object_text. rewrite !sapp_assoc. reflexivity. Qed.

Lemma members_find_none (lead : string) (ms : list Member) :
  white lead = true ->
  Forall (plain_member_for k) ms ->
  lookup k (string_fields ms) = None ->
  find (json_object_text lead ms) (quoted k) (Some 0) = None.
Proof.
  intros Hlead Hall Hl. rewrite find_from_start, object_text_members.
  rewrite (find0_quoted_plain k ("{" ++ lead)).
  - rewrite (find_members_none "}" ms eq_refl Hall Hl). reflexivity.
  - apply no_quote_app; [reflexivity|apply white_no_quote, Hlead].
Qed.

Lemma members_find_some (lead : string) (ms : list Member) (v : string) :
  white lead = true ->
  Forall (plain_member_for k) ms ->
  no_quote v = true ->
  lookup k (string_fields ms) = Some v ->
  exists pos,
    find (json_object_text lead ms) (quoted k) (Some 0) = Some pos /\
    quoted_value_after (json_object_text lead ms) pos = Some v.
Proof.
  intros Hlead Hall Hv Hl.
  destruct (find_members_some "}" ms v eq_refl Hall Hl)
    as (pre & wc & wv & R & Htext & Hwc & Hwv & Hfind).
  exists (String.length (("{" ++ lead) ++ pre)). split.
  - rewrite find_from_start, object_text_members.
    rewrite (find0_quoted_plain k ("{" ++ lead)).
    + rewrite Hfind. cbn [option_map]. rewrite !slength_app. reflexivity.
    + apply no_quote_app; [reflexivity|apply white_no_quote, Hlead].
  - rewrite object_text_members, Htext.
    destruct k_name_like as (_ & Hcolon & _).
    rewrite <- (quoted_value_after_spaced (("{" ++ lead) ++ pre) k wc wv v R
                  Hcolon Hwc Hwv Hv).
    rewrite !sapp_assoc. reflexivity.
Qed.

End SpacedObjects.

Lemma string_fields_plain (k : string) (ms : list Member) (v : string) :
  Forall plain_member ms -> lookup k (string_fields ms) = Some v -> no_quote v = true.
Proof.
  intros Hall. induction Hall as [|m rest (_ & _ & Hval) _ IH]; intros Hl.
  - discriminate Hl.
  - cbn [string_fields] in Hl. destruct (m_value m) as [v'|b]; [|exact (IH Hl)].
    cbn [lookup] in Hl. destruct (String.eqb k (m_key m)); [|exact (IH Hl)].
    injection Hl as <-. apply Hval.
Qed.

Lemma key_names_name_like (k : string) : In k key_names -> name_like k.
Proof.
  intros H. unfold key_names in H. simpl in H.
  repeat (destruct H as [<-|H]; [repeat split; reflexivity|]).
  contradiction.
Qed.

Lemma plain_member_for_name (k : string) (ms : list Member) :
  In k key_names -> Forall plain_member ms -> Forall (plain_member_for k) ms.
Proof.
  intros Hk Hall. eapply Forall_impl; [|exact Hall].
  intros m (Hw & Hkey & Hval). split; [exact Hw|split; [exact Hkey|]].
  destruct (m_value m) as [v|b]; destruct Hval as [Hq Hn]; split; try exact Hq.
  - apply String.eqb_neq. intros ->. apply Hn. exact Hk.
  - apply String.eqb_neq. intros ->. apply Hn. exact Hk.
Qed.

(** On the text of a flat object the router reads, for a field with two
    names, the string under the first name if there is one, else the
    string under the second. *)
Lemma field_value_members (k1 k2 lead : string) (ms : list Member) :
  In k1 key_names -> In k2 key_names -> white lead = true -> Forall plain_member ms ->
  field_value (json_object_text lead ms) k1 k2 = lookup_either k1 k2 (string_fields ms).
Proof.
  intros H1 H2 Hlead Hall. unfold field_value, find_either, lookup_either.
  destruct (lookup k1 (string_fields ms)) as [v|] eqn:Hl1.
  - destruct (members_find_some k1 (key_names_name_like k1 H1) lead ms v Hlead
                (plain_member_for_name k1 ms H1 Hall)
                (string_fields_plain k1 ms v Hall Hl1) Hl1) as (pos & Hf & Hq).
    rewrite Hf. exact Hq.
  - rewrite (members_find_none k1 (key_names_name_like k1 H1) lead ms Hlead
               (plain_member_for_name k1 ms H1 Hall) Hl1).
    destruct (lookup k2 (string_fields ms)) as [v|] eqn:Hl2.
    + destruct (members_find_some k2 (key_names_name_like k2 H2) lead ms v Hlead
                  (plain_member_for_name k2 ms H2 Hall)
                  (string_fields_plain k2 ms v Hall Hl2) Hl2) as (pos & Hf & Hq).
      rewrite Hf. exact Hq.
    + rewrite (members_find_none k2 (key_names_name_like k2 H2) lead ms Hlead
                 (plain_member_for_name k2 ms H2 Hall) Hl2).
      reflexivity.
Qed.

Lemma parse_members (lead : string) (ms : list Member) :
  white lead = true ->
  Forall plain_member ms ->
  Plugin.parse_start_conversion (json_object_text lead ms) = fields_read (string_fields ms).
Proof.
  intros Hlead Hall. rewrite parse_start_conversion_fields. unfold fields_read.
  rewrite !field_value_members
    by (try exact Hall; try exact Hlead; unfold key_names; simpl; tauto).
  reflexivity.
Qed.

Lemma sapp_nil_r (a : string) : (a ++ "")%string = a.
Proof. induction a as [|x a IH]; simpl; [reflexivity|]. rewrite IH. reflexivity. Qed.

Lemma member_text_compact (kv : string * string) :
  member_text (compact kv) = field_text kv.
Proof.
  unfold member_text, compact, field_text.
  cbn [m_key m_value ws_key ws_colon ws_value ws_end value_text append].
  rewrite sapp_nil_r. reflexivity.
Qed.

(** The compact text of the fields is the text of the members written
    without white space. *)
Lemma object_text_compact (fs : list (string * string)) :
  object_text fs = json_object_text EmptyString (map compact fs) /\
  string_fields (map compact fs) = fs.
Proof.
  split.
  - unfold object_text, json_object_text. cbn [append]. f_equal. f_equal.
    induction fs as [|kv fs IH]; [reflexivity|].
    cbn [map fields_text members_text]. rewrite member_text_compact, IH.
    destruct fs as [|kv' fs]; reflexivity.
  - induction fs as [|[k1 v1] fs IH]; [reflexivity|].
    cbn [map string_fields compact m_value m_key fst snd]. rewrite IH. reflexivity.
Qed.

Lemma SendError_no_post (server : bool) (jobId error : string) :
  existsb is_post (Plugin.SendError server jobId error) = false.
Proof. destruct server; reflexivity. Qed.




(* ================================================================== *)
(** * Escaping *)

Lemma decode_escape_char (c : ascii) (t : string) :
  Nat.ltb (nat_of_ascii c) 128 = true ->
  JsonString.decode (escape_char c ++ t)
  = JsonString.prepend (String c EmptyString) (JsonString.decode t).
Proof.
  destruct c as [[|] [|] [|] [|] [|] [|] [|] [|]]; intros H;
    try discriminate H; reflexivity.
Qed.

(** For texts of characters below 128 the escaping is undone by the
    decoder: quotes, backslashes and all control characters included. *)
Lemma EscapeJson_roundtrip_seven_bit (s : string) :
  seven_bit s = true -> JsonString.decode (EscapeJson s) = Some s.
Proof.
  induction s as [|c s IH]; intros H; [reflexivity|].
  cbn [seven_bit] in H. apply andb_true_iff in H. destruct H as [Hc Hs].
  cbn [EscapeJson]. rewrite (decode_escape_char c _ Hc), (IH Hs). reflexivity.
Qed.

(** C4 at a text with bytes above 127.  [char] is signed, so the two bytes
    of the accented letter compare below [0x20] and are written as a
    backslash, the letter u and the eight hexadecimal digits of the
    negative [int]; the decoder does not give the text back. *)
Theorem EscapeJson_breaks_bytes_above_127 :
  EscapeJson cafe = ("Caf\" ++ "uffffffc3\" ++ "uffffffa9")%string /\
  JsonString.decode (EscapeJson cafe) <> Some cafe.
Proof.
  split; [vm_compute; reflexivity|].
  vm_compute. intros H. discriminate H.
Qed.

(* ================================================================== *)
(** * Runs on concrete inputs *)

(** A conversion that succeeds: the progress events 20, 30, 50, 70 and
    100, then the completion event. *)
Example successful_conversion_events :
  Plugin.ConversionCommand_Execute true healthy_host "J1" "a.pln" "a.ifc" initial_state
  = (true, initial_state,
     [ProgressEvent "J1" 20 "processing" "Closing current project";
      ProgressEvent "J1" 30 "processing" "Opening .pln project";
      ProgressEvent "J1" 50 "processing" "Preparing IFC export";
      ProgressEvent "J1" 70 "processing" "Exporting to IFC";
      ProgressEvent "J1" 100 "completed" "Conversion completed successfully";
      CompletedEvent "J1" "a.ifc"]).
Proof. reflexivity. Qed.

(** A second start while J1 runs: refused, with the events for J2 only. *)
Example busy_start_events :
  Plugin.ConversionCommand_Execute true healthy_host "J2" "b.pln" "b.ifc"
    (running_state "J1")
  = (false, running_state "J1",
     [ProgressEvent "J2" 0 "error" "Error: Another conversion is already in progress";
      ErrorEvent "J2" "Conversion failed"]).
Proof. reflexivity. Qed.

(** The text of an error event. *)
Example error_event_text :
  message_text (ErrorEvent "J1" "Conversion failed")
  = ("{" ++ q "type" ++ ":" ++ q "error" ++ "," ++ q "jobId" ++ ":" ++ q "J1" ++ ","
      ++ q "error" ++ ":" ++ q "Conversion failed" ++ ","
      ++ q "status" ++ ":" ++ q "error" ++ "}")%string.
Proof. reflexivity. Qed.

(** Control characters below 128 are written with four digits. *)
Example escape_unit_separator :
  EscapeJson (String (ascii_of_nat 31) EmptyString) = ("\" ++ "u001f")%string.
Proof. reflexivity. Qed.

(** [cancel_job] for the running job on the network thread. *)
Example cancel_job_while_running :
  run (Plugin.HandleWebSocketCommand true answering_host
         "cancel_job" "J1" EmptyString) (running_state "J1")
  = ([Plugin.Broadcast (ProgressEvent "J1" 0 "cancelled" "Conversion cancelled")],
     set_cancel true (running_state "J1"), []).
Proof. reflexivity. Qed.

(** A start request well read, on a host that refuses the connection:
    the request is not written, the failure is the only effect. *)
Example refused_connection_posts_nothing :
  Plugin.start_conversion true refusing_host "J1" (object_text legacy_names_request)
  = [Plugin.Broadcast
       (ErrorEvent "J1" "HTTP request failed: connect: Connection refused")].
Proof. vm_compute. reflexivity. Qed.

(** The same request on a host that answers: the request is written. *)
Example answered_request_is_posted :
  Plugin.start_conversion true answering_host "J1" (object_text legacy_names_request)
  = [Plugin.HttpPost 19723
       (Plugin.requestJson "ConvertPlnToIfc" "J1" "plnPath" "C:/in.pln" "C:/out.ifc")].
Proof. vm_compute. reflexivity. Qed.

(** The text of the spaced request, and what the router reads from it. *)
Example spaced_request_text :
  json_object_text " " spaced_request
  = ("{ " ++ q "command" ++ ": " ++ q "start_conversion" ++ ", "
      ++ q "jobId" ++ " : " ++ q "J1" ++ ", "
      ++ q "attempt" ++ ": 2 ,"
      ++ String (ascii_of_nat 10) "  " ++ q "pln_path" ++ ": " ++ q "C:/in.pln" ++ ","
      ++ String (ascii_of_nat 10) "  " ++ q "output_path" ++ ": " ++ q "C:/out.ifc"
      ++ String (ascii_of_nat 10) "}")%string.
Proof. vm_compute. reflexivity. Qed.

(** A frame with the paths under the alternate names and spaces after
    the colons. *)
Example spaced_frame_is_read :
  Plugin.parse_start_conversion
    ("{" ++ q "command" ++ ": " ++ q "start_conversion" ++ ", "
      ++ q "jobId" ++ ": " ++ q "J1" ++ ", "
      ++ q "ifc_path" ++ ": " ++ q "C:/in.ifc" ++ ", "
      ++ q "output_path" ++ ": " ++ q "C:/out.pln" ++ "}")%string
  = ("C:/in.ifc", "C:/out.pln", false).
Proof. vm_compute. reflexivity. Qed.

(* ================================================================== *)
(** * More on the conversions *)

(** One more case of the host's answers, taken where the program asks. *)
Ltac step_env :=
  cbn;
  first
    [ match goal with
      | |- context [(?e =? NoError)%Z] => destruct (e =? NoError)%Z
      | |- context [Nat.eqb ?n 0] => is_var n; destruct n
      end
    | match goal with
      | |- context [match ?x with _ => _ end] =>
          is_var x;
          lazymatch type of x with
          | Outcome _ => destruct x
          | nat => destruct x
          | prod _ _ => destruct x
          | bool => destruct x
          | unit => destruct x
          end
      end ].

Ltac split_env env :=
  destruct env;
  cbn [fileStatus closeBefore openProject translators prepareSave saveProject
       closeAfter newProject];
  repeat step_env.

Lemma pln_try_result (env : HostEnv) (cb : bool) (plnPath outputPath : string)
  (s : HandlerState) :
  result_of (run (ConversionHandler.pln_try env cb plnPath outputPath) s)
  = pln_host_ok env.
Proof.
  unfold ConversionHandler.pln_try, ConversionHandler.outer_catch,
    ConversionHandler.close_before, ConversionHandler.onProgress, emit, pln_host_ok,
    returned_ok, returned.
  split_env env; reflexivity.
Qed.

Lemma ifc_try_result (env : HostEnv) (cb : bool) (ifcPath outputPath : string)
  (s : HandlerState) :
  result_of (run (ConversionHandler.ifc_try env cb ifcPath outputPath) s)
  = ifc_host_ok env.
Proof.
  unfold ConversionHandler.ifc_try, ConversionHandler.outer_catch,
    ConversionHandler.close_before, ConversionHandler.onProgress, emit, ifc_host_ok,
    returned_ok, returned.
  split_env env; reflexivity.
Qed.

(** X1.  When a conversion is admitted, its result is [true] exactly when
    the input file is accessible, the project opens, (for PLN to IFC) a
    translator exists, the output location can be built and the save
    returns [NoError].  The job id, the paths, the presence of a callback
    and the outcomes of the close before opening, of the close of the
    cleanup and of the blank template have no influence on it. *)
Theorem conversion_result_depends_on_host_answers :
  forall env jobId inputPath outputPath cb s,
    s_conversionInProgress s = false ->
    result_of (run (ConversionHandler.ConvertPlnToIfc env jobId inputPath outputPath cb) s)
      = pln_host_ok env /\
    result_of (run (ConversionHandler.ConvertIfcToPln env jobId inputPath outputPath cb) s)
      = ifc_host_ok env.
Proof.
  intros env jobId inputPath outputPath cb s H. split.
  - rewrite ConvertPlnToIfc_from_idle by assumption. apply pln_try_result.
  - rewrite ConvertIfcToPln_from_idle by assumption. apply ifc_try_result.
Qed.

Lemma conversion_result_depends_on_host_answers_witness :
  result_of (run (ConversionHandler.ConvertPlnToIfc missing_file_host "J1" "a.pln" "a.ifc"
                    true) initial_state) = false.
Proof.
  apply (proj1 (conversion_result_depends_on_host_answers missing_file_host
                  "J1" "a.pln" "a.ifc" true initial_state eq_refl)).
Defined.

Lemma percents_app (l1 l2 : list Obs) : percents (l1 ++ l2) = percents l1 ++ percents l2.
Proof. unfold percents. apply flat_map_app. Qed.

Ltac pick_prefix :=
  first [ exists 0; split; [lia|reflexivity]
        | exists 1; split; [lia|reflexivity]
        | exists 2; split; [lia|reflexivity]
        | exists 3; split; [lia|reflexivity]
        | exists 4; split; [lia|reflexivity] ].

Lemma pln_try_percents (env : HostEnv) (plnPath outputPath : string) (s : HandlerState) :
  let ps := percents (log_of (run (ConversionHandler.pln_try env true plnPath outputPath) s)) in
  if pln_host_ok env then ps = [20; 30; 50; 70; 100]%Z
  else exists k, k <= 4 /\ ps = (firstn k [20; 30; 50; 70] ++ [0])%Z.
Proof.
  unfold ConversionHandler.pln_try, ConversionHandler.outer_catch,
    ConversionHandler.close_before, ConversionHandler.onProgress, emit, pln_host_ok,
    returned_ok, returned.
  split_env env; try reflexivity; pick_prefix.
Qed.

Lemma ifc_try_percents (env : HostEnv) (ifcPath outputPath : string) (s : HandlerState) :
  let ps := percents (log_of (run (ConversionHandler.ifc_try env true ifcPath outputPath) s)) in
  if ifc_host_ok env then ps = [20; 40; 70; 100]%Z
  else exists k, k <= 3 /\ ps = (firstn k [20; 40; 70] ++ [0])%Z.
Proof.
  unfold ConversionHandler.ifc_try, ConversionHandler.outer_catch,
    ConversionHandler.close_before, ConversionHandler.onProgress, emit, ifc_host_ok,
    returned_ok, returned.
  split_env env; try reflexivity; pick_prefix.
Qed.

(** X2.  The percentages an admitted conversion reports.  A conversion
    that succeeds reports 20, 30, 50, 70, 100 (PLN to IFC) or 20, 40, 70,
    100 (IFC to PLN) and nothing else.  A conversion that fails reports a
    beginning of 20, 30, 50, 70 (or of 20, 40, 70) followed by one 0, which
    is its last report: the percentages grow until a failure sends them
    back to 0, and 100 is never reported by a failed conversion. *)
Theorem progress_reports_of_a_conversion :
  forall env jobId inputPath outputPath s,
    s_conversionInProgress s = false ->
    (let ps := percents (log_of (run (ConversionHandler.ConvertPlnToIfc
                                        env jobId inputPath outputPath true) s)) in
     if pln_host_ok env then ps = [20; 30; 50; 70; 100]%Z
     else exists k, k <= 4 /\ ps = (firstn k [20; 30; 50; 70] ++ [0])%Z) /\
    (let ps := percents (log_of (run (ConversionHandler.ConvertIfcToPln
                                        env jobId inputPath outputPath true) s)) in
     if ifc_host_ok env then ps = [20; 40; 70; 100]%Z
     else exists k, k <= 3 /\ ps = (firstn k [20; 40; 70] ++ [0])%Z).
Proof.
  intros env jobId inputPath outputPath s H. split.
  - rewrite ConvertPlnToIfc_from_idle by assumption.
    unfold log_of at 1. cbn [snd]. rewrite percents_app.
    change (percents (cleanup_calls env)) with (@nil Z). rewrite app_nil_r.
    apply pln_try_percents.
  - rewrite ConvertIfcToPln_from_idle by assumption.
    unfold log_of at 1. cbn [snd]. rewrite percents_app.
    change (percents (cleanup_calls env)) with (@nil Z). rewrite app_nil_r.
    apply ifc_try_percents.
Qed.

Lemma progress_reports_of_a_conversion_witness :
  percents (log_of (run (ConversionHandler.ConvertPlnToIfc healthy_host "J1" "a.pln" "a.ifc"
                           true) initial_state)) = [20; 30; 50; 70; 100]%Z.
Proof.
  apply (proj1 (progress_reports_of_a_conversion healthy_host "J1" "a.pln" "a.ifc"
                  initial_state eq_refl)).
Defined.

Ltac in_cases H :=
  cbn in H;
  repeat match type of H with
         | _ \/ _ => destruct H as [H|H]
         | False => contradiction
         | _ = _ => first [discriminate H | (inversion H; subst; clear H)]
         end.

Lemma pln_try_calls (env : HostEnv) (cb : bool) (plnPath outputPath : string)
  (s : HandlerState) (api : ApiCall) (r : Outcome GSErrCode) :
  In (Call api r) (log_of (run (ConversionHandler.pln_try env cb plnPath outputPath) s)) ->
  match api with
  | ProjectOperation_Open _ path =>
      path = plnPath /\ returned_ok (fileStatus env) = true
  | ProjectOperation_Save _ path =>
      path = outputPath /\ returned_ok (fileStatus env) = true /\
      returned_ok (openProject env) = true
  | ProjectOperation_Close => returned_ok (fileStatus env) = true
  | ProjectOperation_NewProject => False
  end.
Proof.
  unfold ConversionHandler.pln_try, ConversionHandler.outer_catch,
    ConversionHandler.close_before, ConversionHandler.onProgress, emit,
    returned_ok.
  split_env env; intros H; in_cases H; cbn; repeat split; reflexivity.
Qed.

Lemma ifc_try_calls (env : HostEnv) (cb : bool) (ifcPath outputPath : string)
  (s : HandlerState) (api : ApiCall) (r : Outcome GSErrCode) :
  In (Call api r) (log_of (run (ConversionHandler.ifc_try env cb ifcPath outputPath) s)) ->
  match api with
  | ProjectOperation_Open _ path =>
      path = ifcPath /\ returned_ok (fileStatus env) = true
  | ProjectOperation_Save _ path =>
      path = outputPath /\ returned_ok (fileStatus env) = true /\
      returned_ok (openProject env) = true
  | ProjectOperation_Close => returned_ok (fileStatus env) = true
  | ProjectOperation_NewProject => False
  end.
Proof.
  unfold ConversionHandler.ifc_try, ConversionHandler.outer_catch,
    ConversionHandler.close_before, ConversionHandler.onProgress, emit,
    returned_ok.
  split_env env; intros H; in_cases H; cbn; repeat split; reflexivity.
Qed.

(** X3.  What a conversion asks of the host.  The only file an admitted
    conversion asks the host to open is its input path, and only after the
    input file was found accessible; the only path it asks the host to save
    to is its output path, and only after the input project was opened with
    [NoError].  No file is written when the file check or the open fails. *)
Theorem conversion_saves_only_after_opening :
  forall env jobId inputPath outputPath cb s fileType path r,
    s_conversionInProgress s = false ->
    (In (Call (ProjectOperation_Open fileType path) r)
        (log_of (run (ConversionHandler.ConvertPlnToIfc env jobId inputPath outputPath cb) s))
     \/ In (Call (ProjectOperation_Open fileType path) r)
        (log_of (run (ConversionHandler.ConvertIfcToPln env jobId inputPath outputPath cb) s))
     -> path = inputPath /\ returned_ok (fileStatus env) = true) /\
    (In (Call (ProjectOperation_Save fileType path) r)
        (log_of (run (ConversionHandler.ConvertPlnToIfc env jobId inputPath outputPath cb) s))
     \/ In (Call (ProjectOperation_Save fileType path) r)
        (log_of (run (ConversionHandler.ConvertIfcToPln env jobId inputPath outputPath cb) s))
     -> path = outputPath /\ returned_ok (fileStatus env) = true /\
        returned_ok (openProject env) = true).
Proof.
  intros env jobId inputPath outputPath cb s fileType path r H.
  rewrite ConvertPlnToIfc_from_idle, ConvertIfcToPln_from_idle by assumption.
  unfold log_of at 1 3 5 7. cbn [snd].
  split; intros [Hin|Hin]; apply in_app_or in Hin;
    destruct Hin as [Hin|Hin]; try (in_cases Hin; fail).
  - exact (pln_try_calls env cb inputPath outputPath s _ r Hin).
  - exact (ifc_try_calls env cb inputPath outputPath s _ r Hin).
  - exact (pln_try_calls env cb inputPath outputPath s _ r Hin).
  - exact (ifc_try_calls env cb inputPath outputPath s _ r Hin).
Qed.

Lemma conversion_saves_only_after_opening_witness :
  "a.ifc" = "a.ifc" /\ returned_ok (fileStatus healthy_host) = true /\
  returned_ok (openProject healthy_host) = true.
Proof.
  apply (proj2 (conversion_saves_only_after_opening healthy_host "J1" "a.pln" "a.ifc"
                  true initial_state "APIFType_IfcFile" "a.ifc" (Returns NoError)
                  eq_refl)).
  left. cbn. tauto.
Defined.

Lemma serve_from_idle (r : Request) (s : HandlerState) :
  s_conversionInProgress s = false ->
  run (serve r) s = (result_of (alone r), initial_state, log_of (alone r)).
Proof.
  intros H. unfold alone. destruct r; unfold serve.
  - rewrite (ConvertPlnToIfc_from_idle env jobId plnPath outputPath cb s H).
    rewrite (ConvertPlnToIfc_from_idle env jobId plnPath outputPath cb initial_state eq_refl).
    destruct (emits_only_any_state _ s initial_state
                (pln_try_emits_only env cb plnPath outputPath)) as [Hr Hl].
    unfold result_of at 3, log_of at 3. cbn [fst snd]. rewrite Hr, Hl. reflexivity.
  - rewrite (ConvertIfcToPln_from_idle env jobId ifcPath outputPath cb s H).
    rewrite (ConvertIfcToPln_from_idle env jobId ifcPath outputPath cb initial_state eq_refl).
    destruct (emits_only_any_state _ s initial_state
                (ifc_try_emits_only env cb ifcPath outputPath)) as [Hr Hl].
    unfold result_of at 3, log_of at 3. cbn [fst snd]. rewrite Hr, Hl. reflexivity.
Qed.

Lemma serve_all_from_idle (rs : list Request) (s : HandlerState) :
  s_conversionInProgress s = false ->
  run (serve_all rs) s =
  (map (fun r => result_of (alone r)) rs,
   match rs with [] => s | _ :: _ => initial_state end,
   concat (map (fun r => log_of (alone r)) rs)).
Proof.
  revert s. induction rs as [|r rs IH]; intros s H; [reflexivity|].
  cbn [serve_all]. rewrite run_bind, (serve_from_idle r s H), run_bind.
  rewrite (IH initial_state eq_refl). cbn [run map concat].
  rewrite app_nil_r. destruct rs; reflexivity.
Qed.

(** X4.  Conversions served one after the other.  From any state in which
    no conversion is in progress, each request of a sequence is admitted
    and behaves exactly as if it were served alone from the initial state:
    the results and the observations are those of the single runs, in
    order, and the guard is Idle again at the end.  No request of the
    sequence is refused because of an earlier one. *)
Theorem consecutive_conversions_are_independent :
  forall rs s,
    s_conversionInProgress s = false ->
    result_of (run (serve_all rs) s) = map (fun r => result_of (alone r)) rs /\
    log_of (run (serve_all rs) s) = concat (map (fun r => log_of (alone r)) rs) /\
    s_conversionInProgress (state_of (run (serve_all rs) s)) = false /\
    (rs <> [] -> state_of (run (serve_all rs) s) = initial_state).
Proof.
  intros rs s H. rewrite (serve_all_from_idle rs s H).
  unfold result_of, log_of, state_of. cbn [fst snd].
  repeat split.
  - destruct rs; [exact H|reflexivity].
  - intros Hn. destruct rs; [contradiction Hn; reflexivity|reflexivity].
Qed.

Lemma consecutive_conversions_are_independent_witness :
  result_of (run (serve_all [PlnToIfc missing_file_host "J1" "a.pln" "a.ifc" true;
                             IfcToPln healthy_host "J2" "b.ifc" "b.pln" true])
                 initial_state) = [false; true].
Proof.
  apply (proj1 (consecutive_conversions_are_independent
                  [PlnToIfc missing_file_host "J1" "a.pln" "a.ifc" true;
                   IfcToPln healthy_host "J2" "b.ifc" "b.pln" true]
                  initial_state eq_refl)).
Defined.

(** X5.  [Cleanup()] frees the guard.  From any state, also one in which a
    conversion is flagged and a cancel is pending, and whatever the close
    of the project answers, [Cleanup] leaves the three flags as at start-up;
    a start request served after it is admitted and behaves as if served
    alone from the initial state. *)
Theorem Cleanup_frees_the_guard :
  forall closeResult s r,
    state_of (run (ConversionHandler.Cleanup closeResult) s) = initial_state /\
    result_of (run (bind (ConversionHandler.Cleanup closeResult) (fun _ => serve r)) s)
      = result_of (alone r) /\
    log_of (run (bind (ConversionHandler.Cleanup closeResult) (fun _ => serve r)) s)
      = Call ProjectOperation_Close closeResult :: log_of (alone r).
Proof.
  intros closeResult s r. split; [reflexivity|].
  rewrite run_bind.
  change (run (ConversionHandler.Cleanup closeResult) s)
    with (tt, initial_state, [Call ProjectOperation_Close closeResult]).
  cbn iota beta. unfold alone. destruct (run (serve r) initial_state) as [[b s2] l2].
  split; reflexivity.
Qed.

(* ================================================================== *)
(** * More on the add-on commands and the router *)

Lemma progress_lambda_of (server : bool) (jobId : string) (log : list Obs) :
  Forall (progress_of jobId) (flat_map (Plugin.progress_lambda server jobId) log).
Proof.
  induction log as [|o log IH]; simpl; [constructor|].
  apply Forall_app. split; [|exact IH].
  destruct o; simpl; try constructor.
  destruct server; constructor; [split; reflexivity|constructor].
Qed.

Lemma execute_events (server success : bool) (jobId outputPath : string) (log : list Obs) :
  let evs := flat_map (Plugin.progress_lambda server jobId) log
               ++ Plugin.final_event server success jobId outputPath in
  if server then
    exists ps, evs = ps ++ [closing_event success jobId outputPath] /\
               Forall (progress_of jobId) ps
  else evs = [].
Proof.
  destruct server.
  - exists (flat_map (Plugin.progress_lambda true jobId) log). split.
    + destruct success; reflexivity.
    + apply progress_lambda_of.
  - cbn zeta. destruct success; cbn [Plugin.final_event andb negb]; rewrite app_nil_r;
      induction log as [|o log IH]; simpl; auto; destruct o; simpl; exact IH.
Qed.

(** X6.  The events of an add-on command.  While the server exists, every
    run of [ConversionCommand::Execute] or [ConvertIfcToPlnCommand::Execute],
    admitted or refused, broadcasts progress events followed by exactly one
    closing event: the completion event with the output path when the
    conversion succeeded, the error event otherwise.  Every event carries
    the job id of the command.  Without a server nothing is broadcast, and
    the result and the handler state are the same as with one. *)
Theorem command_events_end_with_one_closing_event :
  forall server env jobId inputPath outputPath s,
    (let '(success, s', evs) :=
       Plugin.ConversionCommand_Execute server env jobId inputPath outputPath s in
     (if server then
        exists ps, evs = ps ++ [closing_event success jobId outputPath] /\
                   Forall (progress_of jobId) ps
      else evs = []) /\
     fst (Plugin.ConversionCommand_Execute true env jobId inputPath outputPath s)
       = (success, s')) /\
    (let '(success, s', evs) :=
       Plugin.ConvertIfcToPlnCommand_Execute server env jobId inputPath outputPath s in
     (if server then
        exists ps, evs = ps ++ [closing_event success jobId outputPath] /\
                   Forall (progress_of jobId) ps
      else evs = []) /\
     fst (Plugin.ConvertIfcToPlnCommand_Execute true env jobId inputPath outputPath s)
       = (success, s')).
Proof.
  intros server env jobId inputPath outputPath s.
  unfold Plugin.ConversionCommand_Execute, Plugin.ConvertIfcToPlnCommand_Execute.
  split.
  - destruct (run (ConversionHandler.ConvertPlnToIfc env jobId inputPath outputPath true) s)
      as [[success s'] log].
    split; [apply execute_events|reflexivity].
  - destruct (run (ConversionHandler.ConvertIfcToPln env jobId inputPath outputPath true) s)
      as [[success s'] log].
    split; [apply execute_events|reflexivity].
Qed.

(** X7.  [get_status] is answered in every state and changes nothing.
    With a server the answer is one progress event for the id asked about,
    with percentage 0 and message [Plugin ready]; its status is
    [processing] exactly when a conversion is in progress under that very
    id, and [idle] otherwise, also while a conversion with another id
    runs.  The three flags are left as they were. *)
Theorem get_status_reports_without_change :
  forall net jobId payload s,
    state_of (run (Plugin.HandleWebSocketCommand true net "get_status" jobId payload) s) = s /\
    (Running jobId s ->
     result_of (run (Plugin.HandleWebSocketCommand true net "get_status" jobId payload) s)
       = [Plugin.Broadcast (ProgressEvent jobId 0 "processing" "Plugin ready")]) /\
    (~ Running jobId s ->
     result_of (run (Plugin.HandleWebSocketCommand true net "get_status" jobId payload) s)
       = [Plugin.Broadcast (ProgressEvent jobId 0 "idle" "Plugin ready")]).
Proof.
  intros net jobId payload s.
  change (Plugin.HandleWebSocketCommand true net "get_status" jobId payload)
    with (bind (ConversionHandler.IsConversionInProgress jobId)
               (fun inProgress =>
                  Ret (Plugin.SendProgress true jobId 0
                         (if inProgress then "processing" else "idle") "Plugin ready"))).
  rewrite run_bind, IsConversionInProgress_run. cbn [run].
  unfold state_of, result_of, Running. cbn [fst snd].
  split; [reflexivity|]. split.
  - intros [Hi Hj]. rewrite Hi, Hj, String.eqb_refl. reflexivity.
  - intros Hn. destruct (s_conversionInProgress s); [|reflexivity].
    destruct (String.eqb_spec (s_currentJobId s) jobId) as [e|n]; [|reflexivity].
    contradiction Hn. split; [reflexivity|exact e].
Qed.

Lemma get_status_reports_without_change_witness :
  result_of (run (Plugin.HandleWebSocketCommand true answering_host
                    "get_status" "J2" EmptyString) (running_state "J1"))
  = [Plugin.Broadcast (ProgressEvent "J2" 0 "idle" "Plugin ready")].
Proof.
  apply (proj2 (proj2 (get_status_reports_without_change answering_host
                         "J2" EmptyString (running_state "J1")))).
  intros [_ H]. discriminate H.
Defined.

(** X8.  [cancel_job] answers only when it took effect.  When the id is
    the one of the conversion in progress, the cancel flag is set and (with
    a server) one progress event with status [cancelled] is broadcast for
    that id.  In every other case nothing is broadcast at all, not even an
    error event, and the flags are left as they were. *)
Theorem cancel_job_is_silent_when_refused :
  forall server net jobId payload s,
    (Running jobId s ->
     run (Plugin.HandleWebSocketCommand server net "cancel_job" jobId payload) s
       = (Plugin.SendProgress server jobId 0 "cancelled" "Conversion cancelled",
          set_cancel true s, [])) /\
    (~ Running jobId s ->
     run (Plugin.HandleWebSocketCommand server net "cancel_job" jobId payload) s
       = ([], s, [])).
Proof.
  intros server net jobId payload s.
  change (Plugin.HandleWebSocketCommand server net "cancel_job" jobId payload)
    with (bind (ConversionHandler.CancelConversion jobId)
               (fun cancelled =>
                  Ret (if cancelled
                       then Plugin.SendProgress server jobId 0 "cancelled"
                              "Conversion cancelled"
                       else []))).
  rewrite run_bind, CancelConversion_run. unfold Running. split.
  - intros [Hi Hj]. rewrite Hi, Hj, String.eqb_refl. reflexivity.
  - intros Hn. destruct (s_conversionInProgress s); [|reflexivity].
    destruct (String.eqb_spec (s_currentJobId s) jobId) as [e|n]; [|reflexivity].
    contradiction Hn. split; [reflexivity|exact e].
Qed.

Lemma cancel_job_is_silent_when_refused_witness :
  run (Plugin.HandleWebSocketCommand true answering_host
         "cancel_job" "J1" EmptyString) initial_state
  = ([], initial_state, []).
Proof.
  apply (proj2 (cancel_job_is_silent_when_refused true answering_host
                  "J1" EmptyString initial_state)).
  intros [H _]. discriminate H.
Defined.

Lemma IsConversionInProgress_only_cancel_stores (jobId : string) :
  only_cancel_stores (ConversionHandler.IsConversionInProgress jobId).
Proof.
  unfold ConversionHandler.IsConversionInProgress. simpl.
  intros [|]; simpl; [|exact I]. intros current. exact I.
Qed.

Lemma HandleWebSocketCommand_only_cancel_stores (server : bool) (net : Plugin.NetEnv)
  (command jobId payload : string) :
  only_cancel_stores (Plugin.HandleWebSocketCommand server net command jobId payload).
Proof.
  unfold Plugin.HandleWebSocketCommand.
  destruct (String.eqb command "start_conversion"); [exact I|].
  destruct (String.eqb command "cancel_job").
  { apply only_cancel_stores_bind; [apply CancelConversion_only_cancel_stores|].
    intros a. exact I. }
  destruct (String.eqb command "get_status").
  { destruct server; [|exact I].
    apply only_cancel_stores_bind; [apply IsConversionInProgress_only_cancel_stores|].
    intros a. exact I. }
  destruct (String.eqb command "load_ifc"); exact I.
Qed.

Lemma network_thread_only_cancel_stores (server : bool) (net : Plugin.NetEnv)
  (commands : list (string * string * string)) :
  only_cancel_stores (network_thread server net commands).
Proof.
  induction commands as [|[[command jobId] payload] rest IH];
    cbn [network_thread]; [exact I|].
  apply only_cancel_stores_bind; [apply HandleWebSocketCommand_only_cancel_stores|].
  intros e. apply only_cancel_stores_bind; [exact IH|].
  intros es. exact I.
Qed.

(** X9.  Nothing the router does on the network thread disturbs the host
    thread.  Whatever commands arrive (known or not, with any ids and
    payloads) and however their handling is interleaved with the steps of
    the requests the host thread serves, the host thread returns the same
    results and makes the same callbacks and host calls as when it runs
    alone; [s_conversionInProgress] and [s_currentJobId] end as they would
    have.  The router never writes these two flags. *)
Theorem router_never_disturbs_the_host_thread :
  forall server net commands rs sched s,
    res1 (interleave sched (serve_all rs) (network_thread server net commands) s [] [])
      = result_of (run (serve_all rs) s) /\
    log1 (interleave sched (serve_all rs) (network_thread server net commands) s [] [])
      = log_of (run (serve_all rs) s) /\
    agree (final (interleave sched (serve_all rs) (network_thread server net commands)
                    s [] []))
          (state_of (run (serve_all rs) s)).
Proof.
  intros server net commands rs sched s.
  apply (interleave_undisturbed sched (serve_all rs)
           (network_thread server net commands) s s [] []).
  - induction rs as [|r rs IH]; cbn [serve_all]; [exact I|].
    apply no_cancel_load_bind; [apply serve_no_cancel_load|].
    intros b. apply no_cancel_load_bind; [exact IH|]. intros bs. exact I.
  - apply network_thread_only_cancel_stores.
  - apply agree_refl.
Qed.

(* ================================================================== *)
(** * More on the reading of frames *)

Lemma lookup_value_plain_for (k k0 : string) (fs : list (string * string)) (v : string) :
  Forall (plain_for k0) fs -> lookup k fs = Some v -> no_quote v = true.
Proof.
  intros Hall. induction Hall as [|[k1 v1] rest (_ & Hv1 & _) _ IH]; intros Hl.
  - discriminate Hl.
  - cbn [lookup] in Hl. destruct (String.eqb k k1); [|exact (IH Hl)].
    injection Hl as <-. exact Hv1.
Qed.

(** The value read after the first occurrence of a quoted name, on the
    text of an object that is plain for that name. *)
Lemma first_value_object (k : string) (fs : list (string * string)) :
  searchable k -> Forall (plain_for k) fs ->
  match find (object_text fs) (quoted k) (Some 0) with
  | Some pos =>
      match quoted_value_after (object_text fs) pos with
      | Some v => v
      | None => EmptyString
      end
  | None => EmptyString
  end = or_empty (lookup k fs).
Proof.
  intros Hk Hall. destruct (lookup k fs) as [v|] eqn:Hl.
  - destruct (object_find_some k Hk fs v Hall
                (lookup_value_plain_for k k fs v Hall Hl) Hl) as (pos & Hf & Hq).
    rewrite Hf, Hq. reflexivity.
  - rewrite (object_find_none k Hk fs Hall Hl). reflexivity.
Qed.

Lemma searchable_command : searchable "command".
Proof. repeat split; reflexivity. Qed.

Lemma searchable_jobId : searchable "jobId".
Proof. repeat split; reflexivity. Qed.

Lemma searchable_ifcPath : searchable "ifcPath".
Proof. repeat split; reflexivity. Qed.

Lemma HandleCommand_plain (R : Type) (callback : string -> string -> string -> R)
  (fs : list (string * string)) :
  Forall (plain_for "command") fs ->
  Forall (plain_for "jobId") fs ->
  HandleCommand (Some callback) (object_text fs) =
  if empty (or_empty (lookup "command" fs)) then None
  else Some (callback (or_empty (lookup "command" fs))
                      (or_empty (lookup "jobId" fs)) (object_text fs)).
Proof.
  intros Hc Hj. unfold HandleCommand, extract_field.
  rewrite (first_value_object "command" fs searchable_command Hc).
  rewrite (first_value_object "jobId" fs searchable_jobId Hj).
  destruct (empty (or_empty (lookup "command" fs))); reflexivity.
Qed.

(** X10.  What [HandleCommand] passes on.  For a frame that is the text
    of a flat object whose keys and values hold no double quote and none
    of whose values is spelled [command] or [jobId], the command callback
    is called exactly when the object has a non-empty [command] field; it
    receives that command, the value of the [jobId] field, or the empty
    string when the frame has none, and the whole frame as payload.  A
    missing job id does not stop the dispatch. *)
Theorem HandleCommand_dispatches_plain_frames :
  forall (R : Type) (callback : string -> string -> string -> R) fs,
    Forall (plain_for "command") fs ->
    Forall (plain_for "jobId") fs ->
    HandleCommand (Some callback) (object_text fs) =
    if empty (or_empty (lookup "command" fs)) then None
    else Some (callback (or_empty (lookup "command" fs))
                        (or_empty (lookup "jobId" fs)) (object_text fs)).
Proof.
  intros R callback fs Hc Hj. apply HandleCommand_plain; assumption.
Qed.

Lemma HandleCommand_dispatches_plain_frames_witness :
  HandleCommand (Some (fun command jobId payload => (command, jobId)))
    (object_text [("command", "get_status")])
  = Some ("get_status", EmptyString).
Proof.
  apply (HandleCommand_dispatches_plain_frames _
           (fun command jobId payload => (command, jobId))
           [("command", "get_status")]);
    repeat constructor.
Defined.

(** X11.  [load_ifc] knows one name only.  For a payload that is the text
    of a flat object whose keys and values hold no double quote and none
    of whose values is spelled [ifcPath], the path is the value of the
    field [ifcPath]; when that field is absent or empty nothing is posted
    to the host and the error event [Missing ifcPath parameter] is the only
    effect, also when the path is given under [ifc_path], the name that
    [start_conversion] accepts. *)
Theorem load_ifc_reads_ifcPath_only :
  forall server net jobId fs,
    Forall (plain_for "ifcPath") fs ->
    Plugin.load_ifc server net jobId (object_text fs) =
    (if empty (or_empty (lookup "ifcPath" fs)) then
       Plugin.SendError server jobId "Missing ifcPath parameter"
     else
       Plugin.post_to_host server net jobId
         (Plugin.loadRequestJson jobId
            (Plugin.EscapeJsonString (or_empty (lookup "ifcPath" fs))))
         "Failed to get HTTP port") /\
    (lookup "ifcPath" fs = None ->
     Plugin.load_ifc server net jobId (object_text fs)
       = Plugin.SendError server jobId "Missing ifcPath parameter").
Proof.
  intros server net jobId fs Hall.
  assert (H : Plugin.load_ifc server net jobId (object_text fs) =
              if empty (or_empty (lookup "ifcPath" fs)) then
                Plugin.SendError server jobId "Missing ifcPath parameter"
              else
                Plugin.post_to_host server net jobId
                  (Plugin.loadRequestJson jobId
                     (Plugin.EscapeJsonString (or_empty (lookup "ifcPath" fs))))
                  "Failed to get HTTP port").
  { unfold Plugin.load_ifc.
    rewrite (first_value_object "ifcPath" fs searchable_ifcPath Hall). reflexivity. }
  split; [exact H|]. intros Hl. rewrite H, Hl. reflexivity.
Qed.

Lemma load_ifc_reads_ifcPath_only_witness :
  Plugin.load_ifc true answering_host
    "J1" (object_text [("command", "load_ifc"); ("jobId", "J1"); ("ifc_path", "C:/in.ifc")])
  = Plugin.SendError true "J1" "Missing ifcPath parameter".
Proof.
  apply (proj2 (load_ifc_reads_ifcPath_only true answering_host
                  "J1"
                  [("command", "load_ifc"); ("jobId", "J1"); ("ifc_path", "C:/in.ifc")]
                  ltac:(repeat constructor))).
  reflexivity.
Defined.

Lemma find0_char_before (c : ascii) (s : string) (i : nat) :
  find0 (String c EmptyString) s = Some i ->
  no_char c (substring 0 i s) = true.
Proof.
  revert i. induction s as [|a s IH]; intros i H.
  - discriminate H.
  - rewrite find0_unfold, prefix_cons, prefix_empty, andb_true_r in H.
    destruct (Ascii.eqb c a) eqn:Hca.
    + injection H as <-. reflexivity.
    + destruct (find0 (String c EmptyString) s) as [i'|] eqn:Hf; [|discriminate H].
      injection H as <-. cbn [substring no_char].
      rewrite Ascii.eqb_sym, Hca, (IH i' eq_refl). reflexivity.
Qed.

Lemma substring_drop (n m : nat) (s : string) :
  substring n m s = substring 0 m (drop n s).
Proof.
  revert s. induction n as [|n IH]; intros s.
  - rewrite drop_0. reflexivity.
  - destruct s as [|a s]; [destruct m; reflexivity|exact (IH s)].
Qed.

(** X12.  What the value block can return.  For every text and every
    position, a value read by the block that follows each key search holds
    no double quote: it is the text between one double quote and the next,
    so a value written with an escaped quote is cut at that quote. *)
Theorem extracted_values_hold_no_quote :
  forall payload pos v,
    quoted_value_after payload pos = Some v -> no_quote v = true.
Proof.
  intros payload pos v. unfold quoted_value_after.
  destruct (find payload quote (find payload ":" (Some pos))) as [qs|]; [|discriminate].
  cbn [size_succ]. unfold find at 1.
  destruct (Nat.ltb (String.length payload) (S qs)); [discriminate|].
  destruct (find0 quote (drop (S qs) payload)) as [i|] eqn:Hf; [|discriminate].
  unfold option_map. intros H.
  assert (Hv : v = substr payload (qs + 1) (S qs + i - qs - 1))
    by (injection H as <-; reflexivity).
  rewrite Hv. unfold substr. replace (qs + 1) with (S qs) by lia.
  replace (S qs + i - qs - 1) with i by lia.
  rewrite substring_drop. apply (find0_char_before quote_char _ i Hf).
Qed.

Lemma extracted_values_hold_no_quote_witness :
  no_quote "C:/in.pln" = true.
Proof.
  apply (extracted_values_hold_no_quote
           (object_text [("plnPath", "C:/in.pln")]) 1 "C:/in.pln").
  reflexivity.
Defined.

(* ================================================================== *)
(** * More on escaping *)

Section Escaping.

Local Open Scope string_scope.

Lemma decode_plain_cons (c : ascii) (t : string) :
  plain_char c = true ->
  JsonString.decode (String c t)
  = JsonString.prepend (String c EmptyString) (JsonString.decode t).
Proof.
  unfold plain_char, control_char. intros H.
  apply andb_true_iff in H. destruct H as [H H128].
  apply andb_true_iff in H. destruct H as [H H92].
  apply andb_true_iff in H. destruct H as [H32 H34].
  apply negb_true_iff in H92, H32, H34.
  unfold JsonString.decode. cbn [JsonString.decode_from].
  rewrite H34, H32, H92. unfold JsonString.copy, JsonString.utf8_next.
  rewrite H128. reflexivity.
Qed.

Lemma prepend_prepend (a b : string) (r : option string) :
  JsonString.prepend a (JsonString.prepend b r) = JsonString.prepend (a ++ b) r.
Proof. destruct r; simpl; [rewrite sapp_assoc|]; reflexivity. Qed.

Lemma decode_plain_app (w t : string) :
  plain_text w = true ->
  JsonString.decode (w ++ t) = JsonString.prepend w (JsonString.decode t).
Proof.
  induction w as [|c w IH]; intros H.
  - cbn [append]. destruct (JsonString.decode t); reflexivity.
  - cbn [plain_text] in H. apply andb_true_iff in H. destruct H as [Hc Hw].
    change (String c w ++ t) with (String c (w ++ t)).
    rewrite (decode_plain_cons c _ Hc), (IH Hw), prepend_prepend. reflexivity.
Qed.

Lemma decode_u_ffff (t : string) :
  JsonString.decode (String "\" (String "u" (String "f" (String "f"
                       (String "f" (String "f" t))))))
  = JsonString.prepend (JsonString.utf8 65535) (JsonString.decode t).
Proof. reflexivity. Qed.

(** A byte above 127 is written as a backslash, [uffffff] and two more
    hexadecimal digits. *)
Lemma escape_char_high (c : ascii) :
  Nat.ltb (nat_of_ascii c) 128 = false ->
  escape_char c
  = String "\" (String "u" (String "f" (String "f" (String "f" (String "f"
      (drop 6 (escape_char c))))))) /\
  plain_text (drop 6 (escape_char c)) = true.
Proof.
  destruct c as [[|] [|] [|] [|] [|] [|] [|] [|]]; intros H;
    try discriminate H; split; vm_compute; reflexivity.
Qed.

Lemma decode_escape_char_defined (c : ascii) (t u : string) :
  JsonString.decode t = Some u ->
  exists d, JsonString.decode (escape_char c ++ t) = Some d.
Proof.
  intros Ht. destruct (Nat.ltb (nat_of_ascii c) 128) eqn:Hc.
  - rewrite (decode_escape_char c t Hc), Ht. eexists. reflexivity.
  - destruct (escape_char_high c Hc) as [He Hp]. rewrite He.
    cbn [append]. rewrite decode_u_ffff, (decode_plain_app _ t Hp), Ht.
    eexists. reflexivity.
Qed.

End Escaping.

(** X13.  Whatever bytes a string holds, [EscapeJson] gives a text a JSON
    reader accepts as the inside of a string: quotes, backslashes and
    control characters are escaped, and the eight-digit form written for a
    byte above 127 still reads as an escape followed by plain characters.
    A value therefore never breaks the frame it is put in, even when (for
    bytes above 127) it does not read back as itself. *)
Theorem EscapeJson_is_always_decodable :
  forall s, exists d, JsonString.decode (EscapeJson s) = Some d.
Proof.
  induction s as [|c s [u IH]].
  - exists EmptyString. reflexivity.
  - cbn [EscapeJson]. exact (decode_escape_char_defined c _ u IH).
Qed.

(** X14.  [EscapeJson] works character by character: escaping a
    concatenation gives the concatenation of the escaped parts, so a
    message built from escaped pieces is the same as if the whole had been
    escaped at once, and the escaped text is never shorter than the
    string. *)
Theorem EscapeJson_distributes_over_append :
  forall a b,
    EscapeJson (a ++ b) = (EscapeJson a ++ EscapeJson b)%string /\
    String.length a <= String.length (EscapeJson a).
Proof.
  intros a b. split.
  - induction a as [|c a IH]; [reflexivity|].
    cbn [append EscapeJson]. rewrite IH, sapp_assoc. reflexivity.
  - induction a as [|c a IH]; [apply Nat.le_0_l|].
    cbn [EscapeJson]. rewrite slength_app. cbn [String.length].
    assert (1 <= String.length (escape_char c)); [|lia].
    destruct c as [[|] [|] [|] [|] [|] [|] [|] [|]]; vm_compute;
      repeat constructor.
Qed.

Section PathEscaping.

Local Open Scope string_scope.

Import JsonString.

Lemma ascii_of_code (c : ascii) (n : nat) : nat_of_ascii c = n -> c = ascii_of_nat n.
Proof. intros <-. symmetry. apply ascii_nat_embedding. Qed.

Lemma EscapeJsonString_cons (c : ascii) (rest : string) :
  Plugin.EscapeJsonString (String c rest) =
  (if Nat.eqb (nat_of_ascii c) 92 then "\\"
   else if Nat.eqb (nat_of_ascii c) 34 then "\" ++ quote
   else String c EmptyString) ++ Plugin.EscapeJsonString rest.
Proof. reflexivity. Qed.

Lemma control_char_not_escaped (c : ascii) :
  control_char c = true ->
  Nat.eqb (nat_of_ascii c) 92 = false /\ Nat.eqb (nat_of_ascii c) 34 = false.
Proof.
  unfold control_char. intros Hc. apply Nat.ltb_lt in Hc.
  split; apply Nat.eqb_neq; lia.
Qed.

Lemma between_low (lo n hi : nat) : between lo n hi = true -> lo <= n.
Proof.
  unfold between. intros H. apply andb_true_iff in H. destruct H as [H _].
  apply Nat.leb_le. exact H.
Qed.

(** Inside a sequence only bytes from 128 on are accepted. *)
Lemma utf8_next_inside (st st' : Pending) (c : ascii) :
  st <> Whole -> utf8_next st c = Some st' -> 128 <= nat_of_ascii c.
Proof.
  intros Hst H. unfold utf8_next in H.
  destruct st; try (contradiction Hst; reflexivity);
    match type of H with
    | (if between ?lo _ ?hi then _ else _) = _ =>
        destruct (between lo (nat_of_ascii c) hi) eqn:Hb; [|discriminate H];
        apply between_low in Hb; lia
    end.
Qed.

Lemma utf8_next_low (st : Pending) (c : ascii) :
  st <> Whole -> nat_of_ascii c < 128 -> utf8_next st c = None.
Proof.
  intros Hst Hc. destruct (utf8_next st c) as [st'|] eqn:Hn; [|reflexivity].
  pose proof (utf8_next_inside st st' c Hst Hn). lia.
Qed.

(** The escaped text of a path, read from any place of a UTF-8 sequence:
    it reads back as the path exactly when the path holds no character
    below [0x20] and its bytes are well-formed from that place on. *)
Lemma decode_from_path (s : string) :
  forall st,
    decode_from st (Plugin.EscapeJsonString s)
    = if no_control s && utf8_from st s then Some s else None.
Proof.
  induction s as [|c s IH]; intros st.
  - destruct st; reflexivity.
  - rewrite EscapeJsonString_cons. cbn [no_control utf8_from].
    assert (Hwhole : st = Whole \/ st <> Whole)
      by (destruct st; (left; reflexivity) || (right; discriminate)).
    destruct Hwhole as [->|Hst].
    + destruct (control_char c) eqn:Hc.
      * destruct (control_char_not_escaped c Hc) as [H92 H34]. rewrite H92, H34.
        unfold control_char in Hc. cbn [append decode_from negb andb].
        rewrite H34, Hc. reflexivity.
      * destruct (Nat.eqb (nat_of_ascii c) 92) eqn:H92.
        { apply Nat.eqb_eq, ascii_of_code in H92. subst c.
          change (decode_from Whole ("\\" ++ Plugin.EscapeJsonString s))
            with (prepend "\" (decode_from Whole (Plugin.EscapeJsonString s))).
          change (utf8_next Whole (ascii_of_nat 92)) with (Some Whole).
          rewrite IH. cbn [negb andb].
          destruct (no_control s && utf8_from Whole s); reflexivity. }
        destruct (Nat.eqb (nat_of_ascii c) 34) eqn:H34.
        { apply Nat.eqb_eq, ascii_of_code in H34. subst c.
          change (decode_from Whole (("\" ++ quote) ++ Plugin.EscapeJsonString s))
            with (prepend quote (decode_from Whole (Plugin.EscapeJsonString s))).
          change (utf8_next Whole (ascii_of_nat 34)) with (Some Whole).
          rewrite IH. cbn [negb andb].
          destruct (no_control s && utf8_from Whole s); reflexivity. }
        unfold control_char in Hc. cbn [append decode_from negb andb].
        rewrite H34, Hc, H92. unfold copy.
        destruct (utf8_next Whole c) as [st'|]; [|rewrite andb_false_r; reflexivity].
        rewrite IH. destruct (no_control s && utf8_from st' s); reflexivity.
    + assert (Hcopy : forall h t,
                 decode_from st (String h t)
                 = copy st h (fun st' => decode_from st' t))
        by (intros h t; destruct st; try (contradiction Hst; reflexivity); reflexivity).
      destruct (Nat.eqb (nat_of_ascii c) 92) eqn:H92.
      { apply Nat.eqb_eq in H92. cbn [append]. rewrite Hcopy. unfold copy.
        rewrite (utf8_next_low st "\" Hst) by (apply Nat.ltb_lt; reflexivity).
        rewrite (utf8_next_low st c Hst) by lia.
        rewrite andb_false_r. reflexivity. }
      destruct (Nat.eqb (nat_of_ascii c) 34) eqn:H34.
      { apply Nat.eqb_eq in H34. cbn [append]. rewrite Hcopy. unfold copy.
        rewrite (utf8_next_low st "\" Hst) by (apply Nat.ltb_lt; reflexivity).
        rewrite (utf8_next_low st c Hst) by lia.
        rewrite andb_false_r. reflexivity. }
      cbn [append]. rewrite Hcopy. unfold copy.
      destruct (utf8_next st c) as [st'|] eqn:Hn; [|rewrite andb_false_r; reflexivity].
      pose proof (utf8_next_inside st st' c Hst Hn) as Hhigh.
      assert (Hc : control_char c = false)
        by (unfold control_char; apply Nat.ltb_ge; lia).
      rewrite Hc, IH. cbn [negb andb].
      destruct (no_control s && utf8_from st' s); reflexivity.
Qed.

End PathEscaping.

(** X15.  [EscapeJsonString], the escaping of the paths posted to the
    host, escapes the backslash and the double quote only and copies every
    other byte.  The escaped text reads back as the path exactly for the
    paths that are well-formed UTF-8 and hold no character below [0x20];
    for every other path (a control character, or bytes above 127 that
    are not UTF-8, such as a Latin-1 letter alone) the escaped text is not
    the inside of a JSON string. *)
Theorem EscapeJsonString_roundtrip_on_utf8 :
  forall s,
    (no_control s = true -> JsonString.well_formed_utf8 s = true ->
     JsonString.decode (Plugin.EscapeJsonString s) = Some s) /\
    (no_control s = false \/ JsonString.well_formed_utf8 s = false ->
     JsonString.decode (Plugin.EscapeJsonString s) = None).
Proof.
  intros s. unfold JsonString.decode, JsonString.well_formed_utf8.
  rewrite decode_from_path. split.
  - intros -> ->. reflexivity.
  - intros [->| ->]; [reflexivity|rewrite andb_false_r; reflexivity].
Qed.

Lemma EscapeJsonString_roundtrip_on_utf8_witness :
  JsonString.decode (Plugin.EscapeJsonString cafe) = Some cafe.
Proof.
  apply (proj1 (EscapeJsonString_roundtrip_on_utf8 cafe)); reflexivity.
Defined.

(** A Latin-1 e-acute alone (the byte E9) is copied as it is, and the
    text is refused by the reader. *)
Example latin1_path_is_not_json :
  JsonString.decode (Plugin.EscapeJsonString (String (ascii_of_nat 233) "x")) = None.
Proof. reflexivity. Qed.

(* ================================================================== *)
(** * More on sessions *)

Section SessionLife.

Import WebSocketSession.

Lemma accepted_is_OnAccept : OnAccept false constructed = accepted.
Proof. reflexivity. Qed.

Ltac keep_invariant d :=
  split;
  [ first [ left; reflexivity | left; assumption | right; split; reflexivity | tauto ]
  | split;
    [ exists d; split;
      [ first [ assumption
              | subst; rewrite <- ?app_assoc; cbn; rewrite ?app_nil_r; reflexivity ]
      | first [ assumption | discriminate | intros; reflexivity ] ]
    | split;
      [ first [ assumption | lia ]
      | first [ assumption | discriminate | intros; reflexivity | intros; lia ] ] ] ].

Lemma happen_invariant (sent : list string) (x : Session) (h : Happening) :
  session_invariant sent x ->
  session_invariant (sent ++ messages_of [h]) (happen x h).
Proof.
  destruct x as [o q f w r]. unfold session_invariant. cbn.
  intros (Hfl & (dropped & Hsent & Hopen) & Hreads & Hzero).
  destruct h as [m|ec| |ec message]; cbn [happen messages_of flat_map app].
  - (* Send *)
    unfold Send. cbn. destruct o; cbn.
    + specialize (Hopen eq_refl). subst dropped. rewrite app_nil_r in Hsent.
      destruct Hfl as [Hf|[_ Hc]]; [|discriminate Hc].
      subst f sent. unfold DoWrite. destruct q as [|a q]; cbn;
        keep_invariant (@nil string).
    + keep_invariant (dropped ++ [m]).
  - (* OnWrite *)
    rewrite app_nil_r. unfold OnWrite. cbn.
    destruct f as [|buffer others]; cbn.
    + keep_invariant dropped.
    + destruct Hfl as [Hf|[Hf _]]; [|discriminate Hf].
      destruct q as [|a q]; [discriminate Hf|].
      cbn in Hf. injection Hf as -> ->.
      destruct ec; cbn.
      * keep_invariant dropped.
      * unfold DoWrite. destruct q as [|b q]; cbn; keep_invariant dropped.
  - (* Close *)
    rewrite app_nil_r. unfold Close, with_open. cbn. destruct o; cbn;
      keep_invariant dropped.
  - (* OnRead *)
    rewrite app_nil_r. unfold OnRead, DoRead, with_open.
    destruct ec; cbn; keep_invariant dropped.
Qed.

Lemma happen_all_invariant (hs : list Happening) :
  forall sent x,
    session_invariant sent x ->
    session_invariant (sent ++ messages_of hs) (happen_all hs x).
Proof.
  induction hs as [|h hs IH]; intros sent x Hinv.
  - cbn. rewrite app_nil_r. exact Hinv.
  - change (happen_all (h :: hs) x) with (happen_all hs (happen x h)).
    assert (Hm : messages_of (h :: hs) = messages_of [h] ++ messages_of hs)
      by (unfold messages_of; cbn; rewrite app_nil_r; reflexivity).
    rewrite Hm, app_assoc. apply IH, happen_invariant, Hinv.
Qed.

Lemma accepted_invariant : session_invariant [] accepted.
Proof.
  repeat split; cbn; auto.
  - exists []. split; reflexivity.
  - discriminate.
Qed.

Lemma closed_stays_closed (hs : list Happening) :
  forall x,
    m_open x = false ->
    m_open (happen_all hs x) = false /\
    List.length (m_writeQueue (happen_all hs x)) <= List.length (m_writeQueue x).
Proof.
  induction hs as [|h hs IH]; intros x Hc; [split; [exact Hc|apply Nat.le_refl]|].
  change (happen_all (h :: hs) x) with (happen_all hs (happen x h)).
  assert (Hstep : m_open (happen x h) = false /\
                  List.length (m_writeQueue (happen x h))
                  <= List.length (m_writeQueue x)).
  { destruct x as [o q f w r]. cbn in Hc. subst o.
    destruct h as [m|ec| |ec message]; cbn [happen].
    - split; [reflexivity|apply Nat.le_refl].
    - unfold OnWrite. cbn. destruct f as [|buffer others];
        [split; [reflexivity|apply Nat.le_refl]|].
      destruct ec; cbn; [split; [reflexivity|apply Nat.le_refl]|].
      unfold DoWrite. destruct q as [|a [|b q]]; cbn; split; auto.
    - split; [reflexivity|apply Nat.le_refl].
    - unfold OnRead. destruct ec; cbn; split; auto. }
  destruct Hstep as [Hc' Hl]. destruct (IH _ Hc') as [Hc'' Hl'].
  split; [exact Hc''|lia].
Qed.

End SessionLife.

(** X16.  What reaches the wire, whatever happens.  For every sequence of
    sends, closes, write completions (successful or not) and read
    completions on an accepted session: the frames on the wire followed by
    the queue are a beginning of the messages passed to [Send], in the
    order passed, so nothing is ever reordered, repeated or invented, and
    messages are lost only from the moment the session is closed; at most
    one write is in flight; and at most one read is outstanding, none only
    on a closed session. *)
Theorem wire_is_a_prefix_of_the_sends :
  forall hs,
    let x := WebSocketSession.happen_all hs WebSocketSession.accepted in
    (exists dropped,
        WebSocketSession.wire x ++ WebSocketSession.m_writeQueue x ++ dropped
        = WebSocketSession.messages_of hs /\
        (WebSocketSession.m_open x = true -> dropped = [])) /\
    List.length (WebSocketSession.inFlight x) <= 1 /\
    WebSocketSession.reads x <= 1 /\
    (WebSocketSession.reads x = 0 -> WebSocketSession.m_open x = false).
Proof.
  intros hs x.
  destruct (happen_all_invariant hs [] WebSocketSession.accepted accepted_invariant)
    as (Hfl & (dropped & Hsent & Hopen) & Hreads & Hzero).
  fold x in Hfl, Hsent, Hopen, Hreads, Hzero. cbn [app] in Hsent.
  split; [|split; [|split; assumption]].
  - exists dropped. rewrite app_assoc. split; assumption.
  - destruct Hfl as [Hf|[Hf _]]; rewrite Hf; [|apply Nat.le_0_l].
    destruct (WebSocketSession.m_writeQueue x); cbn; lia.
Qed.

(** X17.  A closed session stays closed.  Once [m_open] is false (after
    [Close], a read error, a close by the client or a write error), no
    send, close, write completion or read completion sets it again, and
    every later [Send] is dropped: the queue never grows again. *)
Theorem closed_session_stays_closed :
  forall hs x,
    WebSocketSession.m_open x = false ->
    WebSocketSession.m_open (WebSocketSession.happen_all hs x) = false /\
    List.length (WebSocketSession.m_writeQueue (WebSocketSession.happen_all hs x))
    <= List.length (WebSocketSession.m_writeQueue x).
Proof. intros hs x H. apply closed_stays_closed. exact H. Qed.

Lemma closed_session_stays_closed_witness :
  WebSocketSession.m_open
    (WebSocketSession.happen_all
       [WebSocketSession.HSend "E1"; WebSocketSession.HWriteDone false]
       (WebSocketSession.Close WebSocketSession.accepted)) = false.
Proof.
  apply (closed_session_stays_closed
           [WebSocketSession.HSend "E1"; WebSocketSession.HWriteDone false]
           (WebSocketSession.Close WebSocketSession.accepted)).
  reflexivity.
Defined.

(* ================================================================== *)
(** * Broadcasting *)

Section Broadcasting.

Import WebSocketSession.
Import ServerSessions.

Lemma BroadcastMessage_map (message : string) (sessions : list Session) :
  BroadcastMessage message sessions = map (Send message) (filter IsOpen sessions).
Proof.
  unfold BroadcastMessage. apply map_ext_in. intros x Hx.
  apply filter_In in Hx. destruct Hx as [_ Ho]. rewrite Ho. reflexivity.
Qed.

Lemma filter_all_open (sessions : list Session) :
  Forall queue_invariant sessions -> filter IsOpen sessions = sessions.
Proof.
  induction 1 as [|x sessions [Ho _] _ IH]; [reflexivity|].
  cbn [filter]. unfold IsOpen at 1. rewrite Ho, IH. reflexivity.
Qed.

Lemma Send_keeps_invariant (message : string) (x : Session) :
  queue_invariant x -> queue_invariant (Send message x).
Proof.
  intros Hinv.
  destruct (apply_op_invariant x (OpSend message) Hinv eq_refl) as [H _]. exact H.
Qed.

Lemma broadcast_all_map (messages : list string) :
  forall sessions,
    Forall queue_invariant sessions ->
    broadcast_all messages sessions
    = map (apply_ops (map OpSend messages)) sessions.
Proof.
  induction messages as [|m messages IH]; intros sessions Hall.
  - cbn. symmetry. apply map_id.
  - change (broadcast_all (m :: messages) sessions)
      with (broadcast_all messages (BroadcastMessage m sessions)).
    rewrite BroadcastMessage_map, (filter_all_open sessions Hall).
    rewrite IH.
    + rewrite map_map. reflexivity.
    + apply Forall_map. eapply Forall_impl; [|exact Hall].
      intros x Hx. apply Send_keeps_invariant. exact Hx.
Qed.

Lemma sent_messages_sends (messages : list string) :
  sent_messages (map OpSend messages) = messages.
Proof.
  induction messages as [|m messages IH]; [reflexivity|].
  unfold sent_messages in *. cbn. rewrite IH. reflexivity.
Qed.

Lemma error_free_sends (messages : list string) :
  error_free (map OpSend messages) = true.
Proof. induction messages as [|m messages IH]; [reflexivity|exact IH]. Qed.

End Broadcasting.

(** X18.  A broadcast reaches the open sessions and forgets the closed
    ones.  Of the sessions tracked, [BroadcastMessage] keeps exactly those
    that are open, in their order; each of them gets the message at the
    end of its queue and nothing else of it changes on the wire; the closed
    ones are no longer tracked, so the connection count after a broadcast
    is the number of sessions that were open. *)
Theorem broadcast_reaches_exactly_the_open_sessions :
  forall message sessions,
    let kept := filter WebSocketSession.IsOpen sessions in
    let after := ServerSessions.BroadcastMessage message sessions in
    ServerSessions.GetConnectionCount after = List.length kept /\
    Forall (fun x => WebSocketSession.m_open x = true) after /\
    map WebSocketSession.m_writeQueue after
      = map (fun x => WebSocketSession.m_writeQueue x ++ [message]) kept /\
    map WebSocketSession.wire after = map WebSocketSession.wire kept.
Proof.
  intros message sessions kept after.
  assert (Hk : Forall (fun x => WebSocketSession.m_open x = true) kept).
  { apply Forall_forall. intros x Hx. apply filter_In in Hx. apply Hx. }
  unfold after. rewrite BroadcastMessage_map. fold kept.
  unfold ServerSessions.GetConnectionCount. rewrite length_map.
  split; [reflexivity|].
  induction Hk as [|x rest Ho _ IH]; [repeat split; constructor|].
  destruct (Send_open message x Ho) as (Hq & Hw & Ho' & _).
  destruct IH as (IH1 & IH2 & IH3).
  cbn [map]. rewrite Hq, Hw, IH2, IH3.
  split; [constructor; assumption|split; reflexivity].
Qed.

(** X19.  Broadcasts arrive in the order made.  When the sessions tracked
    are open with their writes in order, broadcasting a list of messages
    one after the other keeps every session and gives each of them the
    messages as consecutive calls of [Send]: for each session the frames on
    the wire followed by the queue are those it had, followed by the
    messages in the order broadcast, and still at most one write is in
    flight. *)
Theorem broadcasts_keep_their_order :
  forall messages sessions,
    Forall queue_invariant sessions ->
    ServerSessions.broadcast_all messages sessions
      = map (WebSocketSession.apply_ops (map WebSocketSession.OpSend messages)) sessions /\
    Forall (fun x =>
              let y := WebSocketSession.apply_ops
                         (map WebSocketSession.OpSend messages) x in
              WebSocketSession.wire y ++ WebSocketSession.m_writeQueue y
                = WebSocketSession.wire x ++ WebSocketSession.m_writeQueue x ++ messages /\
              WebSocketSession.inFlight y = firstn 1 (WebSocketSession.m_writeQueue y))
           sessions.
Proof.
  intros messages sessions Hall. split; [apply broadcast_all_map; exact Hall|].
  eapply Forall_impl; [|exact Hall].
  intros x Hx.
  destruct (apply_ops_invariant (map WebSocketSession.OpSend messages) x Hx
              (error_free_sends messages)) as [[_ Hf] Hw].
  rewrite sent_messages_sends in Hw. split; assumption.
Qed.

Lemma broadcasts_keep_their_order_witness :
  ServerSessions.broadcast_all ["E1"; "E2"] [WebSocketSession.accepted]
  = map (WebSocketSession.apply_ops
           (map WebSocketSession.OpSend ["E1"; "E2"])) [WebSocketSession.accepted].
Proof.
  apply (proj1 (broadcasts_keep_their_order ["E1"; "E2"] [WebSocketSession.accepted]
                  ltac:(repeat constructor))).
Defined.

(* ================================================================== *)
(** * The load command and the progress window *)

Lemma load_try_cases (env : Plugin.LoadEnv) (ifcPath : string) :
  let '(success, errorMsg, calls) := Plugin.load_try env ifcPath in
  (success = true -> errorMsg = EmptyString) /\
  (success = false -> empty errorMsg = false) /\
  (calls = [] \/
   calls = [Call (ProjectOperation_Open "APIFType_IfcFile" ifcPath) (Plugin.loadOpen env)]).
Proof.
  unfold Plugin.load_try, Plugin.load_catch.
  destruct env as [ls fs lo]; cbn [Plugin.locationStatus Plugin.ifcFileStatus Plugin.loadOpen].
  destruct ls as [st| |]; [destruct (st =? NoError)%Z; cbn [negb]| |];
    try (repeat split; try discriminate; auto; fail).
  destruct fs as [ft| |]; [destruct (ft =? NoError)%Z; cbn [negb]| |];
    try (repeat split; try discriminate; auto; fail).
  destruct lo as [err| |]; [destruct (err =? NoError)%Z; cbn [negb]| |];
    repeat split; try discriminate; auto.
Qed.

(** X20.  [LoadIfcCommand::Execute] reports once.  While the server
    exists it broadcasts exactly one event for its job id: the progress
    event 100 [completed] when the file was opened, and otherwise the error
    event whose text is the message also returned under the key [error],
    which is never empty on failure and absent on success.  The command
    asks the host at most to open the given path: it never closes the
    project and never opens the blank template, so a loaded file stays
    open. *)
Theorem LoadIfc_reports_once :
  forall env jobId ifcPath,
    let '(result, events, calls) := Plugin.LoadIfcCommand_Execute true env jobId ifcPath in
    Plugin.load_jobId result = jobId /\
    (Plugin.load_success result = true ->
     Plugin.load_error result = None /\
     events = [ProgressEvent jobId 100 "completed" "IFC file loaded successfully"]) /\
    (Plugin.load_success result = false ->
     exists message,
       empty message = false /\
       Plugin.load_error result = Some message /\
       events = [ErrorEvent jobId message]) /\
    (calls = [] \/
     calls = [Call (ProjectOperation_Open "APIFType_IfcFile" ifcPath) (Plugin.loadOpen env)]).
Proof.
  intros env jobId ifcPath. unfold Plugin.LoadIfcCommand_Execute.
  pose proof (load_try_cases env ifcPath) as H.
  destruct (Plugin.load_try env ifcPath) as [[success errorMsg] calls].
  destruct H as (Ht & Hf & Hc). cbn [Plugin.load_jobId Plugin.load_success Plugin.load_error].
  split; [reflexivity|]. split; [|split; [|exact Hc]].
  - intros Hs. rewrite Hs, (Ht Hs). split; reflexivity.
  - intros Hs. exists errorMsg. rewrite Hs, (Hf Hs). repeat split.
Qed.

Section Window.

Import ProgressWindow.

Lemma Close_closes (w : Window) :
  s_isShown (fst (Close w)) = false /\ Forall in_range (snd (Close w)).
Proof.
  unfold Close. destruct (s_isShown w) eqn:H; cbn.
  - split; [reflexivity|repeat constructor].
  - split; [exact H|constructor].
Qed.

Lemma UpdateProgress_in_range (progress : Z) (message : string) (w : Window) :
  Forall in_range (snd (UpdateProgress progress message w)).
Proof.
  unfold UpdateProgress. destruct (s_isShown w) eqn:H; cbn [negb]; [|constructor].
  destruct (progress <? 0)%Z eqn:H0.
  - cbn. repeat constructor; cbn; lia.
  - apply Z.ltb_ge in H0. destruct (progress >? 100)%Z eqn:H100.
    + cbn. unfold Close. rewrite H. cbn. repeat constructor; cbn; lia.
    + assert (progress <= 100)%Z by (rewrite Z.gtb_ltb in H100; apply Z.ltb_ge in H100; lia).
      destruct (progress >=? 100)%Z.
      * unfold Close. rewrite H. cbn. repeat constructor; cbn; lia.
      * cbn. repeat constructor; cbn; lia.
Qed.

Lemma updates_in_range (log : list Obs) :
  forall w, Forall in_range (snd (updates log w)).
Proof.
  induction log as [|o log IH]; intros w; [constructor|].
  destruct o as [p m| |]; cbn [updates]; try apply IH.
  pose proof (UpdateProgress_in_range p m w) as Hu.
  destruct (UpdateProgress p m w) as [w1 l1].
  pose proof (IH w1) as Hr. destruct (updates log w1) as [w2 l2].
  cbn [snd] in *. apply Forall_app. split; assumption.
Qed.

End Window.

(** X21.  The progress window of an add-on command.  Whatever the window
    state at the start and whatever the conversion reports, every
    percentage written by the window lies between 0 and 100, and the window
    is not shown when the command returns. *)
Theorem command_leaves_no_window :
  forall title jobId log w,
    ProgressWindow.s_isShown (fst (ProgressWindow.command_window title jobId log w)) = false /\
    Forall ProgressWindow.in_range (snd (ProgressWindow.command_window title jobId log w)).
Proof.
  intros title jobId log w. unfold ProgressWindow.command_window.
  assert (Hshow : Forall ProgressWindow.in_range
                    (snd (ProgressWindow.Show title "Starting conversion..." w)))
    by (unfold ProgressWindow.Show; destruct (ProgressWindow.s_isShown w);
        repeat constructor).
  destruct (ProgressWindow.Show title "Starting conversion..." w) as [w1 l1].
  assert (Hid : Forall ProgressWindow.in_range (snd (ProgressWindow.SetJobId jobId w1)))
    by (unfold ProgressWindow.SetJobId; destruct (ProgressWindow.s_isShown w1);
        repeat constructor).
  destruct (ProgressWindow.SetJobId jobId w1) as [w2 l2].
  pose proof (updates_in_range log w2) as Hup.
  destruct (ProgressWindow.updates log w2) as [w3 l3].
  destruct (Close_closes w3) as [Hc Hl].
  destruct (ProgressWindow.Close w3) as [w4 l4].
  cbn [fst snd] in *. split; [exact Hc|].
  repeat (apply Forall_app; split); assumption.
Qed.

(** X22.  From a frame to the post.  A frame that is the text of a plain
    object with the command [start_conversion], read on a session, leaves
    the job guard as it was (the conversion itself runs on the host
    thread), issues the next read, and has the effects of
    [start_conversion] for the paths and the direction that the fields
    give and for the job id of the frame, or the empty id when the frame
    has none. *)
Theorem start_frame_is_routed :
  forall server net fs x s,
    plain_object fs ->
    Forall (plain_for "command") fs ->
    Forall (plain_for "jobId") fs ->
    lookup "command" fs = Some "start_conversion" ->
    Plugin.on_frame server net WebSocketSession.ReadOk (object_text fs) x s
      = (fst (WebSocketSession.OnRead WebSocketSession.ReadOk (object_text fs)
                (@None (string -> unit)) x),
         s,
         Plugin.start_conversion server net (or_empty (lookup "jobId" fs))
           (object_text fs)) /\
    Plugin.parse_start_conversion (object_text fs) = fields_read fs.
Proof.
  intros server net fs x s Hplain Hc Hj Hl. split; [|apply parse_object; exact Hplain].
  unfold Plugin.on_frame, WebSocketSession.OnRead, HandleMessage.
  rewrite (HandleCommand_plain _ (Plugin.HandleWebSocketCommand server net) fs Hc Hj).
  rewrite Hl. reflexivity.
Qed.

Lemma start_frame_is_routed_witness :
  Plugin.parse_start_conversion (object_text legacy_names_request)
  = fields_read legacy_names_request.
Proof.
  apply (proj2 (start_frame_is_routed true answering_host
                  legacy_names_request WebSocketSession.accepted initial_state
                  ltac:(unfold plain_object, legacy_names_request;
                        repeat (constructor;
                                [repeat split; try reflexivity; simpl;
                                 intuition discriminate|]);
                        constructor)
                  ltac:(repeat constructor)
                  ltac:(repeat constructor)
                  eq_refl)).
Defined.

Lemma wire_is_a_prefix_of_the_sends_witness :
  List.length
    (WebSocketSession.inFlight
       (WebSocketSession.happen_all
          [WebSocketSession.HSend "E1"; WebSocketSession.HSend "E2";
           WebSocketSession.HWriteDone true; WebSocketSession.HSend "E3"]
          WebSocketSession.accepted)) <= 1.
Proof.
  exact (proj1 (proj2 (wire_is_a_prefix_of_the_sends
                         [WebSocketSession.HSend "E1"; WebSocketSession.HSend "E2";
                          WebSocketSession.HWriteDone true; WebSocketSession.HSend "E3"]))).
Defined.

Lemma LoadIfc_reports_once_witness :
  exists message,
    empty message = false /\
    Plugin.load_error
      (fst (fst (Plugin.LoadIfcCommand_Execute true
                   {| Plugin.locationStatus := Returns (-1)%Z;
                      Plugin.ifcFileStatus := Returns NoError;
                      Plugin.loadOpen := Returns NoError |} "J1" "a.ifc")))
    = Some message /\
    snd (fst (Plugin.LoadIfcCommand_Execute true
                {| Plugin.locationStatus := Returns (-1)%Z;
                   Plugin.ifcFileStatus := Returns NoError;
                   Plugin.loadOpen := Returns NoError |} "J1" "a.ifc"))
    = [ErrorEvent "J1" message].
Proof.
  apply (proj1 (proj2 (proj2 (LoadIfc_reports_once
                                {| Plugin.locationStatus := Returns (-1)%Z;
                                   Plugin.ifcFileStatus := Returns NoError;
                                   Plugin.loadOpen := Returns NoError |} "J1" "a.ifc")))).
  reflexivity.
Defined.
